(** * Tuo La Ji (Sheng Ji / Tractor): the rules engine of [tuolaji.py]

    A shallow embedding of the card model, the trump system, the combination
    detector, the follow rules, trick resolution and the round state machine,
    followed by the properties of the engine that the specification states.

    Conventions of the embedding:
    - Python [str] values (suits, ranks, effective suits, messages) are
      [string]s; Python [int]s are [Z];
    - a Python call that raises (KeyError of [RANK_VAL], ValueError of
      [list.index], [list.remove], [max] and [trump_order], IndexError,
      a failed [assert]) is [None] in the [option] monad;
    - a [dict] is an association list in insertion order, which is the
      iteration order of a Python dict. *)

From Stdlib Require Import String.
From Stdlib Require Import ZArith List Bool Lia Permutation Arith DecimalString.
From Stdlib Require Import Sorted.
Import ListNotations.
Open Scope string_scope.
Open Scope list_scope.
Open Scope Z_scope.

#[global] Arguments String.eqb : simpl never.
#[global] Arguments String.append : simpl never.

(* ================================================================= *)
(** ** Small Python library *)

Notation "x <- c1 ;; c2" :=
  (match c1 with Some x => c2 | None => None end)
  (at level 61, c1 at next level, right associativity).

Notation "' pat <- c1 ;; c2" :=
  (match c1 with Some pat => c2 | None => None end)
  (at level 61, pat pattern, c1 at next level, right associativity).

Infix "+++" := String.append (at level 60, right associativity).

Module Py.

(** [len(l)] *)
Definition len {A} (l : list A) : Z := Z.of_nat (length l).

(** [l.index(x)]: position of the first element equal to [x]; ValueError
    when there is none. *)
Fixpoint index {A} (eqb : A -> A -> bool) (x : A) (l : list A) : option Z :=
  match l with
  | [] => None
  | y :: l' => if eqb y x then Some 0
               else i <- index eqb x l' ;; Some (1 + i)
  end.

(** [enumerate(l)] *)
Fixpoint enumerate_from {A} (i : Z) (l : list A) : list (Z * A) :=
  match l with
  | [] => []
  | x :: l' => (i, x) :: enumerate_from (i + 1) l'
  end.
Definition enumerate {A} (l : list A) := enumerate_from 0 l.

(** [d[k]] on a dict kept as an association list; KeyError when absent. *)
Fixpoint getitem {K V} (eqb : K -> K -> bool) (d : list (K * V)) (k : K)
  : option V :=
  match d with
  | [] => None
  | (k', v) :: d' => if eqb k' k then Some v else getitem eqb d' k
  end.

(** [d.setdefault(k, []).append(x)]: append to the list stored under [k],
    creating the entry at the end of the dict when [k] is new. *)
Fixpoint setdefault_append {K V} (eqb : K -> K -> bool)
         (d : list (K * list V)) (k : K) (x : V) : list (K * list V) :=
  match d with
  | [] => [(k, [x])]
  | (k', vs) :: d' =>
      if eqb k' k then (k', vs ++ [x]) :: d'
      else (k', vs) :: setdefault_append eqb d' k x
  end.

(** [x in l] *)
Definition contains {A} (eqb : A -> A -> bool) (x : A) (l : list A) : bool :=
  existsb (fun y => eqb y x) l.

(** [l.remove(x)]: delete the first element equal to [x]; ValueError when
    there is none. *)
Fixpoint remove {A} (eqb : A -> A -> bool) (x : A) (l : list A)
  : option (list A) :=
  match l with
  | [] => None
  | y :: l' => if eqb y x then Some l'
               else r <- remove eqb x l' ;; Some (y :: r)
  end.

(** [set(l)]: the distinct values of [l] (only its size and membership
    are ever observed). *)
Fixpoint set_of {A} (eqb : A -> A -> bool) (l : list A) : list A :=
  match l with
  | [] => []
  | x :: l' => let s := set_of eqb l' in
               if contains eqb x s then s else x :: s
  end.

(** Stable insertion by an integer key: [x] goes after the elements whose
    key is not larger. *)
Fixpoint insert_by {A} (key : A -> Z) (x : A) (l : list A) : list A :=
  match l with
  | [] => [x]
  | y :: l' => if key y <=? key x then y :: insert_by key x l'
               else x :: y :: l'
  end.

(** [sorted(l, key=key)]: stable, ascending. *)
Definition sorted_by {A} (key : A -> Z) (l : list A) : list A :=
  fold_left (fun acc x => insert_by key x acc) l [].

(** [sorted(l, key=key, reverse=True)]: descending, and still stable
    (elements with equal keys keep their original order). *)
Definition sorted_by_rev {A} (key : A -> Z) (l : list A) : list A :=
  sorted_by (fun x => - key x) l.

(** [sorted(l)] on strings (code-point order, which is the byte order of
    their UTF-8 encoding). *)
Fixpoint insert_string (x : string) (l : list string) : list string :=
  match l with
  | [] => [x]
  | y :: l' => if String.leb y x then y :: insert_string x l'
               else x :: y :: l'
  end.
Definition sorted_strings (l : list string) : list string :=
  fold_left (fun acc x => insert_string x acc) l [].

(** [l[:n]] and [l[n:]] for [n >= 0]. *)
Definition take {A} (n : Z) (l : list A) : list A := firstn (Z.to_nat n) l.
Definition drop {A} (n : Z) (l : list A) : list A := skipn (Z.to_nat n) l.

(** [l[i]]: a negative index counts from the end; IndexError outside
    [-len(l) <= i < len(l)]. *)
Definition norm_index {A} (l : list A) (i : Z) : option nat :=
  if (0 <=? i) && (i <? len l) then Some (Z.to_nat i)
  else if (- len l <=? i) && (i <? 0) then Some (Z.to_nat (len l + i))
  else None.

Definition getidx {A} (l : list A) (i : Z) : option A :=
  n <- norm_index l i ;; nth_error l n.

Fixpoint set_nth {A} (l : list A) (n : nat) (x : A) : list A :=
  match l, n with
  | [], _ => []
  | _ :: l', O => x :: l'
  | y :: l', S n' => y :: set_nth l' n' x
  end.

(** [l[i] = x] *)
Definition setidx {A} (l : list A) (i : Z) (x : A) : option (list A) :=
  n <- norm_index l i ;; Some (set_nth l n x).

(** [sum(...)] *)
Definition sum (l : list Z) : Z := fold_left Z.add l 0.

(** Decimal rendering of an integer inside an f-string. *)
Definition str (z : Z) : string :=
  match z with
  | Z0 => "0"
  | Zpos p => NilEmpty.string_of_uint (Pos.to_uint p)
  | Zneg p => String.append "-" (NilEmpty.string_of_uint (Pos.to_uint p))
  end.

(** Keys computed for every element of a list, failing when one fails. *)
Fixpoint mapM {A B} (f : A -> option B) (l : list A) : option (list B) :=
  match l with
  | [] => Some []
  | x :: l' => y <- f x ;; ys <- mapM f l' ;; Some (y :: ys)
  end.

End Py.

#[global] Arguments Py.len : simpl never.
#[global] Arguments Py.sum : simpl never.
#[global] Arguments Py.take : simpl never.
#[global] Arguments Py.drop : simpl never.
#[global] Arguments Py.str : simpl never.

(* ================================================================= *)
(** ** 1. Card model *)

Definition SUITS : list string := ["♣"; "♦"; "♥"; "♠"].
Definition RANKS : list string :=
  ["2"; "3"; "4"; "5"; "6"; "7"; "8"; "9"; "10"; "J"; "Q"; "K"; "A"].

(** [RANK_VAL = {r: i for i, r in enumerate(RANKS)}] and [RANK_VAL[r]]. *)
Definition RANK_VAL_dict : list (string * Z) :=
  map (fun '(i, r) => (r, i)) (Py.enumerate RANKS).
Definition RANK_VAL (r : string) : option Z :=
  Py.getitem String.eqb RANK_VAL_dict r.

Definition SMALL_JOKER : string := "SJ".
Definition BIG_JOKER : string := "BJ".

Definition POINT_VALUES : list (string * Z) :=
  [("5", 5); ("10", 10); ("K", 10)].

Record Card : Type := mkCard { suit : string; rank : string; deck_id : Z }.

Definition is_joker (c : Card) : bool :=
  (suit c =? SMALL_JOKER)%string || (suit c =? BIG_JOKER)%string.
Definition is_big_joker (c : Card) : bool := (suit c =? BIG_JOKER)%string.
Definition is_small_joker (c : Card) : bool := (suit c =? SMALL_JOKER)%string.

(** [POINT_VALUES.get(self.rank, 0)] *)
Definition point_value (c : Card) : Z :=
  match Py.getitem String.eqb POINT_VALUES (rank c) with
  | Some v => v
  | None => 0
  end.

(** [Card.__eq__]: the three fields agree. *)
Definition card_eqb (a b : Card) : bool :=
  (suit a =? suit b)%string && (rank a =? rank b)%string
  && (deck_id a =? deck_id b).

(** The double deck before [random.shuffle]. *)
Definition one_deck (k : Z) : list Card :=
  flat_map (fun s => map (fun r => mkCard s r k) RANKS) SUITS
  ++ [mkCard SMALL_JOKER SMALL_JOKER k; mkCard BIG_JOKER BIG_JOKER k].
Definition double_deck : list Card := one_deck 0 ++ one_deck 1.

(** A card as the constructor calls of [make_deck] build it: an ordinary
    suit with an ordinary rank, or a joker. *)
Definition playing_card (c : Card) : bool :=
  (Py.contains String.eqb (suit c) SUITS
   && Py.contains String.eqb (rank c) RANKS)
  || ((suit c =? SMALL_JOKER)%string && (rank c =? SMALL_JOKER)%string)
  || ((suit c =? BIG_JOKER)%string && (rank c =? BIG_JOKER)%string).

(* ================================================================= *)
(** ** 2. Trump system *)

Record TrumpSystem : Type :=
  mkTrump { trump_suit : string; trump_rank : string }.

Definition TRUMP : string := "TRUMP".

Definition is_trump (t : TrumpSystem) (card : Card) : bool :=
  if is_joker card then true
  else if (rank card =? trump_rank t)%string then true
  else if (suit card =? trump_suit t)%string then true
  else false.

Definition effective_suit (t : TrumpSystem) (card : Card) : string :=
  if is_trump t card then TRUMP else suit card.

Definition trump_order (t : TrumpSystem) (card : Card) : option Z :=
  if is_big_joker card then Some 1000
  else if is_small_joker card then Some 999
  else if (suit card =? trump_suit t)%string
          && (rank card =? trump_rank t)%string then Some 998
  else if (rank card =? trump_rank t)%string then
    let non_trump :=
      filter (fun s => negb (s =? trump_suit t)%string) SUITS in
    i <- Py.index String.eqb (suit card) non_trump ;; Some (500 + i)
  else if (suit card =? trump_suit t)%string then RANK_VAL (rank card)
  else None.

Definition card_order (t : TrumpSystem) (card : Card) : option Z :=
  if is_trump t card then
    o <- trump_order t card ;; Some (2000 + o)
  else
    i <- Py.index String.eqb (suit card) SUITS ;;
    v <- RANK_VAL (rank card) ;;
    Some (i * 100 + v).

Definition beats (t : TrumpSystem) (challenger incumbent : Card)
           (led_suit : string) : option bool :=
  let c_trump := is_trump t challenger in
  let i_trump := is_trump t incumbent in
  let c_suit := effective_suit t challenger in
  let i_suit := effective_suit t incumbent in
  if (c_suit =? i_suit)%string then
    if c_trump && i_trump then
      a <- trump_order t challenger ;;
      b <- trump_order t incumbent ;;
      Some (a >? b)
    else
      a <- RANK_VAL (rank challenger) ;;
      b <- RANK_VAL (rank incumbent) ;;
      Some (a >? b)
  else if c_trump && negb i_trump then Some true
  else if (c_suit =? led_suit)%string
          && negb ((i_suit =? led_suit)%string || (i_suit =? TRUMP)%string)
       then Some true
  else Some false.

(** The order value used to group cards: [order_of] of [_decompose],
    [required_follow_structure], [is_valid_follow], [build_valid_follow]
    and the body of [_group_by_order]. *)
Definition order_of (t : TrumpSystem) (c : Card) : option Z :=
  if is_trump t c then trump_order t c else RANK_VAL (rank c).

(** [sorted(hand, key=card_order, reverse=True)]; a key that raises aborts
    the sort. *)
Definition keyed {A K} (key : A -> option K) (l : list A)
  : option (list (K * A)) :=
  Py.mapM (fun x => k <- key x ;; Some (k, x)) l.

Definition sort_hand (t : TrumpSystem) (hand : list Card)
  : option (list Card) :=
  ks <- keyed (card_order t) hand ;;
  Some (map snd (Py.sorted_by_rev fst ks)).

(* ================================================================= *)
(** ** 3. Card combinations *)

Inductive ComboType : Type := SINGLE | PAIR | TRACTOR | MULTI.

Definition ComboType_eqb (a b : ComboType) : bool :=
  match a, b with
  | SINGLE, SINGLE | PAIR, PAIR | TRACTOR, TRACTOR | MULTI, MULTI => true
  | _, _ => false
  end.

(** Object identity [id(c)].  The engine only ever holds sub-lists of the
    double deck, whose cards are pairwise different, so two list entries are
    the same object exactly when they are equal cards: the set [used] of ids
    is kept as a list of cards. *)
Definition id_in (c : Card) (used : list Card) : bool :=
  Py.contains card_eqb c used.

(** [_group_by_order]: dict order -> cards, in first-seen order. *)
Definition group_by_key {K} (eqb : K -> K -> bool) (ks : list (K * Card))
  : list (K * list Card) :=
  fold_left (fun g kc => Py.setdefault_append eqb g (fst kc) (snd kc)) ks [].

Definition _group_by_order (t : TrumpSystem) (cards : list Card)
  : option (list (Z * list Card)) :=
  ks <- keyed (order_of t) cards ;;
  Some (group_by_key Z.eqb ks).

(** [for i in range(len(orders)-1): if orders[i+1] - orders[i] != 1: ...] *)
Fixpoint all_consecutive (orders : list Z) : bool :=
  match orders with
  | a :: (b :: _) as rest => (b - a =? 1) && all_consecutive rest
  | _ => true
  end.

Definition _try_tractor (t : TrumpSystem) (cards : list Card) : option bool :=
  if (Py.len cards <? 4) || negb (Py.len cards mod 2 =? 0) then Some false
  else
    groups <- _group_by_order t cards ;;
    if existsb (fun g => negb (Py.len (snd g) =? 2)) groups then Some false
    else
      let orders := Py.sorted_by (fun o => o) (map fst groups) in
      Some (all_consecutive orders).

(** The run scan shared by [_decompose], [required_follow_structure],
    [is_valid_follow] and [build_valid_follow]:

      i = 0
      while i < len(l):
          j = i + 1
          while j < len(l) and key(l[j]) - key(l[j-1]) == 1: j += 1
          ... the run l[i:j] ...
          i = j

    cuts [l] into its maximal runs of consecutive keys, left to right. *)
Fixpoint runs {X} (key : X -> Z) (l : list X) : list (list X) :=
  match l with
  | [] => []
  | x :: l' =>
      match runs key l' with
      | (y :: run) :: rest =>
          if key y - key x =? 1 then (x :: y :: run) :: rest
          else [x] :: (y :: run) :: rest
      | rest => [x] :: rest
      end
  end.

Definition suit_order_eqb (a b : string * Z) : bool :=
  (fst a =? fst b)%string && (snd a =? snd b).

(** Key [(effective_suit(c), order_of(c))] of [_decompose]. *)
Definition suit_order_key (t : TrumpSystem) (c : Card)
  : option (string * Z) :=
  o <- order_of t c ;; Some (effective_suit t c, o).

(** The body of [_decompose] once the groups are built. *)
Section Decompose.

Variable groups : list ((string * Z) * list Card).

(** [pairs_by_suit]: suit -> [(order, cs[:2])] for the groups of two or
    more cards. *)
Definition pairs_by_suit : list (string * list (Z * list Card)) :=
  fold_left
    (fun d g =>
       let '((suit, order), cs) := g in
       if Py.len cs >=? 2
       then Py.setdefault_append String.eqb d suit (order, Py.take 2 cs)
       else d)
    groups [].

(** The tractors of one suit: every run of two or more pairs. *)
Definition tractors_of (pair_list : list (Z * list Card))
  : list (list Card) :=
  map (fun run => flat_map snd run)
      (filter (fun run => Py.len run >=? 2)
              (runs fst (Py.sorted_by fst pair_list))).

Definition tractor_components : list (list Card) :=
  flat_map (fun sp => tractors_of (snd sp)) pairs_by_suit.

(** "Remaining pairs": one pass over the groups, threading
    [(components, used)]. *)
Definition pair_step (st : list (list Card) * list Card)
           (g : (string * Z) * list Card)
  : list (list Card) * list Card :=
  let '(components, used) := st in
  let cs := snd g in
  if Py.len cs >=? 2 then
    let pair := filter (fun c => negb (id_in c used)) (Py.take 2 cs) in
    if Py.len pair =? 2 then (components ++ [pair], used ++ pair)
    else st
  else st.

(** "Singles": every card not used so far. *)
Definition single_step (st : list (list Card) * list Card) (c : Card)
  : list (list Card) * list Card :=
  let '(components, used) := st in
  if negb (id_in c used) then (components ++ [[c]], used ++ [c])
  else st.

Definition decompose_groups : list (list Card) :=
  let tractors := tractor_components in
  let st1 := (tractors, concat tractors) in
  let st2 := fold_left pair_step groups st1 in
  let st3 := fold_left single_step (flat_map snd groups) st2 in
  fst st3.

End Decompose.

Definition _decompose (t : TrumpSystem) (cards : list Card)
  : option (list (list Card)) :=
  ks <- keyed (suit_order_key t) cards ;;
  let components := decompose_groups (group_by_key suit_order_eqb ks) in
  Some (match components with [] => [cards] | _ => components end).

(** The pair test of [_detect] for a two-card list:
    [cards[0].rank == cards[1].rank or (is_trump(cards[0]) and
    is_trump(cards[1]) and trump_order(cards[0]) == trump_order(cards[1]))]. *)
Definition same_rank_or_order (t : TrumpSystem) (c0 c1 : Card) : option bool :=
  if (rank c0 =? rank c1)%string then Some true
  else if is_trump t c0 && is_trump t c1 then
    a <- trump_order t c0 ;; b <- trump_order t c1 ;; Some (a =? b)
  else Some false.

Definition _detect (t : TrumpSystem) (cards : list Card)
  : option (ComboType * list (list Card)) :=
  let n := Py.len cards in
  if n =? 1 then Some (SINGLE, [cards])
  else
    let suits := Py.set_of String.eqb (map (effective_suit t) cards) in
    let fallthrough :=
      components <- _decompose t cards ;;
      match components with
      | [c] => if Py.len c =? n
               then if n =? 2 then Some (PAIR, components)
                    else Some (TRACTOR, components)
               else Some (MULTI, components)
      | _ => Some (MULTI, components)
      end in
    if Py.len suits =? 1 then
      is_pair <- match cards with
                 | [c0; c1] => same_rank_or_order t c0 c1
                 | _ => Some false
                 end ;;
      if is_pair then Some (PAIR, [cards])
      else
        tractor <- _try_tractor t cards ;;
        if tractor then Some (TRACTOR, [cards]) else fallthrough
    else fallthrough.

Record CardCombo : Type := mkCombo {
  combo_cards : list Card;
  combo_trump : TrumpSystem;
  combo_type : ComboType;
  components : list (list Card)
}.

(** [CardCombo(cards, trump)] *)
Definition new_CardCombo (cards : list Card) (t : TrumpSystem)
  : option CardCombo :=
  '(ty, comps) <- _detect t cards ;;
  Some (mkCombo cards t ty comps).

(** [max(l, key=key)]: the first element with the largest key. *)
Fixpoint max_by {A} (best : Z * A) (l : list (Z * A)) : A :=
  match l with
  | [] => snd best
  | x :: l' => max_by (if fst x >? fst best then x else best) l'
  end.

Definition top_card (cb : CardCombo) : option Card :=
  ks <- keyed (card_order (combo_trump cb)) (combo_cards cb) ;;
  match ks with
  | [] => None
  | k :: ks' => Some (max_by k ks')
  end.

(** [CardCombo.effective_suit]: the suit of [cards[0]]. *)
Definition combo_effective_suit (cb : CardCombo) : option string :=
  match combo_cards cb with
  | [] => None
  | c :: _ => Some (effective_suit (combo_trump cb) c)
  end.

Definition is_valid_lead (cards : list Card) (t : TrumpSystem)
  : bool * string :=
  match cards with
  | [] => (false, "No cards selected.")
  | _ =>
      let suits := Py.set_of String.eqb (map (effective_suit t) cards) in
      if Py.len suits >? 1 then
        (false, "A lead must be all one suit. " +++
                "You selected cards from: " +++
                String.concat ", " (Py.sorted_strings suits) +++ ".")
      else (true, "")
  end.

(** *** Follow validation *)

(** The dict returned by [required_follow_structure].  The three raw entries
    are absent from the dict of a follower who is void in the led suit:
    reading them there is a KeyError. *)
Record FollowReq : Type := mkReq {
  req_tractors : Z;
  req_pair_cards : Z;
  req_singles : Z;
  req_total : Z;
  req_avail_tractor_pairs : option Z;
  req_avail_free_pairs : option Z;
  req_hand_in_suit : option (list Card)
}.

(** Orders held at least twice, ascending:
    [sorted([o for o, cs in groups.items() if len(cs) >= 2])]. *)
Definition pair_orders_of (groups : list (Z * list Card)) : list Z :=
  Py.sorted_by (fun o => o)
    (map fst (filter (fun g => Py.len (snd g) >=? 2) groups)).

(** The runs of two or more consecutive pair orders. *)
Definition tractor_runs (pair_orders : list Z) : list (list Z) :=
  filter (fun run => Py.len run >=? 2) (runs (fun o => o) pair_orders).

(** [tractor_pair_count] and [used_in_tractor] after the run scan. *)
Definition tractor_pair_count (pair_orders : list Z) : Z :=
  Py.sum (map (fun run => Py.len run) (tractor_runs pair_orders)).
Definition used_in_tractor (pair_orders : list Z) : list Z :=
  concat (tractor_runs pair_orders).

(** [sum(1 for o in pair_orders if o not in used_in_tractor)] *)
Definition free_pair_count (pair_orders : list Z) : Z :=
  Py.len (filter (fun o => negb (Py.contains Z.eqb o
                                   (used_in_tractor pair_orders)))
                 pair_orders).

(** The demand loop over the lead's components:
    [(demand_tractor_pairs, demand_pairs, demand_singles)]. *)
Definition demand_step (d : Z * Z * Z) (comp : list Card) : Z * Z * Z :=
  let '(demand_tractor_pairs, demand_pairs, demand_singles) := d in
  let size := Py.len comp in
  if size >=? 4 then
    (demand_tractor_pairs + size / 2, demand_pairs, demand_singles)
  else if size =? 2 then
    (demand_tractor_pairs, demand_pairs + 1, demand_singles)
  else (demand_tractor_pairs, demand_pairs, demand_singles + 1).

Definition in_led_suit (t : TrumpSystem) (led_suit : string) (c : Card)
  : bool := (effective_suit t c =? led_suit)%string.

Definition required_follow_structure (led : CardCombo) (hand : list Card)
           (t : TrumpSystem) : option FollowReq :=
  led_suit <- combo_effective_suit led ;;
  let n_lead := Py.len (combo_cards led) in
  let hand_in_suit := filter (in_led_suit t led_suit) hand in
  let n_in_suit := Py.len hand_in_suit in
  if n_in_suit =? 0 then Some (mkReq 0 0 0 0 None None None)
  else
    suit_groups <- _group_by_order t hand_in_suit ;;
    let pair_orders := pair_orders_of suit_groups in
    let tractor_pair_count := tractor_pair_count pair_orders in
    let free_pair_count := free_pair_count pair_orders in
    let lead_components :=
      Py.sorted_by (fun c : list Card => - Py.len c) (components led) in
    let '(demand_tractor_pairs, demand_pairs, demand_singles) :=
      fold_left demand_step lead_components (0, 0, 0) in
    let supplied_tractor_pairs :=
      Z.min tractor_pair_count demand_tractor_pairs in
    let remaining_tractor_demand :=
      demand_tractor_pairs - supplied_tractor_pairs in
    let demand_pairs := demand_pairs + remaining_tractor_demand in
    let remaining_free_pairs := free_pair_count in
    let supplied_pairs := Z.min remaining_free_pairs demand_pairs in
    let remaining_pair_demand := demand_pairs - supplied_pairs in
    let demand_singles := demand_singles + remaining_pair_demand * 2 in
    let committed := supplied_tractor_pairs * 2 + supplied_pairs * 2 in
    let remaining_suit_cards := n_in_suit - committed in
    let supplied_singles := Z.min remaining_suit_cards demand_singles in
    let total :=
      Z.min (Z.min (committed + supplied_singles) n_in_suit) n_lead in
    Some (mkReq (supplied_tractor_pairs * 2) (supplied_pairs * 2)
                supplied_singles total
                (Some tractor_pair_count) (Some free_pair_count)
                (Some hand_in_suit)).

Definition is_valid_follow (cards : list Card) (led : CardCombo)
           (hand : list Card) (t : TrumpSystem) : option (bool * string) :=
  let n_needed := Py.len (combo_cards led) in
  if negb (Py.len cards =? n_needed) then
    Some (false, "Must play exactly " +++ Py.str n_needed +++ " card(s).")
  else
    led_suit <- combo_effective_suit led ;;
    let hand_in_suit := filter (in_led_suit t led_suit) hand in
    let play_in_suit := filter (in_led_suit t led_suit) cards in
    req <- required_follow_structure led hand t ;;
    if Py.len play_in_suit <? req_total req then
      Some (false,
            "You must play " +++ Py.str (req_total req) +++
            " card(s) of the led suit (" +++ led_suit +++
            ") — you played " +++ Py.str (Py.len play_in_suit) +++ ".")
    else if (Py.len play_in_suit >=? req_total req) && (req_total req >? 0)
    then
      play_suit_groups <- _group_by_order t play_in_suit ;;
      let played_pair_orders := pair_orders_of play_suit_groups in
      let played_tractor_pairs := tractor_pair_count played_pair_orders in
      let played_free_pairs := free_pair_count played_pair_orders in
      let played_singles_in_suit :=
        Py.len (filter (fun g => Py.len (snd g) =? 1) play_suit_groups) in
      avail_tp <- req_avail_tractor_pairs req ;;
      avail_fp <- req_avail_free_pairs req ;;
      let required_tp := req_tractors req / 2 in
      if played_tractor_pairs <? required_tp then
        Some (false,
              "You must play " +++ Py.str required_tp +++
              " tractor pair(s) from " +++ led_suit +++
              " — you have them but didn't play them.")
      else
        let required_fp := req_pair_cards req / 2 in
        if played_free_pairs <? required_fp then
          Some (false,
                "You must play " +++ Py.str required_fp +++
                " pair(s) from " +++ led_suit +++
                " — you have them but played a non-pair instead.")
        else Some (true, "")
    else Some (true, "").

(** [take_cards] of [build_valid_follow]: move cards from [remaining] to
    [chosen], one [remaining.remove(c)] at a time. *)
Fixpoint take_cards (card_list : list Card) (st : list Card * list Card)
  : option (list Card * list Card) :=
  match card_list with
  | [] => Some st
  | c :: rest =>
      let '(chosen, remaining) := st in
      remaining' <- Py.remove card_eqb c remaining ;;
      take_cards rest (chosen ++ [c], remaining')
  end.

(** [g[o][:2]] for each order of a list, in that order. *)
Definition pairs_at (g : list (Z * list Card)) (orders : list Z)
  : option (list Card) :=
  ps <- Py.mapM (fun o => cs <- Py.getitem Z.eqb g o ;; Some (Py.take 2 cs))
                orders ;;
  Some (concat ps).

(** Step 1 of [build_valid_follow]: one iteration of the run scan, on the
    run [run], with loop state [(taken, (chosen, remaining))]. *)
Definition tractor_take_step (g : list (Z * list Card))
           (need_tractor_pairs : Z)
           (acc : option (Z * (list Card * list Card))) (run : list Z)
  : option (Z * (list Card * list Card)) :=
  '(taken, st) <- acc ;;
  if taken <? need_tractor_pairs then
    if Py.len run >=? 2 then
      let pairs_to_take := Z.min (Py.len run) (need_tractor_pairs - taken) in
      cs <- pairs_at g (Py.take pairs_to_take run) ;;
      st' <- take_cards cs st ;;
      Some (taken + pairs_to_take, st')
    else Some (taken, st)
  else Some (taken, st).

Definition build_valid_follow (led : CardCombo) (hand : list Card)
           (t : TrumpSystem) : option (list Card) :=
  let n_needed := Py.len (combo_cards led) in
  led_suit <- combo_effective_suit led ;;
  let hand_in_suit := filter (in_led_suit t led_suit) hand in
  req <- required_follow_structure led hand t ;;
  let st0 : list Card * list Card := ([], hand_in_suit) in
  (* Step 1: tractors *)
  let need_tractor_pairs := req_tractors req / 2 in
  st1 <- (if need_tractor_pairs >? 0 then
            g <- _group_by_order t (snd st0) ;;
            let pair_orders := pair_orders_of g in
            '(_, st) <- fold_left (tractor_take_step g need_tractor_pairs)
                                  (runs (fun o => o) pair_orders)
                                  (Some (0, st0)) ;;
            Some st
          else Some st0) ;;
  (* Step 2: free pairs *)
  let need_free_pairs := req_pair_cards req / 2 in
  st2 <- (if need_free_pairs >? 0 then
            g <- _group_by_order t (snd st1) ;;
            let pair_orders :=
              Py.sorted_by_rev (fun o => o)
                (map fst (filter (fun g => Py.len (snd g) >=? 2) g)) in
            cs <- pairs_at g (Py.take need_free_pairs pair_orders) ;;
            take_cards cs st1
          else Some st1) ;;
  (* Step 3: singles from led suit *)
  let need_singles := req_singles req in
  st3 <- (if need_singles >? 0 then
            ks <- keyed (order_of t) (snd st2) ;;
            let singles := map snd (Py.sorted_by fst ks) in
            take_cards (Py.take need_singles singles) st2
          else Some st2) ;;
  (* Step 4: fill rest with off-suit cards *)
  let chosen := fst st3 in
  let still_need := n_needed - Py.len chosen in
  chosen' <- (if still_need >? 0 then
                let off_suit :=
                  filter (fun c => negb (Py.contains card_eqb c chosen)
                                   && negb (Py.contains card_eqb c
                                              hand_in_suit))
                         hand in
                ks <- keyed (card_order t) off_suit ;;
                let off_suit_sorted := map snd (Py.sorted_by fst ks) in
                Some (chosen ++ Py.take still_need off_suit_sorted)
              else Some chosen) ;;
  Some (Py.take n_needed chosen').

(* ================================================================= *)
(** ** 4. Trick *)

Record Trick : Type := mkTrick {
  trick_trump : TrumpSystem;
  leader : Z;
  plays : list (Z * list Card);
  led_combo : option CardCombo
}.

Definition new_Trick (t : TrumpSystem) (leader : Z) : Trick :=
  mkTrick t leader [] None.

(** [Trick.play] *)
Definition trick_play (tr : Trick) (player_idx : Z) (cards : list Card)
  : option Trick :=
  combo <- new_CardCombo cards (trick_trump tr) ;;
  let led := match plays tr with
             | [] => Some combo
             | _ => led_combo tr
             end in
  Some (mkTrick (trick_trump tr) (leader tr)
                (plays tr ++ [(player_idx, cards)]) led).

Definition is_complete (tr : Trick) : bool := Py.len (plays tr) =? 4.

(** One slot of [_match_components]: the [size] highest cards of
    [remaining], removed from it one by one. *)
Fixpoint remove_all (chunk remaining : list Card) : option (list Card) :=
  match chunk with
  | [] => Some remaining
  | c :: chunk' =>
      remaining' <- Py.remove card_eqb c remaining ;;
      remove_all chunk' remaining'
  end.

Fixpoint match_slots (t : TrumpSystem) (sizes : list Z)
         (remaining : list Card) : option (list (list Card)) :=
  match sizes with
  | [] => Some []
  | size :: sizes' =>
      ks <- keyed (card_order t) remaining ;;
      let chunk := Py.take size (map snd (Py.sorted_by_rev fst ks)) in
      remaining' <- remove_all chunk remaining ;;
      result <- match_slots t sizes' remaining' ;;
      Some (chunk :: result)
  end.

Definition _match_components (t : TrumpSystem) (cards : list Card)
           (template : list (list Card)) : option (list (list Card)) :=
  let sizes := map (fun c : list Card => Py.len c) template in
  match_slots t sizes cards.

Definition first_suit (t : TrumpSystem) (cards : list Card)
  : option string :=
  match cards with
  | [] => None
  | c :: _ => Some (effective_suit t c)
  end.

Definition _component_beats (t : TrumpSystem)
           (challenger incumbent led : list Card) (led_suit : string)
  : option bool :=
  let n := Py.len led in
  inc_combo <- new_CardCombo incumbent t ;;
  chal_combo <- new_CardCombo challenger t ;;
  let inc_suit := first_suit t incumbent in
  let chal_suit := first_suit t challenger in
  let chal_on_suit :=
    match chal_suit with
    | None => false
    | Some s => (s =? led_suit)%string || (s =? TRUMP)%string
    end in
  if negb chal_on_suit then Some false
  else if n =? 1 then
    c0 <- hd_error challenger ;;
    i0 <- hd_error incumbent ;;
    beats t c0 i0 led_suit
  else if n =? 2 then
    if negb (ComboType_eqb (combo_type chal_combo) PAIR) then Some false
    else if negb (ComboType_eqb (combo_type inc_combo) PAIR) then Some true
    else
      ct <- top_card chal_combo ;;
      it <- top_card inc_combo ;;
      beats t ct it led_suit
  else
    if negb (ComboType_eqb (combo_type chal_combo) TRACTOR) then Some false
    else if negb (ComboType_eqb (combo_type inc_combo) TRACTOR) then Some true
    else
      ct <- top_card chal_combo ;;
      it <- top_card inc_combo ;;
      beats t ct it led_suit.

(** [for c_comp, i_comp, led_comp in zip(c_comps, i_comps, led_components)]:
    stop with False at the first slot that is not won. *)
Fixpoint all_slots_beat (t : TrumpSystem) (led_suit : string)
         (c_comps i_comps led_components : list (list Card)) : option bool :=
  match c_comps, i_comps, led_components with
  | c_comp :: cs, i_comp :: is_, led_comp :: ls =>
      b <- _component_beats t c_comp i_comp led_comp led_suit ;;
      if negb b then Some false
      else all_slots_beat t led_suit cs is_ ls
  | _, _, _ => Some true
  end.

Definition _play_beats (t : TrumpSystem)
           (challenger_cards incumbent_cards : list Card)
           (led_components : list (list Card)) (led_suit : string)
  : option bool :=
  let c_suits := map (effective_suit t) challenger_cards in
  if negb (Py.contains String.eqb led_suit c_suits)
     && negb (Py.contains String.eqb TRUMP c_suits)
  then Some false
  else
    c_comps <- _match_components t challenger_cards led_components ;;
    i_comps <- _match_components t incumbent_cards led_components ;;
    all_slots_beat t led_suit c_comps i_comps led_components.

(** The loop of [winner] over [plays[1:]], with state
    [(best_player, best_cards)]. *)
Fixpoint winner_loop (t : TrumpSystem) (led_comps : list (list Card))
         (led_suit : string) (best : Z * list Card)
         (rest : list (Z * list Card)) : option Z :=
  match rest with
  | [] => Some (fst best)
  | (player_idx, cards) :: rest' =>
      b <- _play_beats t cards (snd best) led_comps led_suit ;;
      winner_loop t led_comps led_suit
                  (if b then (player_idx, cards) else best) rest'
  end.

Definition winner (tr : Trick) : option Z :=
  if negb (is_complete tr) then None
  else
    led <- led_combo tr ;;
    led_suit <- combo_effective_suit led ;;
    let led_comps := components led in
    match plays tr with
    | [] => None
    | first :: rest =>
        winner_loop (trick_trump tr) led_comps led_suit first rest
    end.

Definition points (tr : Trick) : Z :=
  Py.sum (map point_value (flat_map snd (plays tr))).

(* ================================================================= *)
(** ** 5. Game state *)

Inductive GamePhase : Type := DEALING | KITTY | PLAYING | SCORING.

Definition GamePhase_eqb (a b : GamePhase) : bool :=
  match a, b with
  | DEALING, DEALING | KITTY, KITTY | PLAYING, PLAYING | SCORING, SCORING =>
      true
  | _, _ => false
  end.

Definition _bid_strength (cards : list Card) (trump_rank : string) : Z :=
  match cards with
  | [] => 0
  | [c] =>
      if is_big_joker c then 5
      else if is_small_joker c then 3
      else if (rank c =? trump_rank)%string then 1
      else 0
  | [c0; c1] =>
      if is_big_joker c0 && is_big_joker c1 then 6
      else if is_small_joker c0 && is_small_joker c1 then 4
      else if (rank c0 =? trump_rank)%string
              && (rank c1 =? trump_rank)%string
              && (suit c0 =? suit c1)%string then 2
      else 0
  | _ => 0
  end.

Definition KITTY_SIZE : Z := 8.

Record GameState : Type := mkGame {
  num_players : Z;
  gs_trump_rank : string;
  declaration : option (Z * list Card);
  declaration_strength : Z;
  declaring_player : Z;
  declaring_team : Z;
  gs_trump_suit : string;
  gs_trump : TrumpSystem;
  team_levels : list string;
  hands : list (list Card);
  kitty : list Card;
  phase : GamePhase;
  current_player : Z;
  tricks : list Trick;
  current_trick : option Trick;
  scores : list Z;
  trick_winner_log : list (Z * Z);
  _deck : list Card;
  _deal_idx : Z;
  _cards_per_player : Z;
  _kitty_start : Z
}.

(** [GameState(num_players, trump_rank, declaring_team)]; [deck] is the
    outcome of [make_double_deck()] and the second [random.shuffle].
    A zero [num_players] is a ZeroDivisionError. *)
Definition new_GameState (deck : list Card) (num_players : Z)
           (trump_rank : string) (declaring_team : Z) : option GameState :=
  if num_players =? 0 then None
  else
    let cards_per_player := (Py.len deck - KITTY_SIZE) / num_players in
    Some {|
      num_players := num_players;
      gs_trump_rank := trump_rank;
      declaration := None;
      declaration_strength := 0;
      declaring_player := declaring_team * 2;
      declaring_team := declaring_team;
      gs_trump_suit := "♠";
      gs_trump := mkTrump "♠" trump_rank;
      team_levels := ["2"; "2"];
      hands := repeat [] (Z.to_nat num_players);
      kitty := [];
      phase := DEALING;
      current_player := 0;
      tricks := [];
      current_trick := None;
      scores := [0; 0];
      trick_winner_log := [];
      _deck := deck;
      _deal_idx := 0;
      _cards_per_player := cards_per_player;
      _kitty_start := cards_per_player * num_players
    |}.

(** [for i in range(num_players): hands[i] = trump.sort_hand(hands[i])] *)
Fixpoint resort_hands (t : TrumpSystem) (idxs : list Z)
         (hs : list (list Card)) : option (list (list Card)) :=
  match idxs with
  | [] => Some hs
  | i :: idxs' =>
      h <- Py.getidx hs i ;;
      h' <- sort_hand t h ;;
      hs' <- Py.setidx hs i h' ;;
      resort_hands t idxs' hs'
  end.

(** [range(n)] *)
Definition range (n : Z) : list Z := map Z.of_nat (seq 0 (Z.to_nat n)).

Definition _finalize_declaration (st : GameState) : option GameState :=
  let '(player, team, tsuit) :=
    match declaration st with
    | None => (0, 0, "♠")
    | Some (player, cards) =>
        let non_joker := filter (fun c => negb (is_joker c)) cards in
        (player, player mod 2,
         match non_joker with
         | c :: _ => suit c
         | [] => gs_trump_suit st
         end)
    end in
  let t := mkTrump tsuit (gs_trump_rank st) in
  hs <- resort_hands t (range (num_players st)) (hands st) ;;
  Some (mkGame (num_players st) (gs_trump_rank st) (declaration st)
         (declaration_strength st) player team tsuit t (team_levels st)
         hs (kitty st) (phase st) (current_player st) (tricks st)
         (current_trick st) (scores st) (trick_winner_log st) (_deck st)
         (_deal_idx st) (_cards_per_player st) (_kitty_start st)).

(** [deal_next_card]: the returned value and the state after the call. *)
Definition deal_next_card (st : GameState)
  : option (option (Z * Card) * GameState) :=
  if _deal_idx st >=? _kitty_start st then Some (None, st)
  else
    if num_players st =? 0 then None
    else
    let player_idx := _deal_idx st mod num_players st in
    card <- Py.getidx (_deck st) (_deal_idx st) ;;
    h <- Py.getidx (hands st) player_idx ;;
    hs <- Py.setidx (hands st) player_idx (h ++ [card]) ;;
    let deal_idx := _deal_idx st + 1 in
    let st1 :=
      mkGame (num_players st) (gs_trump_rank st) (declaration st)
         (declaration_strength st) (declaring_player st) (declaring_team st)
         (gs_trump_suit st) (gs_trump st) (team_levels st) hs (kitty st)
         (phase st) (current_player st) (tricks st) (current_trick st)
         (scores st) (trick_winner_log st) (_deck st) deal_idx
         (_cards_per_player st) (_kitty_start st) in
    if deal_idx >=? _kitty_start st then
      let st2 :=
        mkGame (num_players st1) (gs_trump_rank st1) (declaration st1)
           (declaration_strength st1) (declaring_player st1)
           (declaring_team st1) (gs_trump_suit st1) (gs_trump st1)
           (team_levels st1) (hands st1)
           (Py.drop (_kitty_start st1) (_deck st1))
           (phase st1) (current_player st1) (tricks st1) (current_trick st1)
           (scores st1) (trick_winner_log st1) (_deck st1) (_deal_idx st1)
           (_cards_per_player st1) (_kitty_start st1) in
      st3 <- _finalize_declaration st2 ;;
      Some (Some (player_idx, card),
            mkGame (num_players st3) (gs_trump_rank st3) (declaration st3)
              (declaration_strength st3) (declaring_player st3)
              (declaring_team st3) (gs_trump_suit st3) (gs_trump st3)
              (team_levels st3) (hands st3) (kitty st3) KITTY
              (current_player st3) (tricks st3) (current_trick st3)
              (scores st3) (trick_winner_log st3) (_deck st3) (_deal_idx st3)
              (_cards_per_player st3) (_kitty_start st3))
    else Some (Some (player_idx, card), st1).

(** The membership loop of [declare_trump]:
    [for c in cards: if c not in self.hands[player_idx]: return ...]. *)
Fixpoint all_in_hand (hs : list (list Card)) (player_idx : Z)
         (cards : list Card) : option bool :=
  match cards with
  | [] => Some true
  | c :: cards' =>
      h <- Py.getidx hs player_idx ;;
      if negb (Py.contains card_eqb c h) then Some false
      else all_in_hand hs player_idx cards'
  end.

Definition declare_trump (st : GameState) (player_idx : Z)
           (cards : list Card) : option ((bool * string) * GameState) :=
  if negb (GamePhase_eqb (phase st) DEALING) then
    Some ((false, "Can only declare during the dealing phase."), st)
  else
    held <- all_in_hand (hands st) player_idx cards ;;
    if negb held then Some ((false, "You don't have those cards."), st)
    else
      let strength := _bid_strength cards (gs_trump_rank st) in
      if strength =? 0 then
        Some ((false, "Declaration must be trump-rank cards of one suit, " +++
                      "a joker, or a pair of the same."), st)
      else if strength <=? declaration_strength st then
        Some ((false, "Your bid (strength " +++ Py.str strength +++
                      ") doesn't beat " +++
                      "the current declaration (strength " +++
                      Py.str (declaration_strength st) +++ ")."), st)
      else
        let non_joker := filter (fun c => negb (is_joker c)) cards in
        let '(tsuit, t) :=
          match non_joker with
          | c :: _ => (suit c, mkTrump (suit c) (gs_trump_rank st))
          | [] => (gs_trump_suit st, gs_trump st)
          end in
        Some ((true, "Declaration accepted!"),
              mkGame (num_players st) (gs_trump_rank st)
                (Some (player_idx, cards)) strength
                (declaring_player st) (declaring_team st) tsuit t
                (team_levels st) (hands st) (kitty st) (phase st)
                (current_player st) (tricks st) (current_trick st)
                (scores st) (trick_winner_log st) (_deck st) (_deal_idx st)
                (_cards_per_player st) (_kitty_start st)).

Definition is_dealing_done (st : GameState) : bool :=
  _deal_idx st >=? _kitty_start st.

Definition bury_kitty (st : GameState) (cards_to_bury : list Card)
  : option GameState :=
  let player_idx := declaring_player st in
  if negb (Py.len cards_to_bury =? KITTY_SIZE) then None
  else
    h <- Py.getidx (hands st) player_idx ;;
    h' <- remove_all cards_to_bury (h ++ kitty st) ;;
    hs <- Py.setidx (hands st) player_idx h' ;;
    Some (mkGame (num_players st) (gs_trump_rank st) (declaration st)
            (declaration_strength st) (declaring_player st)
            (declaring_team st) (gs_trump_suit st) (gs_trump st)
            (team_levels st) hs cards_to_bury PLAYING player_idx
            (tricks st) (Some (new_Trick (gs_trump st) player_idx))
            (scores st) (trick_winner_log st) (_deck st) (_deal_idx st)
            (_cards_per_player st) (_kitty_start st)).

Definition _all_cards_played (st : GameState) : bool :=
  forallb (fun h : list Card => Py.len h =? 0) (hands st).

(** [self.scores[team] += pts] *)
Definition add_score (sc : list Z) (team pts : Z) : option (list Z) :=
  old <- Py.getidx sc team ;; Py.setidx sc team (old + pts).

(** [play_cards]: the returned value and the state after the call. *)
Definition play_cards (st : GameState) (player_idx : Z) (cards : list Card)
  : option (option Z * GameState) :=
  if negb (player_idx =? current_player st) then None
  else if negb (GamePhase_eqb (phase st) PLAYING) then None
  else
    h <- Py.getidx (hands st) player_idx ;;
    h' <- remove_all cards h ;;
    hs <- Py.setidx (hands st) player_idx h' ;;
    trick0 <- current_trick st ;;
    trick <- trick_play trick0 player_idx cards ;;
    let upd (ph : GamePhase) (cur : Z) (trs : list Trick) (ct : Trick)
            (sc : list Z) (log : list (Z * Z)) :=
      mkGame (num_players st) (gs_trump_rank st) (declaration st)
        (declaration_strength st) (declaring_player st) (declaring_team st)
        (gs_trump_suit st) (gs_trump st) (team_levels st) hs (kitty st)
        ph cur trs (Some ct) sc log (_deck st) (_deal_idx st)
        (_cards_per_player st) (_kitty_start st) in
    if is_complete trick then
      w <- winner trick ;;
      let pts := points trick in
      let winning_team := w mod 2 in
      sc <- add_score (scores st) winning_team pts ;;
      let trs := tricks st ++ [trick] in
      let log := trick_winner_log st ++ [(Py.len trs - 1, w)] in
      if forallb (fun h : list Card => Py.len h =? 0) hs then
        let kitty_pts := Py.sum (map point_value (kitty st)) in
        sc' <- add_score sc winning_team kitty_pts ;;
        Some (Some w, upd SCORING (current_player st) trs trick sc' log)
      else
        Some (Some w,
              upd PLAYING w trs (new_Trick (gs_trump st) w) sc log)
    else
      if num_players st =? 0 then None
      else
        Some (None,
              upd PLAYING ((player_idx + 1) mod num_players st)
                  (tricks st) trick (scores st) (trick_winner_log st)).

Definition defending_team (st : GameState) : Z := 1 - declaring_team st.

Definition attacker_points (st : GameState) : option Z :=
  Py.getidx (scores st) (defending_team st).

(** The dict returned by [compute_round_outcome]. *)
Record RoundOutcome : Type := mkOutcome {
  attacker_pts : Z;
  attackers_win : bool;
  winner_team : Z;
  leveling_team : Z;
  level_delta : Z;
  def_team : Z;
  atk_team : Z
}.

Definition compute_round_outcome (st : GameState) : option RoundOutcome :=
  pts <- attacker_points st ;;
  let def_team := declaring_team st in
  let atk_team := 1 - def_team in
  let '(attackers_win, level_delta, winner_team) :=
    if pts <? 40 then (false, 2, def_team)
    else if pts <? 80 then (false, 1, def_team)
    else if pts <? 120 then (true, 0, atk_team)
    else if pts <? 160 then (true, 1, atk_team)
    else if pts <? 200 then (true, 2, atk_team)
    else (true, 3, atk_team) in
  let leveling_team := if negb attackers_win then def_team else atk_team in
  Some (mkOutcome pts attackers_win winner_team leveling_team level_delta
                  def_team atk_team).

(* ================================================================= *)
(** * Vocabulary of the properties *)

(** ** Bands of the trump suit *)

(** The fixed rotation of the non-trump suits: [SUITS] without the trump
    suit, in the order of [SUITS]. *)
Definition rotation (t : TrumpSystem) : list string :=
  filter (fun s => negb (s =? trump_suit t)%string) SUITS.

(** The five bands of the merged trump suit, weakest first, as
    [trump_order] numbers them. *)
Inductive Band : Type :=
| TrumpSuitPlain       (* trump suit, not the trump rank: 0..12 *)
| OffSuitTrumpRank     (* trump rank of another suit: 500.. *)
| TrumpSuitTrumpRank   (* trump rank of the trump suit: 998 *)
| SmallJokerBand       (* 999 *)
| BigJokerBand.        (* 1000 *)

(** Place of a band in the sequence. *)
Definition band_position (b : Band) : Z :=
  match b with
  | TrumpSuitPlain => 0
  | OffSuitTrumpRank => 1
  | TrumpSuitTrumpRank => 2
  | SmallJokerBand => 3
  | BigJokerBand => 4
  end.

(** The band of a trump card. *)
Definition band_of (t : TrumpSystem) (c : Card) : Band :=
  if is_big_joker c then BigJokerBand
  else if is_small_joker c then SmallJokerBand
  else if (suit c =? trump_suit t)%string then
    if (rank c =? trump_rank t)%string then TrumpSuitTrumpRank
    else TrumpSuitPlain
  else OffSuitTrumpRank.

(** Rank value of an ordinary rank. *)
Definition rank_value (r : string) : Z :=
  match RANK_VAL r with Some v => v | None => 0 end.

(** Position of a suit in the rotation of the non-trump suits. *)
Definition rotation_pos (t : TrumpSystem) (s : string) : Z :=
  match Py.index String.eqb s (rotation t) with Some i => i | None => 0 end.

(** Place of a trump card inside its band. *)
Definition within_band (t : TrumpSystem) (c : Card) : Z :=
  match band_of t c with
  | TrumpSuitPlain => rank_value (rank c)
  | OffSuitTrumpRank => rotation_pos t (suit c)
  | _ => 0
  end.

(** Weaker-than, band first, then place inside the band. *)
Definition band_lt (t : TrumpSystem) (a b : Card) : Prop :=
  band_position (band_of t a) < band_position (band_of t b)
  \/ (band_of t a = band_of t b /\ within_band t a < within_band t b).



(** ** The bid ladder *)

(** The bid ladder in the words of the specification: each rung is a kind
    of card set with its strength; a set that fits no rung has strength 0. *)
Definition ladder (trump_rank : string) : list (Z * (list Card -> bool)) :=
  [ (1, fun cards : list Card => match cards with
                     | [c] => (rank c =? trump_rank)%string
                     | _ => false
                     end);
    (2, fun cards : list Card => match cards with
                     | [c0; c1] => (rank c0 =? trump_rank)%string
                                   && (rank c1 =? trump_rank)%string
                                   && (suit c0 =? suit c1)%string
                     | _ => false
                     end);
    (3, fun cards : list Card => match cards with
                     | [c] => is_small_joker c
                     | _ => false
                     end);
    (4, fun cards : list Card => match cards with
                     | [c0; c1] => is_small_joker c0 && is_small_joker c1
                     | _ => false
                     end);
    (5, fun cards : list Card => match cards with
                     | [c] => is_big_joker c
                     | _ => false
                     end);
    (6, fun cards : list Card => match cards with
                     | [c0; c1] => is_big_joker c0 && is_big_joker c1
                     | _ => false
                     end) ].

(** The strength of a card set: the highest rung it fits. *)
Definition ladder_strength (cards : list Card) (trump_rank : string) : Z :=
  fold_left (fun (best : Z) (rung : Z * (list Card -> bool)) =>
               if snd rung cards then Z.max best (fst rung) else best)
            (ladder trump_rank) 0.

(** ** Counting the cards of a round *)

Definition total_len (hs : list (list Card)) : Z :=
  Py.sum (map (fun h : list Card => Py.len h) hs).

(** [sum(len(hand) for hand in hands)] *)
Definition hand_total (st : GameState) : Z := total_len (hands st).

(** Cards played into one trick. *)
Definition trick_cards (tr : Trick) : Z :=
  Py.sum (map (fun p : Z * list Card => Py.len (snd p)) (plays tr)).

(** Cards played into tricks, archived and current.  After the last trick
    [current_trick] still refers to the trick just archived, so in SCORING it
    is not counted a second time. *)
Definition cards_already_played (st : GameState) : Z :=
  Py.sum (map trick_cards (tricks st))
  + match phase st, current_trick st with
    | PLAYING, Some tr => trick_cards tr
    | _, _ => 0
    end.

(** Cards still waiting in the deal queue [_deck[_deal_idx:]]: while
    dealing, neither a hand nor the kitty holds them yet. *)
Definition undealt (st : GameState) : Z :=
  match phase st with
  | DEALING => Py.len (_deck st) - _deal_idx st
  | _ => 0
  end.

(** One call of a round, as the driver makes them: any completed
    [deal_next_card], [declare_trump] or [play_cards], and a completed
    [bury_kitty] made in the KITTY phase, once the dealing is over.  The
    phase condition on [bury_kitty] is the driver's, not the method's:
    [bury_kitty] itself checks only the number of buried cards.  What is
    proved over [step] and [reachable] is proved of such rounds. *)
Inductive step : GameState -> GameState -> Prop :=
| step_deal st r st' :
    deal_next_card st = Some (r, st') -> step st st'
| step_declare st player_idx cards r st' :
    declare_trump st player_idx cards = Some (r, st') -> step st st'
| step_bury st cards_to_bury st' :
    phase st = KITTY ->
    bury_kitty st cards_to_bury = Some st' -> step st st'
| step_play st player_idx cards r st' :
    play_cards st player_idx cards = Some (r, st') -> step st st'.

(** The states of a round that started in [st0]. *)
Inductive reachable (st0 : GameState) : GameState -> Prop :=
| reach_start : reachable st0 st0
| reach_step st st' : reachable st0 st -> step st st' -> reachable st0 st'.

(** What each phase guarantees about the deal queue and the trick. *)
Definition phase_shape (st : GameState) : Prop :=
  match phase st with
  | DEALING => kitty st = [] /\ tricks st = [] /\ current_trick st = None
  | _ => _kitty_start st <= _deal_idx st
  end.

(** The conservation law of the cards. *)
Definition conserved (st : GameState) : Prop :=
  hand_total st + Py.len (kitty st) + cards_already_played st + undealt st
  = 108.

(** The invariant of the round that carries it. *)
Definition round_inv (st : GameState) : Prop :=
  conserved st /\ Py.len (_deck st) = 108 /\ 0 <= _deal_idx st
  /\ phase_shape st.

(** What the theorems on [declare_trump] and [compute_round_outcome] assume
    of a state holds in every state of a round. *)
Definition round_shape (st : GameState) : Prop :=
  0 <= declaration_strength st /\
  (exists s0 s1, scores st = [s0; s1]) /\
  (phase st <> DEALING -> declaring_team st = 0 \/ declaring_team st = 1).

(** ** Cards, multisets and groups *)

(** Lists of cards as [make_deck] builds them. *)
Definition playing_cards (l : list Card) : Prop :=
  forall c, In c l -> playing_card c = true.

(** [a] is contained in [b] as a multiset. *)
Definition submset {A} (a b : list A) : Prop :=
  exists r, Permutation (a ++ r) b.

(** The cards held in a dict suit -> [(order, cards)]. *)
Definition pair_cards (d : list (string * list (Z * list Card)))
  : list Card := flat_map snd (flat_map snd d).

(** State of the passes: the components found and the cards they use. *)
Definition pass_inv (cards : list Card)
           (st : list (list Card) * list Card) : Prop :=
  concat (fst st) = snd st /\ NoDup (snd st) /\ incl (snd st) cards.

(** The cards of a keyed list filed under key [k], in their order. *)
Definition filed {K} (eqb : K -> K -> bool) (k : K) (ks : list (K * Card))
  : list Card :=
  map snd (filter (fun kc => eqb (fst kc) k) ks).

(** The dict built by the grouping loop: one entry per key met, holding
    the cards filed under that key. *)
Definition groups_of {K} (eqb : K -> K -> bool) (ks : list (K * Card))
           (d : list (K * list Card)) : Prop :=
  NoDup (map fst d) /\
  (forall k, In k (map fst d) <-> In k (map fst ks)) /\
  (forall k cs, In (k, cs) d -> cs = filed eqb k ks).

(** [c] has order value [o]. *)
Definition has_order (t : TrumpSystem) (o : Z) (c : Card) : bool :=
  match order_of t c with
  | Some o' => o' =? o
  | None => false
  end.

(** Number of cards of order [o] in a list of cards. *)
Definition held (t : TrumpSystem) (o : Z) (l : list Card) : Z :=
  Py.len (filter (has_order t o) l).

(** ** Ties and deck copies *)

(** Equal strength, in one effective-suit group: two non-trump cards of one
    suit and one rank, or two trump cards of one trump order. *)
Definition equal_strength (t : TrumpSystem) (a b : Card) : Prop :=
  (is_trump t a = false /\ is_trump t b = false
   /\ suit a = suit b /\ rank a = rank b)
  \/ (is_trump t a = true /\ is_trump t b = true
      /\ trump_order t a = trump_order t b).

(** Renaming inside keyed lists and dicts. *)
Definition rn_keyed (f : Card -> Card) {K} (ks : list (K * Card))
  : list (K * Card) :=
  map (fun kc => (fst kc, f (snd kc))) ks.

Definition rn_dict (f : Card -> Card) {K} (d : list (K * list Card))
  : list (K * list Card) :=
  map (fun kv => (fst kv, map f (snd kv))) d.

(** Renaming the dict suit -> [(order, cards)]. *)
Definition rn_pairs (f : Card -> Card)
           (d : list (string * list (Z * list Card)))
  : list (string * list (Z * list Card)) :=
  map (fun sp => (fst sp,
                  map (fun oc : Z * list Card => (fst oc, map f (snd oc)))
                      (snd sp))) d.

(** Renaming the state of the passes of [_decompose]. *)
Definition rn_state (f : Card -> Card)
           (st : list (list Card) * list Card)
  : list (list Card) * list Card :=
  (map (map f) (fst st), map f (snd st)).

(** Renaming the result of [_detect]. *)
Definition rn_detect (f : Card -> Card)
           (r : ComboType * list (list Card))
  : ComboType * list (list Card) := (fst r, map (map f) (snd r)).

(** The first slot [_match_components] cuts: the [size] highest cards. *)
Definition top_cards (t : TrumpSystem) (size : Z) (cards : list Card)
  : option (list Card) :=
  ks <- keyed (card_order t) cards ;;
  Some (Py.take size (map snd (Py.sorted_by_rev fst ks))).

(** The other physical copy of a card of the double deck. *)
Definition other_copy (c : Card) : Card :=
  mkCard (suit c) (rank c) (1 - deck_id c).

(** Vocabulary of the sorting keys. *)

(** [a] sorts at or above [b] under [card_order]. *)
Definition sorts_above (t : TrumpSystem) (a b : Card) : Prop :=
  exists oa ob, card_order t a = Some oa /\ card_order t b = Some ob
                /\ ob <= oa.

(** Position of an ordinary suit in [SUITS]. *)
Definition suit_index (s : string) : Z :=
  match Py.index String.eqb s SUITS with Some i => i | None => 0 end.

(** ** The ledger of a round *)

Definition Card_eq_dec (a b : Card) : {a = b} + {a <> b}.
Proof.
  decide equality; [apply Z.eq_dec | apply string_dec | apply string_dec].
Defined.

(** How many times [c] occurs in [l]. *)
Definition copies (c : Card) (l : list Card) : nat :=
  count_occ Card_eq_dec l c.

(** The cards played into a trick, in the order they were played. *)
Definition played (tr : Trick) : list Card := flat_map snd (plays tr).

(** The cards lying in tricks, archived and current (in SCORING the current
    trick is the last archived one). *)
Definition cards_in_tricks (st : GameState) : list Card :=
  flat_map played (tricks st)
  ++ match phase st, current_trick st with
     | PLAYING, Some tr => played tr
     | _, _ => []
     end.

(** The deal queue [_deck[_deal_idx:]] while dealing. *)
Definition stock (st : GameState) : list Card :=
  match phase st with
  | DEALING => Py.drop (_deal_idx st) (_deck st)
  | _ => []
  end.

(** Every place where a card of the round lies. *)
Definition whereabouts (st : GameState) : list Card :=
  concat (hands st) ++ kitty st ++ cards_in_tricks st ++ stock st.

(** [sum(c.point_value() for c in l)] *)
Definition card_points (l : list Card) : Z := Py.sum (map point_value l).

(** The cards whose points no team has been given yet. *)
Definition unscored (st : GameState) : list Card :=
  concat (hands st)
  ++ match phase st with SCORING => [] | _ => kitty st end
  ++ match phase st, current_trick st with
     | PLAYING, Some tr => played tr
     | _, _ => []
     end
  ++ stock st.

Definition phase_rank (p : GamePhase) : Z :=
  match p with DEALING => 0 | KITTY => 1 | PLAYING => 2 | SCORING => 3 end.

(** The invariant that carries the ledger through a round over [deck]. *)
Definition ledger (deck : list Card) (st : GameState) : Prop :=
  _deck st = deck
  /\ (forall c, copies c (whereabouts st) = copies c deck)
  /\ 0 <= _deal_idx st
  /\ phase_shape st
  /\ (exists s0 s1,
        scores st = [s0; s1]
        /\ s0 + s1 = card_points (flat_map played (tricks st))
                     + match phase st with
                       | SCORING => card_points (kitty st)
                       | _ => 0
                       end)
  /\ (phase st = SCORING -> concat (hands st) = []).

(** A driver: the calls it makes on a round, in order.  An exception ends
    the run; [bury_kitty] is called in the KITTY phase only. *)
Inductive Move : Type :=
| Deal
| Bid (player_idx : Z) (cards : list Card)
| Bury (cards_to_bury : list Card)
| Play (player_idx : Z) (cards : list Card).

Definition apply_move (st : GameState) (m : Move) : option GameState :=
  match m with
  | Deal => ' (_, st') <- deal_next_card st ;; Some st'
  | Bid p cards => ' (_, st') <- declare_trump st p cards ;; Some st'
  | Bury cards =>
      if GamePhase_eqb (phase st) KITTY then bury_kitty st cards else None
  | Play p cards => ' (_, st') <- play_cards st p cards ;; Some st'
  end.

Fixpoint run (ms : list Move) (st : GameState) : option GameState :=
  match ms with
  | [] => Some st
  | m :: ms' => st' <- apply_move st m ;; run ms' st'
  end.

(** A short round for four players: twelve cards, one card a hand and eight
    in the kitty; the declarer buries the kitty as dealt and one trick is
    played. *)
Definition short_deck : list Card :=
  [mkCard "♥" "A" 0; mkCard "♥" "K" 0; mkCard "♥" "5" 0; mkCard "♥" "10" 0;
   mkCard "♣" "3" 0; mkCard "♣" "4" 0; mkCard "♣" "6" 0; mkCard "♣" "7" 0;
   mkCard "♦" "3" 0; mkCard "♦" "4" 0; mkCard "♦" "K" 0; mkCard "♦" "5" 0].

Definition short_round : list Move :=
  [Deal; Deal; Deal; Deal;
   Bury (Py.drop 4 short_deck);
   Play 0 [mkCard "♥" "A" 0]; Play 1 [mkCard "♥" "K" 0];
   Play 2 [mkCard "♥" "5" 0]; Play 3 [mkCard "♥" "10" 0]].

(** While the 108 cards are dealt to four players: after [4 * j + m] cards
    ([0 <= m < 4]) the first [m] hands hold [j + 1] cards and the others
    [j]. *)
Definition dealing_inv (deck : list Card) (j m : Z) (st : GameState)
  : Prop :=
  num_players st = 4 /\ _kitty_start st = 100 /\ _deck st = deck
  /\ _deal_idx st = 4 * j + m /\ phase st = DEALING
  /\ exists h0 h1 h2 h3,
       hands st = [h0; h1; h2; h3]
       /\ Py.len h0 = j + (if 0 <? m then 1 else 0)
       /\ Py.len h1 = j + (if 1 <? m then 1 else 0)
       /\ Py.len h2 = j + (if 2 <? m then 1 else 0)
       /\ Py.len h3 = j
       /\ playing_cards (h0 ++ h1 ++ h2 ++ h3).

(** The sizes a component of a combination can have: a single, a pair, or a
    tractor of two or more pairs. *)
Definition component_size (n : Z) : Prop :=
  n = 1 \/ n = 2 \/ (4 <= n /\ n mod 2 = 0).

(** A card that can win a trick led in [led_suit]: a card of the led suit or
    a trump. *)
Definition on_suit (t : TrumpSystem) (led_suit : string) (c : Card) : bool :=
  (effective_suit t c =? led_suit)%string
  || (effective_suit t c =? TRUMP)%string.

(** The weight of a card in a trick led in [led_suit]: the trumps above the
    cards of the led suit, each kind by its order value, and every other
    card below both. *)
Definition trick_weight (t : TrumpSystem) (led_suit : string) (c : Card)
  : Z :=
  if on_suit t led_suit c then
    match order_of t c with
    | Some o => if is_trump t c then 2000 + o else 1000 + o
    | None => -1
    end
  else -1.

(** A play of one card. *)
Definition one_card (pc : Z * Card) : Z * list Card := (fst pc, [snd pc]).

(* ================================================================= *)
(** * Properties *)

(** ** Basic facts about the card model *)

Lemma card_eqb_eq (a b : Card) : card_eqb a b = true <-> a = b.
Proof.
  unfold card_eqb. rewrite !andb_true_iff, !String.eqb_eq, Z.eqb_eq.
  destruct a, b; simpl. split.
  - intros [[-> ->] ->]. reflexivity.
  - intros H. inversion H. auto.
Qed.

Lemma card_eqb_refl (a : Card) : card_eqb a a = true.
Proof. apply card_eqb_eq. reflexivity. Qed.

Lemma card_eqb_neq (a b : Card) : card_eqb a b = false <-> a <> b.
Proof.
  rewrite <- card_eqb_eq. destruct (card_eqb a b); split; congruence.
Qed.

Lemma contains_In (c : Card) (l : list Card) :
  Py.contains card_eqb c l = true <-> In c l.
Proof.
  unfold Py.contains. rewrite existsb_exists. split.
  - intros [y [Hy He]]. apply card_eqb_eq in He. now subst.
  - intros H. exists c. split; [assumption | apply card_eqb_refl].
Qed.

Lemma contains_string_In (s : string) (l : list string) :
  Py.contains String.eqb s l = true <-> In s l.
Proof.
  unfold Py.contains. rewrite existsb_exists. split.
  - intros [y [Hy He]]. apply String.eqb_eq in He. now subst.
  - intros H. exists s. split; [assumption | apply String.eqb_refl].
Qed.

Lemma RANK_VAL_range (r : string) :
  In r RANKS -> exists v, RANK_VAL r = Some v /\ 0 <= v <= 12.
Proof.
  unfold RANKS. simpl. intros H.
  repeat (destruct H as [<- | H];
          [eexists; split; [vm_compute; reflexivity | lia] | ]).
  contradiction.
Qed.

Lemma RANK_VAL_only_ranks (r : string) (v : Z) :
  RANK_VAL r = Some v -> In r RANKS /\ 0 <= v <= 12.
Proof.
  unfold RANK_VAL, RANK_VAL_dict. simpl.
  repeat (match goal with
          | |- context [(?a =? r)%string] =>
              destruct (String.eqb_spec a r) as [<- | _];
              [intros [= <-]; split; [simpl; tauto | lia] | ]
          end).
  discriminate.
Qed.

Lemma RANK_VAL_inj (r1 r2 : string) (v : Z) :
  RANK_VAL r1 = Some v -> RANK_VAL r2 = Some v -> r1 = r2.
Proof.
  intros H1 H2.
  destruct (RANK_VAL_only_ranks _ _ H1) as [I1 _].
  destruct (RANK_VAL_only_ranks _ _ H2) as [I2 _].
  revert H1 H2. unfold RANKS in I1, I2. simpl in I1, I2.
  repeat (destruct I1 as [<- | I1]; [
    repeat (destruct I2 as [<- | I2];
            [vm_compute; intros; congruence | ]); contradiction | ]).
  contradiction.
Qed.

Lemma rotation_index (t : TrumpSystem) (s : string) :
  In s SUITS -> s <> trump_suit t ->
  exists i, Py.index String.eqb s (rotation t) = Some i /\ 0 <= i <= 3.
Proof.
  intros Hs Hne. unfold rotation, SUITS in *. simpl in Hs.
  assert (E : forall a, a = s -> (a =? trump_suit t)%string = false).
  { intros a ->. now apply String.eqb_neq. }
  destruct Hs as [<- | [<- | [<- | [<- | []]]]]; simpl;
    repeat (rewrite (E _ eq_refl); simpl);
    repeat (match goal with
            | |- context [(?a =? trump_suit t)%string] =>
                destruct (a =? trump_suit t)%string; simpl
            end);
    eexists; (split; [reflexivity | lia]).
Qed.

Lemma playing_card_cases (c : Card) :
  playing_card c = true ->
  (In (suit c) SUITS /\ In (rank c) RANKS /\ is_joker c = false)
  \/ (suit c = SMALL_JOKER /\ rank c = SMALL_JOKER)
  \/ (suit c = BIG_JOKER /\ rank c = BIG_JOKER).
Proof.
  unfold playing_card. rewrite !orb_true_iff, !andb_true_iff.
  rewrite !contains_string_In, !String.eqb_eq.
  intros [[[Hs Hr] | H] | H]; auto.
  left. repeat split; auto.
  unfold is_joker. unfold SUITS in Hs. simpl in Hs.
  destruct Hs as [<- | [<- | [<- | [<- | []]]]]; reflexivity.
Qed.

Lemma double_deck_playing_cards : forallb playing_card double_deck = true.
Proof. vm_compute. reflexivity. Qed.

Lemma double_deck_size : Py.len double_deck = 108.
Proof. vm_compute. reflexivity. Qed.

(* ----------------------------------------------------------------- *)
(** ** Trump ordering *)

Lemma trump_order_band (t : TrumpSystem) (c : Card) :
  playing_card c = true -> is_trump t c = true ->
  exists o, trump_order t c = Some o /\
    match band_of t c with
    | TrumpSuitPlain => o = rank_value (rank c) /\ 0 <= o <= 12
    | OffSuitTrumpRank =>
        o = 500 + rotation_pos t (suit c)
        /\ 0 <= rotation_pos t (suit c) <= 3
    | TrumpSuitTrumpRank => o = 998
    | SmallJokerBand => o = 999
    | BigJokerBand => o = 1000
    end.
Proof.
  intros Hc Ht. unfold trump_order, band_of.
  change (filter (fun s => negb (s =? trump_suit t)%string) SUITS)
    with (rotation t).
  destruct (is_big_joker c) eqn:Hb; [eexists; split; reflexivity | ].
  destruct (is_small_joker c) eqn:Hs; [eexists; split; reflexivity | ].
  destruct (playing_card_cases _ Hc) as [(Hsu & Hr & Hj) | [[Hsu _] | [Hsu _]]].
  2:{ unfold is_small_joker in Hs. rewrite Hsu in Hs. discriminate. }
  2:{ unfold is_big_joker in Hb. rewrite Hsu in Hb. discriminate. }
  destruct (String.eqb_spec (suit c) (trump_suit t)) as [Es | Es];
    cbn [andb].
  - destruct (String.eqb_spec (rank c) (trump_rank t)) as [Er | Er].
    + eexists; split; reflexivity.
    + destruct (RANK_VAL_range _ Hr) as (v & Hv & Hrange).
      exists v. unfold rank_value. rewrite Hv. auto.
  - unfold is_trump in Ht. rewrite Hj in Ht.
    destruct (String.eqb_spec (rank c) (trump_rank t)) as [Er | Er].
    + destruct (rotation_index t _ Hsu Es) as (i & Hi & Hrange).
      unfold rotation_pos. rewrite Hi.
      eexists; split; [reflexivity | auto].
    + apply String.eqb_neq in Es. rewrite Es in Ht. discriminate.
Qed.

(** C1, as the code has it: the trump cards are ordered, weakest first, as
    trump-suit cards of non-trump rank (by rank), then the trump-rank cards
    of the other suits (by the fixed suit rotation), then the trump-rank
    card of the trump suit, then the small joker, then the big joker; every
    trump card has an order value, and one trump card is below another
    exactly when it comes earlier in this sequence. *)
Theorem trump_order_band_sequence (t : TrumpSystem) (a b : Card) :
  playing_card a = true -> playing_card b = true ->
  is_trump t a = true -> is_trump t b = true ->
  exists oa ob,
    trump_order t a = Some oa /\ trump_order t b = Some ob /\
    (oa < ob <-> band_lt t a b).
Proof.
  intros Ha Hb Ta Tb.
  destruct (trump_order_band t a Ha Ta) as (oa & Hoa & Ba).
  destruct (trump_order_band t b Hb Tb) as (ob & Hob & Bb).
  exists oa, ob. repeat split; auto.
  - intros Hlt. unfold band_lt, within_band.
    destruct (band_of t a), (band_of t b); simpl;
      try (left; lia); try (right; split; [reflexivity | lia]); exfalso; lia.
  - unfold band_lt, within_band.
    destruct (band_of t a), (band_of t b); simpl;
      intros [H | [H1 H2]]; try discriminate; try lia.
Qed.

Lemma trump_order_band_sequence_witness :
  exists oa ob,
    trump_order (mkTrump "♠" "2") (mkCard "♣" "2" 0) = Some oa /\
    trump_order (mkTrump "♠" "2") (mkCard "♠" "2" 0) = Some ob /\
    (oa < ob <->
     band_lt (mkTrump "♠" "2") (mkCard "♣" "2" 0) (mkCard "♠" "2" 0)).
Proof.
  apply (trump_order_band_sequence (mkTrump "♠" "2")
           (mkCard "♣" "2" 0) (mkCard "♠" "2" 0)); reflexivity.
Defined.

(** C1 as the specification words it fails: with spades and rank 2 as
    trump, the 2 of spades (998) is not below the 2 of clubs (500). *)
Lemma trump_order_spec_bands_counterexample :
  trump_order (mkTrump "♠" "2") (mkCard "♠" "2" 0) = Some 998 /\
  trump_order (mkTrump "♠" "2") (mkCard "♣" "2" 0) = Some 500 /\
  ~ (998 < 500).
Proof. repeat split; try reflexivity. lia. Qed.





(* ----------------------------------------------------------------- *)
(** ** Round outcome *)

(** C9: the attacker points are the score of the team that did not declare,
    and the thresholds 40, 80, 120, 160 and 200 give, in turn: defenders win
    with two levels, defenders win with one level, attackers win with no
    level, with one, two and three levels; the winning team and the leveling
    team are the declaring team when the attackers lose and the other team
    when they win. *)
Theorem compute_round_outcome_thresholds (st : GameState) (s0 s1 : Z) :
  scores st = [s0; s1] ->
  declaring_team st = 0 \/ declaring_team st = 1 ->
  exists o,
    compute_round_outcome st = Some o /\
    attacker_pts o = (if declaring_team st =? 0 then s1 else s0) /\
    (attacker_pts o < 40 ->
       attackers_win o = false /\ level_delta o = 2) /\
    (40 <= attacker_pts o <= 79 ->
       attackers_win o = false /\ level_delta o = 1) /\
    (80 <= attacker_pts o <= 119 ->
       attackers_win o = true /\ level_delta o = 0) /\
    (120 <= attacker_pts o <= 159 ->
       attackers_win o = true /\ level_delta o = 1) /\
    (160 <= attacker_pts o <= 199 ->
       attackers_win o = true /\ level_delta o = 2) /\
    (200 <= attacker_pts o ->
       attackers_win o = true /\ level_delta o = 3) /\
    (attackers_win o = false ->
       winner_team o = declaring_team st /\
       leveling_team o = declaring_team st) /\
    (attackers_win o = true ->
       winner_team o = 1 - declaring_team st /\
       leveling_team o = 1 - declaring_team st).
Proof.
  intros Hs Hd.
  unfold compute_round_outcome, attacker_points, defending_team.
  rewrite Hs.
  set (pts := if declaring_team st =? 0 then s1 else s0).
  assert (Hp : Py.getidx [s0; s1] (1 - declaring_team st) = Some pts).
  { subst pts. destruct Hd as [-> | ->]; reflexivity. }
  rewrite Hp.
  destruct (pts <? 40) eqn:E1;
    [ | destruct (pts <? 80) eqn:E2;
        [ | destruct (pts <? 120) eqn:E3;
            [ | destruct (pts <? 160) eqn:E4;
                [ | destruct (pts <? 200) eqn:E5 ] ] ] ];
    eexists; (split; [reflexivity | ]); simpl;
    repeat match goal with
           | H : (_ <? _) = true |- _ => apply Z.ltb_lt in H
           | H : (_ <? _) = false |- _ => apply Z.ltb_ge in H
           end;
    repeat split; intros; try lia; try discriminate.
Qed.

Lemma compute_round_outcome_thresholds_witness :
  exists st o,
    scores st = [35; 80] /\ declaring_team st = 0 /\
    compute_round_outcome st = Some o /\
    attacker_pts o = 80 /\ attackers_win o = true /\ level_delta o = 0 /\
    winner_team o = 1 /\ leveling_team o = 1.
Proof.
  pose (st := mkGame 4 "2" None 0 0 0 "♠" (mkTrump "♠" "2") ["2"; "2"]
                [[]; []; []; []] [] SCORING 0 [] None [35; 80] [] [] 100
                25 100).
  destruct (compute_round_outcome_thresholds st 35 80 eq_refl
              (or_introl eq_refl))
    as (o & Ho & Hpts & _ & _ & H80 & _ & _ & _ & _ & Hwin).
  exists st, o. simpl in Hpts.
  destruct (H80 ltac:(lia)) as [Hw Hl].
  destruct (Hwin Hw) as [Hwt Hlt].
  repeat split; assumption.
Defined.

(* ----------------------------------------------------------------- *)
(** ** Trump declaration *)

Lemma small_not_big (c : Card) :
  is_small_joker c = true -> is_big_joker c = false.
Proof.
  unfold is_small_joker, is_big_joker. rewrite String.eqb_eq.
  intros ->. reflexivity.
Qed.

Lemma _bid_strength_ladder (cards : list Card) (trump_rank : string) :
  _bid_strength cards trump_rank = ladder_strength cards trump_rank.
Proof.
  unfold ladder_strength, ladder, _bid_strength.
  destruct cards as [ | c0 [ | c1 [ | c2 rest]]]; simpl; try reflexivity.
  - destruct (is_big_joker c0) eqn:Hb.
    + destruct (rank c0 =? trump_rank)%string, (is_small_joker c0);
        reflexivity.
    + destruct (is_small_joker c0);
        destruct (rank c0 =? trump_rank)%string; reflexivity.
  - destruct (is_big_joker c0) eqn:Hb0, (is_big_joker c1) eqn:Hb1; simpl;
      destruct (is_small_joker c0) eqn:Hs0, (is_small_joker c1) eqn:Hs1;
      simpl;
      try (rewrite (small_not_big _ Hs0) in Hb0; discriminate);
      try (rewrite (small_not_big _ Hs1) in Hb1; discriminate);
      destruct ((rank c0 =? trump_rank)%string
                && (rank c1 =? trump_rank)%string
                && (suit c0 =? suit c1)%string); reflexivity.
Qed.

Lemma _bid_strength_nonneg (cards : list Card) (trump_rank : string) :
  0 <= _bid_strength cards trump_rank <= 6.
Proof.
  unfold _bid_strength.
  destruct cards as [ | c0 [ | c1 [ | c2 rest]]]; try lia;
    repeat match goal with
           | |- context [if ?b then _ else _] => destruct b
           end; lia.
Qed.

Lemma all_in_hand_spec (hs : list (list Card)) (p : Z) (h : list Card)
      (cards : list Card) :
  Py.getidx hs p = Some h ->
  exists b, all_in_hand hs p cards = Some b /\
            (b = true <-> forall c, In c cards -> In c h).
Proof.
  intros Hh. induction cards as [ | c cards IH]; simpl.
  - exists true. split; [reflexivity | ]. split; [intros _ c [] | reflexivity].
  - rewrite Hh. destruct (Py.contains card_eqb c h) eqn:Hc; simpl.
    + destruct IH as (b & Hb & Hiff). exists b. split; [assumption | ].
      rewrite Hiff. apply contains_In in Hc. split.
      * intros H x [<- | Hx]; auto.
      * intros H x Hx. apply H. now right.
    + exists false. split; [reflexivity | ]. split; [discriminate | ].
      intros H. assert (Hin : In c h) by (apply H; now left).
      apply contains_In in Hin. congruence.
Qed.

Lemma GamePhase_eqb_eq (a b : GamePhase) :
  GamePhase_eqb a b = true <-> a = b.
Proof. destruct a, b; simpl; split; congruence. Qed.

(** C7: for a seated player, [declare_trump] answers, and it accepts
    exactly when the phase is DEALING, every submitted card is in that
    player's hand and the ladder strength of the cards exceeds the current
    declaration strength; a rejection carries a reason and leaves the whole
    state as it was.  A fresh round starts at strength 0. *)
Theorem declare_trump_accepts_iff
        (st : GameState) (player_idx : Z) (h : list Card)
        (cards : list Card) :
  Py.getidx (hands st) player_idx = Some h ->
  0 <= declaration_strength st ->
  exists ok reason st',
    declare_trump st player_idx cards = Some ((ok, reason), st') /\
    (ok = true <->
       phase st = DEALING /\
       (forall c, In c cards -> In c h) /\
       ladder_strength cards (gs_trump_rank st) > declaration_strength st) /\
    (ok = false -> st' = st /\ reason <> "") /\
    (forall deck n r d,
        new_GameState deck n r d = Some st -> declaration_strength st = 0).
Proof.
  intros Hh Hpos.
  assert (Hinit : forall deck n r d,
             new_GameState deck n r d = Some st ->
             declaration_strength st = 0).
  { intros deck n r d. unfold new_GameState.
    destruct (n =? 0); [discriminate | ]. intros [= <-]. reflexivity. }
  rewrite <- _bid_strength_ladder.
  pose proof (_bid_strength_nonneg cards (gs_trump_rank st)) as Hrange.
  unfold declare_trump.
  destruct (GamePhase_eqb (phase st) DEALING) eqn:Hph; simpl.
  2:{ do 3 eexists. split; [reflexivity | ]. repeat split; auto;
      try discriminate.
      intros (Hp & _). apply GamePhase_eqb_eq in Hp. congruence. }
  apply GamePhase_eqb_eq in Hph.
  destruct (all_in_hand_spec (hands st) player_idx h cards Hh)
    as (b & Hb & Hiff).
  rewrite Hb. destruct b; simpl.
  2:{ do 3 eexists. split; [reflexivity | ]. repeat split; auto;
      try discriminate.
      intros (_ & Hall & _). apply Hiff in Hall. discriminate. }
  assert (Hall : forall c, In c cards -> In c h) by (now apply Hiff).
  destruct (_bid_strength cards (gs_trump_rank st) =? 0) eqn:H0.
  { apply Z.eqb_eq in H0.
    do 3 eexists. split; [reflexivity | ]. repeat split; auto;
      try discriminate.
    intros (_ & _ & Hgt). lia. }
  destruct (_bid_strength cards (gs_trump_rank st)
            <=? declaration_strength st) eqn:Hle.
  { apply Z.leb_le in Hle.
    do 3 eexists. split; [reflexivity | ]. repeat split; auto;
      try discriminate.
    intros (_ & _ & Hgt). lia. }
  apply Z.leb_gt in Hle.
  destruct (filter (fun c => negb (is_joker c)) cards);
    do 3 eexists; (split; [reflexivity | ]); repeat split; auto;
    try discriminate; lia.
Qed.

Lemma declare_trump_accepts_iff_witness :
  exists ok reason st',
    declare_trump
      (mkGame 4 "2" None 0 0 0 "♠" (mkTrump "♠" "2") ["2"; "2"]
              [[mkCard "♥" "2" 0]; []; []; []] [] DEALING 0 [] None
              [0; 0] [] double_deck 1 25 100)
      0 [mkCard "♥" "2" 0] = Some ((ok, reason), st') /\
    ok = true.
Proof.
  destruct (declare_trump_accepts_iff
              (mkGame 4 "2" None 0 0 0 "♠" (mkTrump "♠" "2") ["2"; "2"]
                      [[mkCard "♥" "2" 0]; []; []; []] [] DEALING 0 [] None
                      [0; 0] [] double_deck 1 25 100)
              0 [mkCard "♥" "2" 0] [mkCard "♥" "2" 0]
              eq_refl ltac:(simpl; lia))
    as (ok & reason & st' & Hrun & Hiff & _).
  exists ok, reason, st'. split; [exact Hrun | ].
  apply Hiff.
  split; [reflexivity | split; [intros c Hc; exact Hc | reflexivity]].
Defined.

(* ----------------------------------------------------------------- *)
(** ** List bookkeeping *)

Lemma len_nonneg {A} (l : list A) : 0 <= Py.len l.
Proof. unfold Py.len. lia. Qed.

Lemma len_nil {A} : Py.len (@nil A) = 0.
Proof. reflexivity. Qed.

Lemma len_cons {A} (x : A) (l : list A) : Py.len (x :: l) = 1 + Py.len l.
Proof. unfold Py.len. simpl length. lia. Qed.

Lemma len_app {A} (l1 l2 : list A) :
  Py.len (l1 ++ l2) = Py.len l1 + Py.len l2.
Proof. unfold Py.len. rewrite length_app. lia. Qed.

Lemma sum_from (l : list Z) (a : Z) : fold_left Z.add l a = a + Py.sum l.
Proof.
  unfold Py.sum. revert a. induction l as [ | x l IH]; intros a; cbn.
  - lia.
  - rewrite IH, (IH x). lia.
Qed.

Lemma sum_cons (x : Z) (l : list Z) : Py.sum (x :: l) = x + Py.sum l.
Proof. unfold Py.sum at 1. cbn. apply sum_from. Qed.

Lemma sum_app (l1 l2 : list Z) : Py.sum (l1 ++ l2) = Py.sum l1 + Py.sum l2.
Proof.
  induction l1 as [ | x l1 IH]; cbn.
  - reflexivity.
  - rewrite !sum_cons, IH. lia.
Qed.

Lemma remove_len {A} (eqb : A -> A -> bool) (x : A) (l r : list A) :
  Py.remove eqb x l = Some r -> Py.len r = Py.len l - 1.
Proof.
  revert r. induction l as [ | y l IH]; intros r; cbn.
  - discriminate.
  - destruct (eqb y x).
    + intros [= <-]. rewrite len_cons. lia.
    + destruct (Py.remove eqb x l) as [r' | ]; [ | discriminate].
      intros [= <-]. rewrite !len_cons, (IH r' eq_refl). lia.
Qed.

Lemma remove_all_len (chunk l r : list Card) :
  remove_all chunk l = Some r -> Py.len r = Py.len l - Py.len chunk.
Proof.
  revert l r. induction chunk as [ | c chunk IH]; intros l r; cbn.
  - intros [= <-]. rewrite len_nil. lia.
  - destruct (Py.remove card_eqb c l) as [l' | ] eqn:Hr; [ | discriminate].
    intros H. apply IH in H. apply remove_len in Hr.
    rewrite len_cons. lia.
Qed.

Lemma set_nth_total (hs : list (list Card)) (n : nat) (h h' : list Card) :
  nth_error hs n = Some h ->
  total_len (Py.set_nth hs n h') = total_len hs - Py.len h + Py.len h'.
Proof.
  unfold total_len. revert n.
  induction hs as [ | x hs IH]; intros [ | n]; cbn; try discriminate.
  - intros [= ->]. rewrite !sum_cons. lia.
  - intros H. rewrite !sum_cons, (IH n H). lia.
Qed.

Lemma setidx_total (hs hs' : list (list Card)) (i : Z) (h h' : list Card) :
  Py.getidx hs i = Some h -> Py.setidx hs i h' = Some hs' ->
  total_len hs' = total_len hs - Py.len h + Py.len h'.
Proof.
  unfold Py.getidx, Py.setidx.
  destruct (Py.norm_index hs i) as [n | ]; [ | discriminate].
  intros Hg [= <-]. now apply set_nth_total.
Qed.

Lemma mapM_length {A B} (f : A -> option B) (l : list A) (r : list B) :
  Py.mapM f l = Some r -> length r = length l.
Proof.
  revert r. induction l as [ | x l IH]; intros r; cbn.
  - intros [= <-]. reflexivity.
  - destruct (f x); [ | discriminate].
    destruct (Py.mapM f l) as [ys | ]; [ | discriminate].
    intros [= <-]. cbn. now rewrite (IH ys eq_refl).
Qed.

Lemma insert_by_perm {A} (key : A -> Z) (x : A) (l : list A) :
  Permutation (x :: l) (Py.insert_by key x l).
Proof.
  induction l as [ | y l IH]; cbn.
  - apply Permutation_refl.
  - destruct (key y <=? key x).
    + eapply perm_trans; [apply perm_swap | ]. now apply perm_skip.
    + apply Permutation_refl.
Qed.

Lemma sorted_by_perm {A} (key : A -> Z) (l : list A) :
  Permutation l (Py.sorted_by key l).
Proof.
  unfold Py.sorted_by.
  assert (G : forall acc, Permutation (acc ++ l)
            (fold_left (fun acc x => Py.insert_by key x acc) l acc)).
  { induction l as [ | x l IH]; intros acc; cbn.
    - rewrite app_nil_r. apply Permutation_refl.
    - eapply perm_trans; [ | apply IH].
      eapply perm_trans; [apply Permutation_sym, Permutation_middle | ].
      apply (Permutation_app_tail l (insert_by_perm key x acc)). }
  apply (G []).
Qed.

Lemma sorted_by_rev_perm {A} (key : A -> Z) (l : list A) :
  Permutation l (Py.sorted_by_rev key l).
Proof. apply sorted_by_perm. Qed.

Lemma sort_hand_len (t : TrumpSystem) (h h' : list Card) :
  sort_hand t h = Some h' -> Py.len h' = Py.len h.
Proof.
  unfold sort_hand, keyed.
  destruct (Py.mapM _ h) as [ks | ] eqn:Hk; [ | discriminate].
  intros [= <-]. unfold Py.len. f_equal.
  rewrite length_map.
  rewrite <- (Permutation_length (sorted_by_rev_perm fst ks)).
  now apply mapM_length in Hk.
Qed.

Lemma resort_hands_total (t : TrumpSystem) (idxs : list Z)
      (hs hs' : list (list Card)) :
  resort_hands t idxs hs = Some hs' -> total_len hs' = total_len hs.
Proof.
  revert hs. induction idxs as [ | i idxs IH]; intros hs; cbn.
  - now intros [= <-].
  - destruct (Py.getidx hs i) as [h | ] eqn:Hg; [ | discriminate].
    destruct (sort_hand t h) as [h1 | ] eqn:Hs; [ | discriminate].
    destruct (Py.setidx hs i h1) as [hs1 | ] eqn:Hset; [ | discriminate].
    intros H. apply IH in H. rewrite H.
    rewrite (setidx_total _ _ _ _ _ Hg Hset), (sort_hand_len _ _ _ Hs). lia.
Qed.

(* ----------------------------------------------------------------- *)
(** ** Card conservation over a round *)

Lemma new_GameState_inv deck n r d st :
  Py.len deck = 108 -> new_GameState deck n r d = Some st -> round_inv st.
Proof.
  intros Hlen. unfold new_GameState.
  destruct (n =? 0); [discriminate | ]. intros [= <-].
  unfold round_inv, conserved, hand_total, cards_already_played, undealt,
    phase_shape; cbn.
  repeat split; auto; try lia.
  assert (E : forall k, total_len (repeat [] k) = 0).
  { induction k as [ | k IH]; [reflexivity | ].
    unfold total_len in *. cbn. rewrite sum_cons, IH. reflexivity. }
  rewrite E, Hlen. reflexivity.
Qed.

Lemma getidx_drop_len {A} (l : list A) (i : Z) (x : A) :
  0 <= i -> Py.getidx l i = Some x ->
  Py.len (Py.drop (i + 1) l) = Py.len l - (i + 1).
Proof.
  intros Hi. unfold Py.getidx, Py.norm_index, Py.drop, Py.len.
  rewrite length_skipn.
  destruct ((0 <=? i) && (i <? Z.of_nat (length l))) eqn:E.
  - apply andb_true_iff in E. destruct E as [_ E]. apply Z.ltb_lt in E.
    intros _. lia.
  - destruct ((- Z.of_nat (length l) <=? i) && (i <? 0)) eqn:E2;
      [ | discriminate].
    apply andb_true_iff in E2. destruct E2 as [_ E2]. apply Z.ltb_lt in E2.
    lia.
Qed.

Lemma deal_next_card_inv st r st' :
  round_inv st -> deal_next_card st = Some (r, st') -> round_inv st'.
Proof.
  intros (Hc & Hd & Hpos & Hs). unfold deal_next_card.
  destruct (_deal_idx st >=? _kitty_start st) eqn:Hdone.
  { intros [= <- <-]. repeat split; assumption. }
  destruct (num_players st =? 0); [discriminate | ].
  destruct (Py.getidx (_deck st) (_deal_idx st)) as [card | ] eqn:Hcard;
    [ | discriminate].
  destruct (Py.getidx (hands st) _) as [h | ] eqn:Hh; [ | discriminate].
  destruct (Py.setidx (hands st) _ (h ++ [card])) as [hs | ] eqn:Hset;
    [ | discriminate].
  pose proof (setidx_total _ _ _ _ _ Hh Hset) as Htot.
  rewrite len_app, len_cons, len_nil in Htot.
  assert (Hlt : _deal_idx st < _kitty_start st).
  { destruct (Z.geb_spec (_deal_idx st) (_kitty_start st));
      [discriminate | lia]. }
  unfold round_inv, conserved, hand_total, cards_already_played, undealt,
    phase_shape in *.
  destruct (phase st) eqn:Hph; try lia.
  destruct Hs as (Hk & Ht & Hct).
  rewrite Hk, Ht in Hc. rewrite len_nil in Hc. cbn in Hc.
  cbn [_deal_idx _kitty_start].
  destruct (_deal_idx st + 1 >=? _kitty_start st) eqn:Hlast.
  - unfold _finalize_declaration. cbn.
    destruct (match declaration st with
              | Some (player, cards) => _
              | None => _
              end) as [[player team] tsuit].
    destruct (resort_hands _ _ hs) as [hs2 | ] eqn:Hre; [ | discriminate].
    intros [= <- <-]. cbn. rewrite Ht. cbn [map].
    change (Py.sum []) with 0 in *.
    apply resort_hands_total in Hre. rewrite Hre, Htot.
    assert (Hge : _kitty_start st <= _deal_idx st + 1).
    { destruct (Z.geb_spec (_deal_idx st + 1) (_kitty_start st));
        [lia | discriminate]. }
    assert (Hks : _kitty_start st = _deal_idx st + 1) by lia.
    rewrite Hks, (getidx_drop_len _ _ _ Hpos Hcard), Hd.
    repeat split; lia.
  - intros [= <- <-]. cbn.
    change (Py.sum []) with 0 in *.
    split; [ | repeat split; auto; lia].
    rewrite Hk, Ht, len_nil. cbn [map]. change (Py.sum []) with 0. lia.
Qed.

Lemma declare_trump_inv st p cards r st' :
  round_inv st -> declare_trump st p cards = Some (r, st') -> round_inv st'.
Proof.
  intros Hinv. unfold declare_trump.
  destruct (negb (GamePhase_eqb (phase st) DEALING));
    [intros [= <- <-]; assumption | ].
  destruct (all_in_hand _ _ _) as [held | ]; [ | discriminate].
  destruct (negb held); [intros [= <- <-]; assumption | ].
  destruct (_ =? 0); [intros [= <- <-]; assumption | ].
  destruct (_ <=? _); [intros [= <- <-]; assumption | ].
  destruct (match filter _ cards with [] => _ | c :: _ => _ end)
    as [tsuit t].
  intros [= <- <-]. exact Hinv.
Qed.

#[global] Arguments trick_cards : simpl never.

Lemma trick_cards_new t p : trick_cards (new_Trick t p) = 0.
Proof. reflexivity. Qed.

Lemma bury_kitty_inv st cards st' :
  round_inv st -> phase st = KITTY -> bury_kitty st cards = Some st' ->
  round_inv st'.
Proof.
  intros (Hc & Hd & Hpos & Hs) Hph. unfold bury_kitty.
  destruct (Py.len cards =? KITTY_SIZE) eqn:H8; [ | discriminate].
  apply Z.eqb_eq in H8. unfold KITTY_SIZE in H8. cbn [negb].
  destruct (Py.getidx (hands st) _) as [h | ] eqn:Hh; [ | discriminate].
  destruct (remove_all cards (h ++ kitty st)) as [h' | ] eqn:Hr;
    [ | discriminate].
  destruct (Py.setidx (hands st) _ h') as [hs | ] eqn:Hset; [ | discriminate].
  intros [= <-].
  pose proof (setidx_total _ _ _ _ _ Hh Hset) as Htot.
  apply remove_all_len in Hr. rewrite len_app in Hr.
  unfold round_inv, conserved, hand_total, cards_already_played, undealt,
    phase_shape in *.
  rewrite Hph in *. cbn. rewrite trick_cards_new.
  repeat split; auto. lia.
Qed.

Lemma trick_play_cards tr p cards tr' :
  trick_play tr p cards = Some tr' ->
  trick_cards tr' = trick_cards tr + Py.len cards.
Proof.
  unfold trick_play. destruct (new_CardCombo _ _); [ | discriminate].
  intros [= <-]. unfold trick_cards. cbn.
  rewrite map_app, sum_app. cbn. rewrite sum_cons. change (Py.sum []) with 0.
  lia.
Qed.

Lemma play_cards_inv st p cards r st' :
  round_inv st -> play_cards st p cards = Some (r, st') -> round_inv st'.
Proof.
  intros (Hc & Hd & Hpos & Hs). unfold play_cards.
  destruct (negb (p =? current_player st)); [discriminate | ].
  destruct (GamePhase_eqb (phase st) PLAYING) eqn:Hph; [ | discriminate].
  apply GamePhase_eqb_eq in Hph. cbn [negb].
  destruct (Py.getidx (hands st) p) as [h | ] eqn:Hh; [ | discriminate].
  destruct (remove_all cards h) as [h' | ] eqn:Hr; [ | discriminate].
  destruct (Py.setidx (hands st) p h') as [hs | ] eqn:Hset; [ | discriminate].
  destruct (current_trick st) as [trick0 | ] eqn:Hct; [ | discriminate].
  destruct (trick_play trick0 p cards) as [trick | ] eqn:Htp;
    [ | discriminate].
  pose proof (setidx_total _ _ _ _ _ Hh Hset) as Htot.
  apply remove_all_len in Hr. apply trick_play_cards in Htp.
  unfold round_inv, conserved, hand_total, cards_already_played, undealt,
    phase_shape in *.
  rewrite Hph, Hct in *.
  destruct (is_complete trick).
  - destruct (winner trick) as [w | ]; [ | discriminate].
    destruct (add_score _ _ _) as [sc | ]; [ | discriminate].
    destruct (forallb _ hs).
    + destruct (add_score sc _ _) as [sc' | ]; [ | discriminate].
      intros [= <- <-]. cbn. rewrite map_app, sum_app. cbn.
      rewrite sum_cons. change (Py.sum []) with 0.
      repeat split; auto; lia.
    + intros [= <- <-]. cbn. rewrite map_app, sum_app. cbn.
      rewrite sum_cons. change (Py.sum []) with 0.
      rewrite trick_cards_new.
      repeat split; auto; lia.
  - destruct (num_players st =? 0); [discriminate | ].
    intros [= <- <-]. cbn. repeat split; auto; lia.
Qed.

Lemma step_inv st st' : round_inv st -> step st st' -> round_inv st'.
Proof.
  intros Hinv Hstep. destruct Hstep.
  - eapply deal_next_card_inv; eauto.
  - eapply declare_trump_inv; eauto.
  - eapply bury_kitty_inv; eauto.
  - eapply play_cards_inv; eauto.
Qed.

(** C5, as the code has it: from a freshly constructed round over a deck of
    108 cards, after every completed call of [deal_next_card],
    [declare_trump], [bury_kitty] or [play_cards], the hand sizes, the kitty
    size, the cards played into tricks and the cards still undealt in the
    deal queue add up to 108. *)
Theorem card_conservation deck n r d st0 st :
  Py.len deck = 108 ->
  new_GameState deck n r d = Some st0 ->
  reachable st0 st ->
  hand_total st + Py.len (kitty st) + cards_already_played st + undealt st
  = 108.
Proof.
  intros Hlen Hnew Hreach.
  assert (Hinv : round_inv st).
  { induction Hreach as [ | st st' _ IH Hstep].
    - eapply new_GameState_inv; eauto.
    - eapply step_inv; eauto. }
  apply Hinv.
Qed.

Lemma card_conservation_witness :
  exists st0 r st1,
    new_GameState double_deck 4 "2" 0 = Some st0 /\
    deal_next_card st0 = Some (r, st1) /\
    hand_total st1 + Py.len (kitty st1) + cards_already_played st1
    + undealt st1 = 108.
Proof.
  eexists. eexists. eexists.
  split; [vm_compute; reflexivity | ].
  split; [vm_compute; reflexivity | ].
  eapply (card_conservation double_deck 4 "2" 0).
  - vm_compute. reflexivity.
  - vm_compute. reflexivity.
  - eapply reach_step; [apply reach_start | ].
    eapply step_deal. vm_compute. reflexivity.
Defined.

(** C5 as the specification words it fails while cards are still being
    dealt: after the first [deal_next_card] of a round one card is in a hand,
    the kitty is empty and nothing has been played, so the three quantities
    of the specification add up to 1. *)
Lemma conservation_spec_counterexample :
  exists st0 r st1,
    new_GameState double_deck 4 "2" 0 = Some st0 /\
    deal_next_card st0 = Some (r, st1) /\
    phase st1 = DEALING /\
    hand_total st1 + Py.len (kitty st1) + cards_already_played st1 = 1 /\
    1 <> 108.
Proof.
  eexists. eexists. eexists.
  split; [vm_compute; reflexivity | ].
  split; [vm_compute; reflexivity | ].
  split; [reflexivity | ].
  split; [vm_compute; reflexivity | lia].
Qed.

(* ----------------------------------------------------------------- *)
(** ** Shape of the reachable states *)

Lemma set_nth_two (s0 s1 x : Z) (n : nat) :
  exists a b, Py.set_nth [s0; s1] n x = [a; b].
Proof. destruct n as [ | [ | n]]; cbn; eauto. Qed.

Lemma add_score_two (s0 s1 team pts : Z) sc :
  add_score [s0; s1] team pts = Some sc -> exists a b, sc = [a; b].
Proof.
  unfold add_score, Py.setidx.
  destruct (Py.getidx [s0; s1] team); [ | discriminate].
  destruct (Py.norm_index [s0; s1] team) as [n | ]; [ | discriminate].
  intros [= <-]. apply set_nth_two.
Qed.

Lemma mod2_cases (p : Z) : p mod 2 = 0 \/ p mod 2 = 1.
Proof. pose proof (Z.mod_pos_bound p 2 ltac:(lia)). lia. Qed.

Lemma step_shape st st' : round_shape st -> step st st' -> round_shape st'.
Proof.
  intros (Hs & Hsc & Ht) Hstep. destruct Hstep as
    [st r st' Hd | st p cards r st' Hd | st cards st' Hph Hb
     | st p cards r st' Hp].
  - unfold deal_next_card in Hd.
    destruct (_deal_idx st >=? _kitty_start st).
    { injection Hd as <- <-. repeat split; assumption. }
    destruct (num_players st =? 0); [discriminate | ].
    destruct (Py.getidx (_deck st) _); [ | discriminate].
    destruct (Py.getidx (hands st) _); [ | discriminate].
    destruct (Py.setidx (hands st) _ _); [ | discriminate].
    destruct (_ >=? _).
    + unfold _finalize_declaration in Hd. cbn in Hd.
      destruct (declaration st) as [[player cs] | ] eqn:Hdecl.
      * destruct (resort_hands _ _ _); [ | discriminate].
        injection Hd as <- <-. cbn. repeat split; auto.
        intros _. apply mod2_cases.
      * destruct (resort_hands _ _ _); [ | discriminate].
        injection Hd as <- <-. cbn. repeat split; auto.
    + injection Hd as <- <-. cbn. repeat split; auto.
  - unfold declare_trump in Hd.
    destruct (negb (GamePhase_eqb (phase st) DEALING));
      [injection Hd as <- <-; repeat split; assumption | ].
    destruct (all_in_hand _ _ _) as [held | ]; [ | discriminate].
    destruct (negb held);
      [injection Hd as <- <-; repeat split; assumption | ].
    destruct (_ =? 0);
      [injection Hd as <- <-; repeat split; assumption | ].
    destruct (_bid_strength cards (gs_trump_rank st)
              <=? declaration_strength st) eqn:Hle;
      [injection Hd as <- <-; repeat split; assumption | ].
    apply Z.leb_gt in Hle.
    destruct (match filter _ cards with [] => _ | c :: _ => _ end)
      as [tsuit t].
    injection Hd as <- <-.
    unfold round_shape.
    cbn [declaration_strength scores phase declaring_team].
    split; [lia | split; assumption].
  - unfold bury_kitty in Hb.
    destruct (negb _); [discriminate | ].
    destruct (Py.getidx (hands st) _); [ | discriminate].
    destruct (remove_all _ _); [ | discriminate].
    destruct (Py.setidx (hands st) _ _); [ | discriminate].
    injection Hb as <-. cbn. repeat split; auto.
    intros _. apply Ht. rewrite Hph. discriminate.
  - unfold play_cards in Hp.
    destruct (negb (p =? current_player st)); [discriminate | ].
    destruct (GamePhase_eqb (phase st) PLAYING) eqn:Hph; [ | discriminate].
    apply GamePhase_eqb_eq in Hph. cbn [negb] in Hp.
    assert (Hteam : declaring_team st = 0 \/ declaring_team st = 1).
    { apply Ht. rewrite Hph. discriminate. }
    destruct Hsc as (s0 & s1 & Hsc).
    destruct (Py.getidx (hands st) p); [ | discriminate].
    destruct (remove_all cards _); [ | discriminate].
    destruct (Py.setidx (hands st) p _) as [hs | ]; [ | discriminate].
    destruct (current_trick st); [ | discriminate].
    destruct (trick_play _ p cards) as [trick | ]; [ | discriminate].
    destruct (is_complete trick).
    + destruct (winner trick) as [w | ]; [ | discriminate].
      rewrite Hsc in Hp.
      destruct (add_score [s0; s1] _ _) as [sc | ] eqn:Hsc1;
        [ | discriminate].
      destruct (add_score_two _ _ _ _ _ Hsc1) as (a & b & ->).
      destruct (forallb _ hs).
      * destruct (add_score [a; b] _ _) as [sc' | ] eqn:Hsc2;
          [ | discriminate].
        destruct (add_score_two _ _ _ _ _ Hsc2) as (a' & b' & ->).
        injection Hp as <- <-.
        split; [exact Hs | split; [cbn; eauto | intros _; exact Hteam]].
      * injection Hp as <- <-.
        split; [exact Hs | split; [cbn; eauto | intros _; exact Hteam]].
    + destruct (num_players st =? 0); [discriminate | ].
      injection Hp as <- <-.
      split; [exact Hs | split; [cbn; eauto | intros _; exact Hteam]].
Qed.

Lemma reachable_round_shape deck n r d st0 st :
  new_GameState deck n r d = Some st0 -> reachable st0 st -> round_shape st.
Proof.
  intros Hnew Hreach. induction Hreach as [ | st st' _ IH Hstep].
  - unfold new_GameState in Hnew. destruct (n =? 0); [discriminate | ].
    injection Hnew as <-.
    split; [cbn; lia | split; [cbn; eauto | ]].
    intros H. exfalso. apply H. reflexivity.
  - eapply step_shape; eauto.
Qed.

(* ----------------------------------------------------------------- *)
(** ** The engine never raises on playing cards *)

Lemma order_of_some (t : TrumpSystem) (c : Card) :
  playing_card c = true -> exists o, order_of t c = Some o.
Proof.
  intros Hc. unfold order_of. destruct (is_trump t c) eqn:Ht.
  - destruct (trump_order_band t c Hc Ht) as (o & Ho & _). eauto.
  - destruct (playing_card_cases _ Hc) as [(_ & Hr & _) | [[Hs _] | [Hs _]]].
    + destruct (RANK_VAL_range _ Hr) as (v & Hv & _). eauto.
    + unfold is_trump, is_joker in Ht. rewrite Hs in Ht. discriminate.
    + unfold is_trump, is_joker in Ht. rewrite Hs in Ht. discriminate.
Qed.

Lemma suits_index (s : string) :
  In s SUITS -> exists i, Py.index String.eqb s SUITS = Some i.
Proof.
  unfold SUITS. cbn. intros [<- | [<- | [<- | [<- | []]]]];
    eexists; vm_compute; reflexivity.
Qed.

Lemma card_order_some (t : TrumpSystem) (c : Card) :
  playing_card c = true -> exists o, card_order t c = Some o.
Proof.
  intros Hc. unfold card_order. destruct (is_trump t c) eqn:Ht.
  - destruct (trump_order_band t c Hc Ht) as (o & Ho & _).
    rewrite Ho. eauto.
  - destruct (playing_card_cases _ Hc) as [(Hs & Hr & _) | [[Hs _] | [Hs _]]].
    + destruct (RANK_VAL_range _ Hr) as (v & Hv & _).
      destruct (suits_index _ Hs) as (i & Hi).
      rewrite Hi, Hv. eauto.
    + unfold is_trump, is_joker in Ht. rewrite Hs in Ht. discriminate.
    + unfold is_trump, is_joker in Ht. rewrite Hs in Ht. discriminate.
Qed.

Lemma keyed_some {A K} (key : A -> option K) (l : list A) :
  (forall x, In x l -> exists k, key x = Some k) ->
  exists ks, keyed key l = Some ks.
Proof.
  unfold keyed. induction l as [ | x l IH]; intros H; cbn.
  - eauto.
  - destruct (H x (or_introl eq_refl)) as (k & Hk). rewrite Hk.
    destruct IH as (ks & Hks); [intros; apply H; now right | ].
    rewrite Hks. eauto.
Qed.

Lemma keyed_snd {A K} (key : A -> option K) (l : list A) ks :
  keyed key l = Some ks -> map snd ks = l.
Proof.
  unfold keyed. revert ks. induction l as [ | x l IH]; intros ks; cbn.
  - now intros [= <-].
  - destruct (key x); [ | discriminate].
    destruct (Py.mapM _ l) as [ks' | ]; [ | discriminate].
    intros [= <-]. cbn. now rewrite (IH ks' eq_refl).
Qed.

Lemma keyed_fst {A K} (key : A -> option K) (l : list A) ks :
  keyed key l = Some ks ->
  forall p, In p ks -> key (snd p) = Some (fst p).
Proof.
  unfold keyed. revert ks. induction l as [ | x l IH]; intros ks; cbn.
  - intros [= <-] p [].
  - destruct (key x) eqn:Hk; [ | discriminate].
    destruct (Py.mapM _ l) as [ks' | ]; [ | discriminate].
    intros [= <-] p [<- | Hp]; cbn; auto.
    now apply (IH ks' eq_refl).
Qed.

Lemma suit_order_key_some (t : TrumpSystem) (c : Card) :
  playing_card c = true -> exists k, suit_order_key t c = Some k.
Proof.
  intros Hc. unfold suit_order_key.
  destruct (order_of_some t c Hc) as (o & Ho). rewrite Ho. eauto.
Qed.

Lemma _group_by_order_some (t : TrumpSystem) (cards : list Card) :
  playing_cards cards -> exists g, _group_by_order t cards = Some g.
Proof.
  intros H. unfold _group_by_order.
  destruct (keyed_some (order_of t) cards) as (ks & Hks).
  - intros x Hx. apply order_of_some. now apply H.
  - rewrite Hks. eauto.
Qed.

Lemma _try_tractor_some (t : TrumpSystem) (cards : list Card) :
  playing_cards cards -> exists b, _try_tractor t cards = Some b.
Proof.
  intros H. unfold _try_tractor.
  destruct (_ || _); [eauto | ].
  destruct (_group_by_order_some t cards H) as (g & Hg). rewrite Hg.
  destruct (existsb _ g); eauto.
Qed.

Lemma _decompose_some (t : TrumpSystem) (cards : list Card) :
  playing_cards cards -> exists cs, _decompose t cards = Some cs.
Proof.
  intros H. unfold _decompose.
  destruct (keyed_some (suit_order_key t) cards) as (ks & Hks).
  - intros x Hx. apply suit_order_key_some. now apply H.
  - rewrite Hks. eauto.
Qed.

Lemma same_rank_or_order_some (t : TrumpSystem) (c0 c1 : Card) :
  playing_card c0 = true -> playing_card c1 = true ->
  exists b, same_rank_or_order t c0 c1 = Some b.
Proof.
  intros H0 H1. unfold same_rank_or_order.
  destruct (rank c0 =? rank c1)%string; [eauto | ].
  destruct (is_trump t c0) eqn:T0, (is_trump t c1) eqn:T1; cbn; eauto.
  destruct (trump_order_band t c0 H0 T0) as (a & Ha & _).
  destruct (trump_order_band t c1 H1 T1) as (b & Hb & _).
  rewrite Ha, Hb. eauto.
Qed.

Lemma _detect_some (t : TrumpSystem) (cards : list Card) :
  playing_cards cards -> exists r, _detect t cards = Some r.
Proof.
  intros H. unfold _detect.
  destruct (Py.len cards =? 1); [eauto | ].
  destruct (_decompose_some t cards H) as (cs & Hcs). rewrite Hcs.
  assert (F : exists r,
             match cs with
             | [c] => if Py.len c =? Py.len cards
                      then if Py.len cards =? 2 then Some (PAIR, cs)
                           else Some (TRACTOR, cs)
                      else Some (MULTI, cs)
             | _ => Some (MULTI, cs)
             end = Some r).
  { destruct cs as [ | c [ | c' cs']]; eauto.
    destruct (Py.len c =? Py.len cards); eauto.
    destruct (Py.len cards =? 2); eauto. }
  destruct (Py.len (Py.set_of _ _) =? 1); [ | exact F].
  assert (P : exists b, match cards with
                        | [c0; c1] => same_rank_or_order t c0 c1
                        | _ => Some false
                        end = Some b).
  { destruct cards as [ | c0 [ | c1 [ | c2 rest]]]; eauto.
    apply same_rank_or_order_some; apply H; cbn; auto. }
  destruct P as (b & ->). destruct b; [eauto | ].
  destruct (_try_tractor_some t cards H) as (b & ->).
  destruct b; [eauto | exact F].
Qed.

Lemma new_CardCombo_some (t : TrumpSystem) (cards : list Card) :
  playing_cards cards ->
  exists cb, new_CardCombo cards t = Some cb /\ combo_cards cb = cards
             /\ combo_trump cb = t.
Proof.
  intros H. unfold new_CardCombo.
  destruct (_detect_some t cards H) as ([ty comps] & ->). eauto.
Qed.
(* ----------------------------------------------------------------- *)
(** ** Components partition the cards *)

Lemma submset_refl {A} (a : list A) : submset a a.
Proof. exists []. now rewrite app_nil_r. Qed.

Lemma submset_perm {A} (a b : list A) : Permutation a b -> submset a b.
Proof. intros H. exists []. now rewrite app_nil_r. Qed.

Lemma submset_trans {A} (a b c : list A) :
  submset a b -> submset b c -> submset a c.
Proof.
  intros [r1 H1] [r2 H2]. exists (r1 ++ r2).
  rewrite app_assoc. now rewrite H1.
Qed.

Lemma submset_app {A} (a a' b b' : list A) :
  submset a b -> submset a' b' -> submset (a ++ a') (b ++ b').
Proof.
  intros [r H] [r' H']. exists (r ++ r').
  rewrite <- H, <- H'. rewrite <- !app_assoc.
  apply Permutation_app_head. rewrite !app_assoc.
  apply Permutation_app_tail. apply Permutation_app_comm.
Qed.

Lemma submset_app_l {A} (a b : list A) : submset a (a ++ b).
Proof. now exists b. Qed.

Lemma submset_app_r {A} (a b : list A) : submset b (a ++ b).
Proof. exists a. apply Permutation_app_comm. Qed.

Lemma submset_NoDup {A} (a b : list A) : submset a b -> NoDup b -> NoDup a.
Proof.
  intros [r H] Hb. apply Permutation_sym in H.
  apply (Permutation_NoDup H) in Hb. now apply NoDup_app_remove_r in Hb.
Qed.

Lemma submset_incl {A} (a b : list A) : submset a b -> incl a b.
Proof.
  intros [r H] x Hx. apply (Permutation_in x H). apply in_or_app. now left.
Qed.

(** *** Dictionaries keep their cards *)

Lemma setdefault_append_cards {K V} (eqb : K -> K -> bool)
      (d : list (K * list V)) (k : K) (x : V) :
  Permutation (flat_map snd (Py.setdefault_append eqb d k x))
              (flat_map snd d ++ [x]).
Proof.
  induction d as [ | [k' vs] d IH]; cbn.
  - apply Permutation_refl.
  - destruct (eqb k' k); cbn.
    + rewrite <- !app_assoc. apply Permutation_app_head.
      apply Permutation_app_comm.
    + rewrite IH. now rewrite app_assoc.
Qed.

Lemma group_by_key_cards {K} (eqb : K -> K -> bool) (ks : list (K * Card)) :
  Permutation (flat_map snd (group_by_key eqb ks)) (map snd ks).
Proof.
  unfold group_by_key.
  assert (G : forall acc,
             Permutation
               (flat_map snd
                  (fold_left (fun g kc =>
                      Py.setdefault_append eqb g (fst kc) (snd kc)) ks acc))
               (flat_map snd acc ++ map snd ks)).
  { induction ks as [ | kc ks IH]; intros acc; cbn.
    - now rewrite app_nil_r.
    - rewrite IH, setdefault_append_cards, <- app_assoc. reflexivity. }
  apply (G []).
Qed.

Lemma take_drop {A} (n : Z) (l : list A) : Py.take n l ++ Py.drop n l = l.
Proof. apply firstn_skipn. Qed.

Lemma pair_cards_setdefault (d : list (string * list (Z * list Card)))
      (s : string) (o : Z) (cs : list Card) :
  Permutation (pair_cards (Py.setdefault_append String.eqb d s (o, cs)))
              (pair_cards d ++ cs).
Proof.
  unfold pair_cards.
  eapply perm_trans;
    [apply Permutation_flat_map, setdefault_append_cards | ].
  rewrite flat_map_app. cbn. rewrite app_nil_r. apply Permutation_refl.
Qed.

Lemma pairs_by_suit_cards (groups : list ((string * Z) * list Card)) :
  submset (pair_cards (pairs_by_suit groups)) (flat_map snd groups).
Proof.
  unfold pairs_by_suit.
  assert (G : forall acc,
             submset
               (pair_cards
                  (fold_left
                     (fun d g =>
                        let '((suit, order), cs) := g in
                        if Py.len cs >=? 2
                        then Py.setdefault_append String.eqb d suit
                               (order, Py.take 2 cs)
                        else d) groups acc))
               (pair_cards acc ++ flat_map snd groups)).
  { induction groups as [ | [[s o] cs] groups IH]; intros acc; cbn.
    - rewrite app_nil_r. apply submset_refl.
    - eapply submset_trans; [apply IH | ].
      destruct (Py.len cs >=? 2).
      + rewrite app_assoc. apply submset_app; [ | apply submset_refl].
        eapply submset_trans;
          [apply submset_perm, pair_cards_setdefault | ].
        apply submset_app; [apply submset_refl | ].
        rewrite <- (take_drop 2 cs) at 2. apply submset_app_l.
      + apply submset_app; [apply submset_refl | apply submset_app_r]. }
  apply (G []).
Qed.

(** *** Runs *)

Lemma runs_concat {X} (key : X -> Z) (l : list X) : concat (runs key l) = l.
Proof.
  induction l as [ | x l IH]; cbn; [reflexivity | ].
  destruct (runs key l) as [ | [ | y run] rest] eqn:E; cbn in *.
  - now rewrite <- IH.
  - now rewrite <- IH.
  - destruct (key y - key x =? 1); cbn; now rewrite <- IH.
Qed.

Lemma filter_concat_submset {X} (P : list X -> bool) (rs : list (list X)) :
  submset (concat (filter P rs)) (concat rs).
Proof.
  induction rs as [ | r rs IH]; cbn.
  - apply submset_refl.
  - destruct (P r); cbn.
    + apply submset_app; [apply submset_refl | exact IH].
    + eapply submset_trans; [exact IH | apply submset_app_r].
Qed.

Lemma concat_map_flat_map {X Y} (f : X -> list Y) (rs : list (list X)) :
  concat (map (fun run => flat_map f run) rs) = flat_map f (concat rs).
Proof.
  induction rs as [ | r rs IH]; cbn; [reflexivity | ].
  now rewrite flat_map_app, IH.
Qed.

Lemma flat_map_submset {X Y} (f : X -> list Y) (a b : list X) :
  submset a b -> submset (flat_map f a) (flat_map f b).
Proof.
  intros [r H]. exists (flat_map f r).
  rewrite <- flat_map_app. now apply Permutation_flat_map.
Qed.

Lemma tractors_of_cards (pair_list : list (Z * list Card)) :
  submset (concat (tractors_of pair_list)) (flat_map snd pair_list).
Proof.
  unfold tractors_of. rewrite concat_map_flat_map.
  apply flat_map_submset.
  eapply submset_trans; [apply filter_concat_submset | ].
  rewrite runs_concat. apply submset_perm, Permutation_sym, sorted_by_perm.
Qed.

Lemma tractor_components_cards (groups : list ((string * Z) * list Card)) :
  submset (concat (tractor_components groups)) (flat_map snd groups).
Proof.
  eapply submset_trans; [ | apply pairs_by_suit_cards].
  unfold tractor_components, pair_cards.
  induction (pairs_by_suit groups) as [ | [s pl] d IH]; cbn.
  - apply submset_refl.
  - rewrite concat_app, flat_map_app.
    apply submset_app; [apply tractors_of_cards | exact IH].
Qed.
(** *** The two passes over the groups *)

Lemma id_in_In (c : Card) (used : list Card) :
  id_in c used = true <-> In c used.
Proof. apply contains_In. Qed.

Lemma take_incl {A} (n : Z) (l : list A) : incl (Py.take n l) l.
Proof.
  intros x Hx. rewrite <- (take_drop n l). apply in_or_app. now left.
Qed.

Lemma take_NoDup {A} (n : Z) (l : list A) : NoDup l -> NoDup (Py.take n l).
Proof.
  intros H. rewrite <- (take_drop n l) in H.
  now apply NoDup_app_remove_r in H.
Qed.

Lemma NoDup_app_intro {A} (l1 l2 : list A) :
  NoDup l1 -> NoDup l2 -> (forall x, In x l1 -> ~ In x l2) ->
  NoDup (l1 ++ l2).
Proof.
  intros H1 H2 Hd. induction H1 as [ | x l1 Hx H1 IH]; cbn; [assumption | ].
  constructor.
  - rewrite in_app_iff. intros [H | H]; [contradiction | ].
    apply (Hd x); [now left | assumption].
  - apply IH. intros y Hy. apply Hd. now right.
Qed.

Lemma pair_step_inv (cards : list Card) st (g : (string * Z) * list Card) :
  NoDup (snd g) -> incl (snd g) cards ->
  pass_inv cards st -> pass_inv cards (pair_step st g).
Proof.
  intros Hnd Hin. destruct st as [comps used]. unfold pair_step, pass_inv.
  cbn [fst snd]. intros (Hc & Hu & Hi).
  destruct (Py.len (snd g) >=? 2); [ | auto].
  destruct (Py.len (filter _ _) =? 2); [ | auto].
  set (pair := filter (fun c => negb (id_in c used)) (Py.take 2 (snd g))).
  cbn [fst snd]. split; [ | split].
  - rewrite concat_app, Hc. cbn. now rewrite app_nil_r.
  - apply NoDup_app_intro; auto.
    + apply NoDup_filter, take_NoDup, Hnd.
    + intros x Hx Hp. subst pair. apply filter_In in Hp.
      destruct Hp as [_ Hp]. apply negb_true_iff in Hp.
      apply id_in_In in Hx. congruence.
  - apply incl_app; auto. intros x Hx. subst pair.
    apply filter_In in Hx. destruct Hx as [Hx _].
    apply Hin. eapply take_incl, Hx.
Qed.

Lemma pair_pass_inv (cards : list Card) groups st :
  (forall g, In g groups -> NoDup (snd g) /\ incl (snd g) cards) ->
  pass_inv cards st -> pass_inv cards (fold_left pair_step groups st).
Proof.
  revert st. induction groups as [ | g groups IH]; intros st H Hst; cbn.
  - assumption.
  - apply IH; [intros; apply H; now right | ].
    destruct (H g (or_introl eq_refl)). now apply pair_step_inv.
Qed.

Lemma single_step_inv (cards : list Card) st (c : Card) :
  In c cards -> pass_inv cards st ->
  pass_inv cards (single_step st c) /\ In c (snd (single_step st c))
  /\ incl (snd st) (snd (single_step st c)).
Proof.
  intros Hin. destruct st as [comps used]. unfold single_step, pass_inv.
  cbn [fst snd]. intros (Hc & Hu & Hi).
  destruct (id_in c used) eqn:E; cbn [negb fst snd].
  - apply id_in_In in E. repeat split; auto. apply incl_refl.
  - repeat split.
    + rewrite concat_app, Hc. reflexivity.
    + apply NoDup_app_intro; auto.
      * constructor; [intros [] | constructor].
      * intros x Hx [<- | []]. apply id_in_In in Hx. congruence.
    + apply incl_app; auto. intros x [<- | []]. assumption.
    + apply in_or_app. right. now left.
    + apply incl_appl, incl_refl.
Qed.

Lemma single_pass_inv (cards : list Card) (l : list Card) st :
  incl l cards -> pass_inv cards st ->
  pass_inv cards (fold_left single_step l st)
  /\ incl l (snd (fold_left single_step l st))
  /\ incl (snd st) (snd (fold_left single_step l st)).
Proof.
  revert st. induction l as [ | c l IH]; intros st Hl Hst; cbn.
  - split; [assumption | split; [intros x [] | apply incl_refl]].
  - destruct (single_step_inv cards st c) as (H1 & H2 & H3); auto.
    { apply Hl. now left. }
    destruct (IH (single_step st c)) as (G1 & G2 & G3); auto.
    { intros x Hx. apply Hl. now right. }
    split; [exact G1 | split].
    + intros x [<- | Hx]; [apply G3, H2 | apply G2, Hx].
    + eapply incl_tran; eassumption.
Qed.

Lemma flat_map_NoDup_elem {X} (f : X -> list Card) (l : list X) (x : X) :
  NoDup (flat_map f l) -> In x l -> NoDup (f x).
Proof.
  induction l as [ | y l IH]; cbn; intros Hnd Hin.
  - contradiction.
  - destruct Hin as [<- | Hx].
    + now apply NoDup_app_remove_r in Hnd.
    + apply IH; auto. now apply NoDup_app_remove_l in Hnd.
Qed.

Lemma decompose_groups_partition
      (groups : list ((string * Z) * list Card)) (cards : list Card) :
  Permutation (flat_map snd groups) cards -> NoDup cards ->
  Permutation (concat (decompose_groups groups)) cards.
Proof.
  intros Hperm Hnd.
  assert (Hg : NoDup (flat_map snd groups)).
  { eapply Permutation_NoDup; [apply Permutation_sym, Hperm | exact Hnd]. }
  assert (Hincl : incl (flat_map snd groups) cards).
  { intros x Hx. eapply Permutation_in; eassumption. }
  unfold decompose_groups.
  set (tractors := tractor_components groups).
  assert (H1 : pass_inv cards (tractors, concat tractors)).
  { pose proof (tractor_components_cards groups) as Hsub.
    fold tractors in Hsub. repeat split; cbn [fst snd].
    - eapply submset_NoDup; eassumption.
    - eapply incl_tran; [apply submset_incl, Hsub | exact Hincl]. }
  assert (H2 : pass_inv cards
                 (fold_left pair_step groups (tractors, concat tractors))).
  { apply pair_pass_inv; [ | exact H1]. intros g Hin. split.
    - eapply (flat_map_NoDup_elem snd); eassumption.
    - intros x Hx. apply Hincl. apply in_flat_map. eauto. }
  destruct (single_pass_inv cards (flat_map snd groups) _ Hincl H2)
    as ((Hc & Hu & Hi) & Hall & _).
  rewrite Hc. apply NoDup_Permutation; auto.
  intros x. split; [apply Hi | ].
  intros Hx. apply Hall. eapply Permutation_in;
    [apply Permutation_sym, Hperm | exact Hx].
Qed.

Lemma _decompose_partition (t : TrumpSystem) (cards : list Card) comps :
  NoDup cards -> _decompose t cards = Some comps ->
  Permutation (concat comps) cards.
Proof.
  intros Hnd. unfold _decompose.
  destruct (keyed (suit_order_key t) cards) as [ks | ] eqn:Hk;
    [ | discriminate].
  intros [= <-].
  assert (P : Permutation
                (concat (decompose_groups (group_by_key suit_order_eqb ks)))
                cards).
  { apply decompose_groups_partition; auto.
    rewrite <- (keyed_snd _ _ _ Hk). apply group_by_key_cards. }
  destruct (decompose_groups _) as [ | c cs]; [ | exact P].
  cbn in *. apply Permutation_nil in P. subst. reflexivity.
Qed.

Lemma _detect_partition (t : TrumpSystem) (cards : list Card) ty comps :
  NoDup cards -> _detect t cards = Some (ty, comps) ->
  Permutation (concat comps) cards.
Proof.
  intros Hnd. unfold _detect.
  assert (Hsame : Permutation (concat [cards]) cards).
  { cbn. now rewrite app_nil_r. }
  destruct (Py.len cards =? 1); [intros [= <- <-]; exact Hsame | ].
  assert (F : forall r,
             (components <- _decompose t cards ;;
              match components with
              | [c] => if Py.len c =? Py.len cards
                       then if Py.len cards =? 2
                            then Some (PAIR, components)
                            else Some (TRACTOR, components)
                       else Some (MULTI, components)
              | _ => Some (MULTI, components)
              end) = Some r ->
             Permutation (concat (snd r)) cards).
  { intros r. destruct (_decompose t cards) as [cs | ] eqn:Hd;
      [ | discriminate].
    pose proof (_decompose_partition t cards cs Hnd Hd) as P.
    destruct cs as [ | c [ | c' cs']]; try (intros [= <-]; exact P).
    destruct (Py.len c =? Py.len cards); [ | intros [= <-]; exact P].
    destruct (Py.len cards =? 2); intros [= <-]; exact P. }
  destruct (Py.len (Py.set_of _ _) =? 1); [ | intros H; apply (F _ H)].
  destruct (match cards with
            | [c0; c1] => same_rank_or_order t c0 c1
            | _ => Some false
            end) as [[ | ] | ]; try discriminate.
  - intros [= <- <-]. exact Hsame.
  - destruct (_try_tractor t cards) as [[ | ] | ]; try discriminate.
    + intros [= <- <-]. exact Hsame.
    + intros H. apply (F _ H).
Qed.

Lemma NoDup_app_apart {A} (l1 l2 : list A) (x : A) :
  NoDup (l1 ++ l2) -> In x l1 -> In x l2 -> False.
Proof.
  induction l1 as [ | y l1 IH]; cbn; intros Hnd H1 H2; [contradiction | ].
  inversion Hnd as [ | ? ? Hy Hnd']; subst.
  destruct H1 as [<- | H1].
  - apply Hy. apply in_or_app. now right.
  - now apply IH.
Qed.

Lemma NoDup_concat_disjoint {A} (ls : list (list A)) (i j : nat)
      (a b : list A) (x : A) :
  NoDup (concat ls) -> i <> j ->
  nth_error ls i = Some a -> nth_error ls j = Some b ->
  In x a -> ~ In x b.
Proof.
  revert i j. induction ls as [ | l ls IH]; intros i j Hnd Hij Hi Hj Ha Hb.
  - destruct i; discriminate.
  - cbn in Hnd. destruct i as [ | i], j as [ | j]; cbn in Hi, Hj.
    + congruence.
    + injection Hi as ->. apply nth_error_In in Hj.
      apply (NoDup_app_apart _ _ x Hnd Ha). apply in_concat. eauto.
    + injection Hj as ->. apply nth_error_In in Hi.
      apply (NoDup_app_apart _ _ x Hnd Hb). apply in_concat. eauto.
    + apply NoDup_app_remove_l in Hnd.
      apply (IH i j Hnd); auto.
Qed.

Lemma sum_len_concat {A} (ls : list (list A)) :
  Py.sum (map (fun c : list A => Py.len c) ls) = Py.len (concat ls).
Proof.
  induction ls as [ | l ls IH]; cbn; [reflexivity | ].
  now rewrite sum_cons, len_app, IH.
Qed.

(** C6: the combo built from pairwise different playing cards exists, and
    its components partition the cards: their sizes add up to the number of
    cards, no card is in two components, and every card is in one. *)
Theorem components_partition (t : TrumpSystem) (cards : list Card) :
  NoDup cards -> playing_cards cards ->
  exists cb,
    new_CardCombo cards t = Some cb /\
    Py.sum (map (fun c : list Card => Py.len c) (components cb))
    = Py.len cards /\
    (forall i j a b x,
        i <> j ->
        nth_error (components cb) i = Some a ->
        nth_error (components cb) j = Some b ->
        In x a -> ~ In x b) /\
    (forall x, In x cards <->
               exists comp, In comp (components cb) /\ In x comp) /\
    Permutation (concat (components cb)) cards.
Proof.
  intros Hnd Hpc. unfold new_CardCombo.
  destruct (_detect_some t cards Hpc) as ([ty comps] & Hd). rewrite Hd.
  pose proof (_detect_partition t cards ty comps Hnd Hd) as P.
  eexists. split; [reflexivity | ]. cbn [components].
  assert (Hnd' : NoDup (concat comps)).
  { eapply Permutation_NoDup; [apply Permutation_sym, P | exact Hnd]. }
  repeat split.
  - rewrite sum_len_concat. unfold Py.len.
    now rewrite (Permutation_length P).
  - intros i j a b x Hij Hi Hj. eapply NoDup_concat_disjoint; eassumption.
  - intros Hx. apply (Permutation_in x (Permutation_sym P)) in Hx.
    apply in_concat in Hx. destruct Hx as (comp & H1 & H2). eauto.
  - intros (comp & H1 & H2). apply (Permutation_in x P).
    apply in_concat. eauto.
  - exact P.
Qed.

Lemma components_partition_witness :
  exists cb,
    new_CardCombo [mkCard "♥" "3" 0; mkCard "♥" "3" 1; mkCard "♥" "4" 0;
                   mkCard "♥" "4" 1; mkCard "♥" "9" 0; mkCard "♣" "9" 0]
                  (mkTrump "♠" "2") = Some cb /\
    Py.sum (map (fun c : list Card => Py.len c) (components cb)) = 6.
Proof.
  destruct (components_partition (mkTrump "♠" "2")
              [mkCard "♥" "3" 0; mkCard "♥" "3" 1; mkCard "♥" "4" 0;
               mkCard "♥" "4" 1; mkCard "♥" "9" 0; mkCard "♣" "9" 0])
    as (cb & Hcb & Hsum & _).
  - repeat constructor; cbn; intuition discriminate.
  - intros c Hc. cbn in Hc.
    repeat (destruct Hc as [<- | Hc]; [reflexivity | ]). contradiction.
  - exists cb. split; [exact Hcb | exact Hsum].
Defined.
(* ----------------------------------------------------------------- *)
(** ** Grouping by order *)

Section Grouping.

Context {K : Type} (eqb : K -> K -> bool).
Hypothesis eqb_eq : forall a b, eqb a b = true <-> a = b.

Lemma eqb_refl' (a : K) : eqb a a = true.
Proof. now apply eqb_eq. Qed.

Lemma eqb_neq' (a b : K) : a <> b -> eqb a b = false.
Proof.
  intros H. destruct (eqb a b) eqn:E; [ | reflexivity].
  apply eqb_eq in E. contradiction.
Qed.

Lemma setdefault_append_keys (d : list (K * list Card)) k x :
  map fst (Py.setdefault_append eqb d k x)
  = if Py.contains eqb k (map fst d) then map fst d
    else map fst d ++ [k].
Proof.
  induction d as [ | [k' vs] d IH]; cbn; [reflexivity | ].
  destruct (eqb k' k) eqn:E; cbn; [reflexivity | ].
  rewrite IH. unfold Py.contains. now destruct (existsb _ (map fst d)).
Qed.

Lemma contains_keys (k : K) (l : list K) :
  Py.contains eqb k l = true <-> In k l.
Proof.
  unfold Py.contains. rewrite existsb_exists. split.
  - intros (y & Hy & E). apply eqb_eq in E. now subst.
  - intros H. exists k. split; [assumption | apply eqb_refl'].
Qed.

Lemma setdefault_append_NoDup (d : list (K * list Card)) k x :
  NoDup (map fst d) -> NoDup (map fst (Py.setdefault_append eqb d k x)).
Proof.
  intros H. rewrite setdefault_append_keys.
  destruct (Py.contains eqb k (map fst d)) eqn:E; [assumption | ].
  apply NoDup_app_intro; auto.
  - constructor; [intros [] | constructor].
  - intros y Hy [<- | []].
    apply contains_keys in Hy. congruence.
Qed.

Lemma setdefault_append_In (d : list (K * list Card)) k x k0 cs :
  NoDup (map fst d) ->
  In (k0, cs) (Py.setdefault_append eqb d k x) <->
  (k0 <> k /\ In (k0, cs) d)
  \/ (k0 = k /\ ((exists cs0, In (k, cs0) d /\ cs = cs0 ++ [x])
                 \/ (~ In k (map fst d) /\ cs = [x]))).
Proof.
  induction d as [ | [k' vs] d IH]; cbn; intros Hnd.
  - split.
    + intros [[= <- <-] | []]. right. split; auto.
    + intros [[_ []] | [-> [(cs0 & [] & _) | [_ ->]]]]. now left.
  - inversion Hnd as [ | ? ? Hk' Hnd']; subst.
    destruct (eqb k' k) eqn:E.
    + apply eqb_eq in E. subst k'. cbn. split.
      * intros [[= <- <-] | Hin].
        -- right. split; auto. left. exists vs. auto.
        -- left. split; [ | now right]. intros ->.
           apply Hk'. apply in_map_iff. exists (k, cs). auto.
      * intros [[Hne [[= -> _] | Hin]] | [-> [(cs0 & [[= <-] | H0] & ->)
                                             | [Hno _]]]].
        -- contradiction.
        -- now right.
        -- now left.
        -- exfalso. apply Hk'. apply in_map_iff. exists (k, cs0). auto.
        -- exfalso. apply Hno. now left.
    + assert (Hne : k' <> k).
      { intros ->. rewrite eqb_refl' in E. discriminate. }
      cbn. rewrite (IH Hnd'). split.
      * intros [[= <- <-] | [[H1 H2] | [-> [(cs0 & H0 & ->) | [Hno ->]]]]].
        -- left. split; auto.
        -- left. split; auto.
        -- right. split; auto. left. exists cs0. auto.
        -- right. split; auto. right. split; auto.
           intros [H | H]; [congruence | contradiction].
      * intros [[H1 [[= <- <-] | H2]]
               | [-> [(cs0 & [[= -> _] | H0] & ->) | [Hno ->]]]].
        -- now left.
        -- right. left. auto.
        -- contradiction.
        -- right. right. split; auto. left. eauto.
        -- right. right. split; auto. right. split; auto.
Qed.

Lemma filed_app k ks1 ks2 :
  filed eqb k (ks1 ++ ks2) = filed eqb k ks1 ++ filed eqb k ks2.
Proof. unfold filed. now rewrite filter_app, map_app. Qed.

Lemma filed_nil_iff k ks :
  filed eqb k ks = [] <-> ~ In k (map fst ks).
Proof.
  unfold filed. induction ks as [ | [k' c] ks IH]; cbn.
  - tauto.
  - destruct (eqb k' k) eqn:E; cbn.
    + apply eqb_eq in E. split; [discriminate | ]. intros H. exfalso. auto.
    + rewrite IH. split.
      * intros H [-> | H']; [ | contradiction].
        rewrite eqb_refl' in E. discriminate.
      * intros H H'. apply H. now right.
Qed.

Lemma groups_of_step ks d k x :
  groups_of eqb ks d ->
  groups_of eqb (ks ++ [(k, x)]) (Py.setdefault_append eqb d k x).
Proof.
  intros (Hnd & Hkeys & Hcs). split; [ | split].
  - now apply setdefault_append_NoDup.
  - intros k0. rewrite setdefault_append_keys, map_app, in_app_iff. cbn.
    destruct (Py.contains eqb k (map fst d)) eqn:E.
    + apply contains_keys in E. rewrite Hkeys. split; [tauto | ].
      intros [H | [<- | []]]; [assumption | now apply Hkeys].
    + rewrite in_app_iff, Hkeys. cbn. tauto.
  - intros k0 cs Hin. apply setdefault_append_In in Hin; [ | assumption].
    rewrite filed_app. unfold filed at 2. cbn.
    destruct Hin as [[Hne Hin] | [-> [(cs0 & H0 & ->) | [Hno ->]]]].
    + rewrite (eqb_neq' k k0) by congruence. cbn.
      rewrite app_nil_r. now apply Hcs.
    + rewrite eqb_refl'. cbn. f_equal. now apply Hcs.
    + rewrite eqb_refl'. cbn.
      assert (E : filed eqb k ks = []).
      { apply filed_nil_iff. now rewrite <- Hkeys. }
      now rewrite E.
Qed.

Lemma group_by_key_spec (ks : list (K * Card)) :
  groups_of eqb ks (group_by_key eqb ks).
Proof.
  unfold group_by_key.
  assert (G : forall pre d,
             groups_of eqb pre d ->
             groups_of eqb (pre ++ ks)
               (fold_left (fun g kc =>
                  Py.setdefault_append eqb g (fst kc) (snd kc)) ks d)).
  { induction ks as [ | [k x] ks IH]; intros pre d H; cbn.
    - now rewrite app_nil_r.
    - replace (pre ++ (k, x) :: ks) with ((pre ++ [(k, x)]) ++ ks)
        by (now rewrite <- app_assoc).
      apply IH. now apply groups_of_step. }
  apply (G [] []). repeat split; cbn; try tauto. constructor.
Qed.

Lemma groups_of_entry ks d k :
  groups_of eqb ks d -> In k (map fst ks) -> In (k, filed eqb k ks) d.
Proof.
  intros (Hnd & Hkeys & Hcs) Hk. apply Hkeys in Hk.
  apply in_map_iff in Hk. destruct Hk as ([k' cs] & <- & Hin).
  cbn. now rewrite <- (Hcs _ _ Hin).
Qed.

End Grouping.

(** *** Pairs held in a suit *)

Lemma Z_eqb_eq' (a b : Z) : (a =? b) = true <-> a = b.
Proof. apply Z.eqb_eq. Qed.

Lemma filed_order (t : TrumpSystem) (l : list Card) ks (o : Z) :
  keyed (order_of t) l = Some ks ->
  filed Z.eqb o ks = filter (has_order t o) l.
Proof.
  unfold keyed, filed. revert ks.
  induction l as [ | c l IH]; intros ks; cbn.
  - now intros [= <-].
  - unfold has_order at 1. destruct (order_of t c) as [oc | ] eqn:Hc;
      [ | discriminate].
    destruct (Py.mapM _ l) as [ks' | ]; [ | discriminate].
    intros [= <-]. cbn. destruct (oc =? o); cbn; now rewrite (IH ks' eq_refl).
Qed.

Lemma keyed_keys (t : TrumpSystem) (l : list Card) ks (o : Z) :
  keyed (order_of t) l = Some ks ->
  (In o (map fst ks) <-> exists c, In c l /\ order_of t c = Some o).
Proof.
  unfold keyed. revert ks. induction l as [ | c l IH]; intros ks; cbn.
  - intros [= <-]. cbn. split; [tauto | intros (c & [] & _)].
  - destruct (order_of t c) as [oc | ] eqn:Hc; [ | discriminate].
    destruct (Py.mapM _ l) as [ks' | ]; [ | discriminate].
    intros [= <-]. cbn. rewrite (IH ks' eq_refl). split.
    + intros [<- | (c' & H1 & H2)]; eauto.
    + intros (c' & [<- | H1] & H2); [left; congruence | right; eauto].
Qed.

Lemma filter_len_le {A} (f : A -> bool) (l : list A) :
  Py.len (filter f l) <= Py.len l.
Proof. unfold Py.len. pose proof (filter_length_le f l). lia. Qed.

Lemma pair_orders_of_In (groups : list (Z * list Card)) (o : Z) :
  In o (pair_orders_of groups) <->
  exists cs, In (o, cs) groups /\ 2 <= Py.len cs.
Proof.
  unfold pair_orders_of. split.
  - intros H. apply (Permutation_in _ (Permutation_sym (sorted_by_perm _ _)))
      in H.
    apply in_map_iff in H. destruct H as ([o' cs] & <- & H).
    apply filter_In in H. destruct H as [H1 H2]. cbn in *.
    exists cs. split; [assumption | ]. apply Z.geb_le in H2. lia.
  - intros (cs & H1 & H2).
    apply (Permutation_in _ (sorted_by_perm _ _)).
    apply in_map_iff. exists (o, cs). split; [reflexivity | ].
    apply filter_In. split; [assumption | ]. cbn. apply Z.geb_le. lia.
Qed.

(** The orders paired in a suit are the orders held at least twice. *)
Lemma pair_orders_held (t : TrumpSystem) (l : list Card) g (o : Z) :
  _group_by_order t l = Some g ->
  (In o (pair_orders_of g) <-> 2 <= held t o l).
Proof.
  unfold _group_by_order.
  destruct (keyed (order_of t) l) as [ks | ] eqn:Hk; [ | discriminate].
  intros [= <-]. pose proof (group_by_key_spec Z.eqb Z_eqb_eq' ks) as Hg.
  rewrite pair_orders_of_In. unfold held.
  rewrite <- (filed_order t l ks o Hk). split.
  - intros (cs & Hin & Hlen). destruct Hg as (_ & _ & Hcs).
    now rewrite <- (Hcs _ _ Hin).
  - intros Hlen. exists (filed Z.eqb o ks). split; [ | assumption].
    apply (groups_of_entry Z.eqb ks); [assumption | ].
    destruct (filed_nil_iff Z.eqb Z_eqb_eq' o ks) as [_ Hn].
    destruct (in_dec Z.eq_dec o (map fst ks)) as [Hi | Hi]; [assumption | ].
    rewrite (Hn Hi) in Hlen. rewrite len_nil in Hlen. lia.
Qed.

(** *** Runs of consecutive orders *)

Lemma runs_nonempty {X} (key : X -> Z) (l : list X) :
  forall r, In r (runs key l) -> r <> [].
Proof.
  induction l as [ | x l IH]; cbn; [intros r [] | ].
  destruct (runs key l) as [ | [ | y run] rest].
  - intros r [<- | []]. discriminate.
  - intros r [<- | H]; [discriminate | ]. apply IH. exact H.
  - destruct (key y - key x =? 1).
    + intros r [<- | H]; [discriminate | ]. apply IH. now right.
    + intros r [<- | H]; [discriminate | ]. apply IH. exact H.
Qed.

Lemma runs_chain (l : list Z) :
  forall r, In r (runs (fun o => o) l) -> all_consecutive r = true.
Proof.
  induction l as [ | x l IH]; cbn; [intros r [] | ].
  destruct (runs (fun o => o) l) as [ | [ | y run] rest].
  - intros r [<- | []]. reflexivity.
  - intros r [<- | H]; [reflexivity | ]. apply IH. exact H.
  - destruct (y - x =? 1) eqn:E.
    + intros r [<- | H].
      * cbn. rewrite E. cbn. apply (IH (y :: run)). now left.
      * apply IH. now right.
    + intros r [<- | H]; [reflexivity | ]. apply IH. exact H.
Qed.

Lemma runs_incl {X} (key : X -> Z) (l : list X) r :
  In r (runs key l) -> incl r l.
Proof.
  intros H x Hx. rewrite <- (runs_concat key l). apply in_concat. eauto.
Qed.

Lemma chain_neighbour (r : list Z) (o : Z) :
  all_consecutive r = true -> 2 <= Py.len r -> In o r ->
  In (o + 1) r \/ In (o - 1) r.
Proof.
  induction r as [ | a r IH]; [intros _ _ [] | ].
  destruct r as [ | b r].
  - rewrite len_cons, len_nil. lia.
  - intros Hc _ Hin. cbn in Hc. apply andb_true_iff in Hc.
    destruct Hc as [Hab Hc]. apply Z.eqb_eq in Hab.
    destruct Hin as [<- | Hin].
    + left. right. left. lia.
    + destruct r as [ | c r].
      * destruct Hin as [<- | []]. right. left. lia.
      * destruct Hin as [<- | Hin'].
        -- right. left. lia.
        -- destruct (IH Hc) as [H | H].
           ++ rewrite !len_cons. pose proof (len_nonneg r). lia.
           ++ right. exact Hin'.
           ++ left. now right.
           ++ right. now right.
Qed.

Lemma used_in_tractor_neighbour (po : list Z) (o : Z) :
  In o (used_in_tractor po) -> In (o + 1) po \/ In (o - 1) po.
Proof.
  unfold used_in_tractor, tractor_runs. intros H.
  apply in_concat in H. destruct H as (r & Hr & Ho).
  apply filter_In in Hr. destruct Hr as [Hr Hlen].
  apply Z.geb_le in Hlen.
  destruct (chain_neighbour r o (runs_chain po r Hr) Hlen Ho) as [H | H];
    [left | right]; eapply runs_incl; eassumption.
Qed.

(** A paired order with no paired neighbour is a free pair. *)
Lemma free_pair_count_pos (po : list Z) (o : Z) :
  In o po -> ~ In (o + 1) po -> ~ In (o - 1) po ->
  1 <= free_pair_count po.
Proof.
  intros Ho Hup Hdown. unfold free_pair_count.
  assert (Hin : In o (filter (fun o => negb (Py.contains Z.eqb o
                                              (used_in_tractor po))) po)).
  { apply filter_In. split; [assumption | ]. apply negb_true_iff.
    destruct (Py.contains Z.eqb o (used_in_tractor po)) eqn:E;
      [ | reflexivity].
    apply (contains_keys Z.eqb Z_eqb_eq') in E.
    destruct (used_in_tractor_neighbour po o E); contradiction. }
  destruct (filter _ po) as [ | x l]; [destruct Hin | ].
  rewrite len_cons. pose proof (len_nonneg l). lia.
Qed.

Lemma tractor_pair_count_nonneg (po : list Z) : 0 <= tractor_pair_count po.
Proof.
  unfold tractor_pair_count. rewrite sum_len_concat. apply len_nonneg.
Qed.

Lemma free_pair_count_nonneg (po : list Z) : 0 <= free_pair_count po.
Proof. apply len_nonneg. Qed.
(* ----------------------------------------------------------------- *)
(** ** Following a led pair *)

Lemma playing_card_suit_not_TRUMP (c : Card) :
  playing_card c = true -> suit c <> TRUMP.
Proof.
  intros Hc E.
  destruct (playing_card_cases _ Hc) as [(Hs & _) | [[Hs _] | [Hs _]]];
    rewrite E in Hs; try discriminate.
  unfold SUITS in Hs. cbn in Hs.
  destruct Hs as [H | [H | [H | [H | []]]]]; discriminate.
Qed.

Lemma same_suit_same_trump (t : TrumpSystem) (a b : Card) :
  playing_card a = true -> playing_card b = true ->
  effective_suit t a = effective_suit t b -> is_trump t a = is_trump t b.
Proof.
  intros Ha Hb. unfold effective_suit.
  destruct (is_trump t a), (is_trump t b); auto; intros E.
  - symmetry in E. now apply playing_card_suit_not_TRUMP in E.
  - now apply playing_card_suit_not_TRUMP in E.
Qed.

Lemma pair_lead_combo (t : TrumpSystem) (a b : Card) :
  playing_card a = true -> playing_card b = true ->
  effective_suit t a = effective_suit t b ->
  order_of t a = order_of t b ->
  new_CardCombo [a; b] t = Some (mkCombo [a; b] t PAIR [[a; b]]).
Proof.
  intros Ha Hb Hs Ho. unfold new_CardCombo, _detect.
  change (Py.len [a; b]) with 2. cbn [Z.eqb Pos.eqb map].
  rewrite <- Hs. cbn [Py.set_of Py.contains existsb].
  rewrite String.eqb_refl. cbn [orb].
  change (Py.len [effective_suit t a]) with 1. cbn [Z.eqb Pos.eqb].
  assert (E : same_rank_or_order t a b = Some true).
  { unfold same_rank_or_order.
    destruct (String.eqb_spec (rank a) (rank b)) as [Er | Er];
      [reflexivity | ].
    pose proof (same_suit_same_trump t a b Ha Hb Hs) as Ht.
    unfold order_of in Ho. rewrite <- Ht in *.
    destruct (is_trump t a) eqn:Ta; cbn.
    - destruct (trump_order_band t a Ha Ta) as (oa & Hoa & _).
      rewrite <- Ho, Hoa. now rewrite Z.eqb_refl.
    - exfalso. apply Er.
      destruct (order_of_some t a Ha) as (o & Hoa).
      unfold order_of in Hoa. rewrite Ta in Hoa.
      eapply RANK_VAL_inj; [exact Hoa | now rewrite <- Ho]. }
  rewrite E. reflexivity.
Qed.

Lemma required_follow_pair (t : TrumpSystem) (a b : Card)
      (hand : list Card) :
  playing_cards hand ->
  let his := filter (in_led_suit t (effective_suit t a)) hand in
  exists req,
    required_follow_structure (mkCombo [a; b] t PAIR [[a; b]]) hand t
    = Some req /\
    req_tractors req = 0 /\ req_total req <= 2 /\
    0 <= req_pair_cards req <= 2 /\
    (req_total req > 0 ->
     exists tp fp, req_avail_tractor_pairs req = Some tp
                   /\ req_avail_free_pairs req = Some fp) /\
    (forall g, _group_by_order t his = Some g ->
               1 <= free_pair_count (pair_orders_of g) ->
               2 <= Py.len his ->
               req_total req = 2 /\ req_pair_cards req = 2).
Proof.
  intros Hpc his. unfold required_follow_structure.
  cbn [combo_effective_suit combo_cards combo_trump components].
  fold his.
  destruct (Py.len his =? 0) eqn:E0.
  { apply Z.eqb_eq in E0. eexists. split; [reflexivity | ]. cbn.
    repeat split; try lia. }
  destruct (_group_by_order_some t his) as (g & Hg).
  { intros c Hc. apply Hpc. apply filter_In in Hc. tauto. }
  rewrite Hg.
  assert (Ed : fold_left demand_step
                 (Py.sorted_by (fun c : list Card => - Py.len c) [[a; b]])
                 (0, 0, 0) = (0, 1, 0)) by reflexivity.
  rewrite Ed. cbv zeta. change (Py.len [a; b]) with 2.
  pose proof (tractor_pair_count_nonneg (pair_orders_of g)) as Htp.
  pose proof (free_pair_count_nonneg (pair_orders_of g)) as Hfp.
  pose proof (len_nonneg his) as Hn.
  eexists. split; [reflexivity | ]. cbn [req_tractors req_total
    req_pair_cards req_avail_tractor_pairs req_avail_free_pairs].
  split; [lia | ]. split; [lia | ]. split; [lia | ].
  split; [intros _; eauto | ].
  intros g' Hg' Hfree Hlen. injection Hg' as <-. lia.
Qed.

Lemma group_two_same (t : TrumpSystem) (x y : Card) (o : Z) :
  order_of t x = Some o -> order_of t y = Some o ->
  _group_by_order t [x; y] = Some [(o, [x; y])].
Proof.
  intros Hx Hy. unfold _group_by_order, keyed. cbn. rewrite Hx, Hy.
  unfold group_by_key. cbn. now rewrite Z.eqb_refl.
Qed.

Lemma group_two_apart (t : TrumpSystem) (x y : Card) (ox oy : Z) :
  order_of t x = Some ox -> order_of t y = Some oy -> ox <> oy ->
  _group_by_order t [x; y] = Some [(ox, [x]); (oy, [y])].
Proof.
  intros Hx Hy Hne. unfold _group_by_order, keyed. cbn. rewrite Hx, Hy.
  unfold group_by_key. cbn. apply Z.eqb_neq in Hne. now rewrite Hne.
Qed.

(** The pair rule where the code enforces it: against a led pair, a follower
    who holds a pair of the led suit whose order is not next to another
    paired order of his (a free pair) may not answer with two led-suit cards
    of different orders; two led-suit cards of one order are always
    accepted. *)
Theorem pair_follow_rule (t : TrumpSystem) (a b x y : Card)
        (hand : list Card) (o : Z) :
  playing_card a = true -> playing_card b = true ->
  effective_suit t a = effective_suit t b ->
  order_of t a = order_of t b ->
  playing_cards hand ->
  playing_card x = true -> playing_card y = true ->
  effective_suit t x = effective_suit t a ->
  effective_suit t y = effective_suit t a ->
  let his := filter (in_led_suit t (effective_suit t a)) hand in
  exists led,
    new_CardCombo [a; b] t = Some led /\
    combo_type led = PAIR /\
    (order_of t x = order_of t y ->
     is_valid_follow [x; y] led hand t = Some (true, "")) /\
    (order_of t x <> order_of t y ->
     2 <= held t o his -> held t (o + 1) his < 2 -> held t (o - 1) his < 2 ->
     exists reason,
       is_valid_follow [x; y] led hand t = Some (false, reason)).
Proof.
  intros Ha Hb Hs Ho Hpc Hx Hy Sx Sy his.
  exists (mkCombo [a; b] t PAIR [[a; b]]).
  split; [now apply pair_lead_combo | ]. split; [reflexivity | ].
  destruct (required_follow_pair t a b hand Hpc)
    as (req & Hreq & Htr & Htot & Hpair & Havail & Hfree).
  fold his in Hfree.
  destruct (order_of_some t x Hx) as (ox & Hox).
  destruct (order_of_some t y Hy) as (oy & Hoy).
  assert (Hplay : filter (in_led_suit t (effective_suit t a)) [x; y]
                  = [x; y]).
  { cbn. unfold in_led_suit. rewrite Sx, Sy, String.eqb_refl. reflexivity. }
  assert (Hhead : forall k,
    is_valid_follow [x; y] (mkCombo [a; b] t PAIR [[a; b]]) hand t
    = (if 2 <? req_total req then k
       else if (2 >=? req_total req) && (req_total req >? 0) then
         play_suit_groups <- _group_by_order t [x; y] ;;
         avail_tp <- req_avail_tractor_pairs req ;;
         avail_fp <- req_avail_free_pairs req ;;
         if tractor_pair_count (pair_orders_of play_suit_groups)
            <? req_tractors req / 2
         then Some (false,
              "You must play " +++ Py.str (req_tractors req / 2) +++
              " tractor pair(s) from " +++ effective_suit t a +++
              " — you have them but didn't play them.")
         else if free_pair_count (pair_orders_of play_suit_groups)
                 <? req_pair_cards req / 2
         then Some (false,
              "You must play " +++ Py.str (req_pair_cards req / 2) +++
              " pair(s) from " +++ effective_suit t a +++
              " — you have them but played a non-pair instead.")
         else Some (true, "")
       else Some (true, ""))).
  { intros k. unfold is_valid_follow.
    cbn [combo_cards combo_effective_suit combo_trump].
    change (Py.len [x; y]) with 2. change (Py.len [a; b]) with 2.
    cbn [Z.eqb Pos.eqb negb]. rewrite Hreq, Hplay.
    change (Py.len [x; y]) with 2.
    destruct (2 <? req_total req) eqn:E; [ | reflexivity].
    apply Z.ltb_lt in E. lia. }
  split.
  - intros Hsame. rewrite (Hhead None).
    destruct (2 <? req_total req) eqn:E1; [apply Z.ltb_lt in E1; lia | ].
    destruct ((2 >=? req_total req) && (req_total req >? 0)) eqn:E2;
      [ | reflexivity].
    apply andb_true_iff in E2. destruct E2 as [_ E2].
    apply Z.gtb_lt in E2.
    destruct (Havail ltac:(lia)) as (tp & fp & -> & ->).
    assert (Hoy' : order_of t y = Some ox) by congruence.
    rewrite (group_two_same t x y ox Hox Hoy').
    change (tractor_pair_count (pair_orders_of [(ox, [x; y])])) with 0.
    change (free_pair_count (pair_orders_of [(ox, [x; y])]))
      with (Py.len (filter (fun o => negb (Py.contains Z.eqb o []))
                           [ox])).
    cbn [filter Py.contains existsb negb].
    change (Py.len [ox]) with 1.
    rewrite Htr. cbn [Z.div Z.ltb Z.compare].
    destruct (1 <? req_pair_cards req / 2) eqn:E3; [ | reflexivity].
    apply Z.ltb_lt in E3.
    assert (req_pair_cards req / 2 <= 1).
    { apply Z.div_le_upper_bound; lia. }
    lia.
  - intros Hdiff Hheld Hup Hdown.
    destruct (_group_by_order_some t his) as (g & Hg).
    { intros c Hc. apply Hpc. apply filter_In in Hc. tauto. }
    assert (Hfp : 1 <= free_pair_count (pair_orders_of g)).
    { apply (free_pair_count_pos _ o).
      - now apply (pair_orders_held t his g o Hg).
      - rewrite (pair_orders_held t his g (o + 1) Hg). lia.
      - rewrite (pair_orders_held t his g (o - 1) Hg). lia. }
    assert (Hlen : 2 <= Py.len his).
    { unfold held in Hheld.
      pose proof (filter_len_le (has_order t o) his). lia. }
    destruct (Hfree g Hg Hfp Hlen) as [Et Ep].
    rewrite (Hhead None). rewrite Et. cbn [Z.ltb Z.compare Pos.compare
      Pos.compare_cont Z.geb Z.gtb andb].
    rewrite Et in Havail.
    destruct (Havail ltac:(lia)) as (tp & fp & -> & ->).
    assert (Hne : ox <> oy) by congruence.
    rewrite (group_two_apart t x y ox oy Hox Hoy Hne).
    change (pair_orders_of [(ox, [x]); (oy, [y])]) with (@nil Z).
    change (tractor_pair_count []) with 0.
    change (free_pair_count []) with 0.
    rewrite Htr, Ep. cbn [Z.div Z.ltb Z.compare].
    eexists. reflexivity.
Qed.

Lemma pair_follow_rule_witness :
  let t := mkTrump "♠" "2" in
  let hand := [mkCard "♥" "3" 0; mkCard "♥" "3" 1; mkCard "♥" "7" 0;
               mkCard "♣" "9" 0] in
  exists led reason,
    new_CardCombo [mkCard "♥" "5" 0; mkCard "♥" "5" 1] t = Some led /\
    is_valid_follow [mkCard "♥" "3" 0; mkCard "♥" "3" 1] led hand t
    = Some (true, "") /\
    is_valid_follow [mkCard "♥" "3" 0; mkCard "♥" "7" 0] led hand t
    = Some (false, reason).
Proof.
  intros t hand.
  assert (Hhand : playing_cards hand).
  { intros c Hc. cbn in Hc.
    repeat (destruct Hc as [<- | Hc]; [reflexivity | ]). contradiction. }
  destruct (pair_follow_rule t (mkCard "♥" "5" 0) (mkCard "♥" "5" 1)
              (mkCard "♥" "3" 0) (mkCard "♥" "7" 0) hand 1
              eq_refl eq_refl eq_refl eq_refl Hhand eq_refl eq_refl
              eq_refl eq_refl)
    as (led & Hled & _ & _ & Hreject).
  destruct Hreject as (reason & Hr).
  - vm_compute. discriminate.
  - vm_compute. intros H. discriminate H.
  - vm_compute. reflexivity.
  - vm_compute. reflexivity.
  - exists led, reason. split; [exact Hled | ]. split; [ | exact Hr].
    vm_compute in Hled. injection Hled as <-. vm_compute. reflexivity.
Defined.

(** Where the pairs of the follower stand in a run the rule is not
    enforced: holding the pairs of 3 and of 4 of hearts, the follower may
    answer a led pair of hearts with one 3 and one 4. *)
Lemma pair_follow_spec_counterexample :
  let t := mkTrump "♠" "2" in
  let hand := [mkCard "♥" "3" 0; mkCard "♥" "3" 1; mkCard "♥" "4" 0;
               mkCard "♥" "4" 1; mkCard "♣" "9" 0] in
  exists led,
    new_CardCombo [mkCard "♥" "5" 0; mkCard "♥" "5" 1] t = Some led /\
    combo_type led = PAIR /\
    order_of t (mkCard "♥" "3" 0) <> order_of t (mkCard "♥" "4" 0) /\
    is_valid_follow [mkCard "♥" "3" 0; mkCard "♥" "4" 0] led hand t
    = Some (true, "").
Proof.
  cbv zeta. eexists. split; [vm_compute; reflexivity | ].
  split; [reflexivity | ]. split; [vm_compute; discriminate | ].
  vm_compute. reflexivity.
Qed.

(** C4 fails on the code when the pairs of the follower stand in a run.
    Against a led pair of hearts, the hand 3-3-7-9 of hearts must answer
    with its pair: 7 and 9 are rejected.  Give the same hand the pair 4-4 as
    well: the two pairs now count as a tractor and not as free pairs, the
    pair demand drops to zero, and the same 7 and 9 are accepted while both
    pairs stay in the hand.  The pair itself is accepted in both hands. *)
Theorem pair_follow_held_pairs_broken :
  let t := mkTrump "♠" "2" in
  let led := mkCombo [mkCard "♥" "5" 0; mkCard "♥" "5" 1] t PAIR
                     [[mkCard "♥" "5" 0; mkCard "♥" "5" 1]] in
  let play := [mkCard "♥" "7" 0; mkCard "♥" "9" 0] in
  let pair := [mkCard "♥" "3" 0; mkCard "♥" "3" 1] in
  let hand1 := [mkCard "♥" "3" 0; mkCard "♥" "3" 1; mkCard "♥" "7" 0;
                mkCard "♥" "9" 0; mkCard "♣" "9" 0] in
  let hand2 := [mkCard "♥" "3" 0; mkCard "♥" "3" 1; mkCard "♥" "4" 0;
                mkCard "♥" "4" 1; mkCard "♥" "7" 0; mkCard "♥" "9" 0;
                mkCard "♣" "9" 0] in
  new_CardCombo [mkCard "♥" "5" 0; mkCard "♥" "5" 1] t = Some led /\
  option_map req_pair_cards (required_follow_structure led hand1 t)
  = Some 2 /\
  option_map fst (is_valid_follow play led hand1 t) = Some false /\
  is_valid_follow pair led hand1 t = Some (true, "") /\
  option_map req_pair_cards (required_follow_structure led hand2 t)
  = Some 0 /\
  option_map req_avail_tractor_pairs (required_follow_structure led hand2 t)
  = Some (Some 2) /\
  option_map req_avail_free_pairs (required_follow_structure led hand2 t)
  = Some (Some 0) /\
  is_valid_follow play led hand2 t = Some (true, "") /\
  is_valid_follow pair led hand2 t = Some (true, "").
Proof.
  cbv zeta. repeat (split; [vm_compute; reflexivity | ]).
  vm_compute. reflexivity.
Qed.

(* ----------------------------------------------------------------- *)
(** ** Trick resolution *)

(** A play with no card of the led suit and no trump never beats. *)
Lemma _play_beats_off_suit (t : TrumpSystem) (challenger incumbent : list Card)
      (led_components : list (list Card)) (led_suit : string) :
  (forall c, In c challenger ->
             effective_suit t c <> led_suit /\ effective_suit t c <> TRUMP) ->
  _play_beats t challenger incumbent led_components led_suit = Some false.
Proof.
  intros H. unfold _play_beats.
  assert (E : forall s, (s = led_suit \/ s = TRUMP) ->
              Py.contains String.eqb s (map (effective_suit t) challenger)
              = false).
  { intros s Hs.
    destruct (Py.contains String.eqb s _) eqn:E; [ | reflexivity].
    apply contains_string_In in E. apply in_map_iff in E.
    destruct E as (c & Hc & Hin). destruct (H c Hin) as [H1 H2].
    destruct Hs; congruence. }
  rewrite (E led_suit), (E TRUMP); auto.
Qed.

(** A play that beats wins every slot of the template it was given. *)
Lemma all_slots_beat_every (t : TrumpSystem) (led_suit : string)
      (c_comps i_comps led_components : list (list Card)) :
  all_slots_beat t led_suit c_comps i_comps led_components = Some true ->
  forall k c i l,
    nth_error c_comps k = Some c -> nth_error i_comps k = Some i ->
    nth_error led_components k = Some l ->
    _component_beats t c i l led_suit = Some true.
Proof.
  revert i_comps led_components.
  induction c_comps as [ | c0 cs IH]; intros [ | i0 is_] [ | l0 ls] Hall k;
    try (destruct k; discriminate).
  cbn in Hall.
  destruct (_component_beats t c0 i0 l0 led_suit) as [[ | ] | ] eqn:E;
    try discriminate.
  cbn in Hall. destruct k as [ | k]; cbn.
  - intros c i l [= <-] [= <-] [= <-]. exact E.
  - apply (IH is_ ls Hall k).
Qed.

Lemma _play_beats_every_slot (t : TrumpSystem)
      (challenger incumbent : list Card)
      (led_components : list (list Card)) (led_suit : string) :
  _play_beats t challenger incumbent led_components led_suit = Some true ->
  exists c_comps i_comps,
    _match_components t challenger led_components = Some c_comps /\
    _match_components t incumbent led_components = Some i_comps /\
    forall k c i l,
      nth_error c_comps k = Some c -> nth_error i_comps k = Some i ->
      nth_error led_components k = Some l ->
      _component_beats t c i l led_suit = Some true.
Proof.
  unfold _play_beats. destruct (_ && _); [discriminate | ].
  destruct (_match_components t challenger led_components) as [cc | ];
    [ | discriminate].
  destruct (_match_components t incumbent led_components) as [ic | ];
    [ | discriminate].
  intros H. exists cc, ic. repeat split.
  now apply all_slots_beat_every.
Qed.

(** The first play is the first provisional best; a later play replaces the
    best exactly when [_play_beats] says so; the player of the last best is
    returned. *)
Lemma winner_unfold (tr : Trick) (led : CardCombo) (led_suit : string)
      first rest :
  is_complete tr = true -> led_combo tr = Some led ->
  combo_effective_suit led = Some led_suit ->
  plays tr = first :: rest ->
  winner tr = winner_loop (trick_trump tr) (components led) led_suit
                          first rest.
Proof.
  intros Hc Hl Hs Hp. unfold winner. now rewrite Hc, Hl, Hs, Hp.
Qed.

Lemma winner_loop_end (t : TrumpSystem) comps led_suit best :
  winner_loop t comps led_suit best [] = Some (fst best).
Proof. reflexivity. Qed.

Lemma winner_loop_step (t : TrumpSystem) comps led_suit best p cards rest b :
  _play_beats t cards (snd best) comps led_suit = Some b ->
  winner_loop t comps led_suit best ((p, cards) :: rest)
  = winner_loop t comps led_suit (if b then (p, cards) else best) rest.
Proof. intros H. cbn. now rewrite H. Qed.

Lemma winner_loop_skips_off_suit (t : TrumpSystem) comps led_suit best
      p cards rest :
  (forall c, In c cards ->
             effective_suit t c <> led_suit /\ effective_suit t c <> TRUMP) ->
  winner_loop t comps led_suit best ((p, cards) :: rest)
  = winner_loop t comps led_suit best rest.
Proof.
  intros H.
  now rewrite (winner_loop_step t comps led_suit best p cards rest false
                 (_play_beats_off_suit t cards (snd best) comps led_suit H)).
Qed.

(** The winner is the leader or a later player whose play holds a card of
    the led suit or a trump. *)
Lemma winner_loop_from (t : TrumpSystem) comps led_suit best rest w :
  winner_loop t comps led_suit best rest = Some w ->
  w = fst best \/
  exists p cards c,
    In (p, cards) rest /\ w = p /\ In c cards /\
    (effective_suit t c = led_suit \/ effective_suit t c = TRUMP).
Proof.
  revert best. induction rest as [ | [p cards] rest IH]; intros best; cbn.
  - intros [= <-]. now left.
  - destruct (_play_beats t cards (snd best) comps led_suit) as [b | ] eqn:E;
      [ | discriminate].
    intros H. apply IH in H. destruct H as [-> | (p' & cs & c & Hin & H)].
    + destruct b; [ | now left]. right. cbn.
      unfold _play_beats in E.
      destruct (Py.contains String.eqb led_suit
                  (map (effective_suit t) cards)) eqn:E1.
      * apply contains_string_In in E1. apply in_map_iff in E1.
        destruct E1 as (c & Hc & Hin). exists p, cards, c. auto.
      * destruct (Py.contains String.eqb TRUMP
                    (map (effective_suit t) cards)) eqn:E2;
          [ | discriminate].
        apply contains_string_In in E2. apply in_map_iff in E2.
        destruct E2 as (c & Hc & Hin). exists p, cards, c. auto.
    + right. exists p', cs, c. split; [now right | exact H].
Qed.

(** C3 fails on the code where the lead decomposes into a shorter tractor
    followed by a longer one.  Hearts 3-3-4-4 and 6-6-7-7-8-8 are led; the
    component list is [4 cards; 6 cards], not largest first, and [winner]
    uses it as it is.  The second player's ten trumps A-A-K-K and
    J-J-10-10-9-9 then win both slots and take the trick, although against
    the template sorted largest first their first slot A-A-K-K-J-J is no
    tractor and does not beat. *)
Theorem winner_template_not_largest_first :
  let t := mkTrump "♠" "2" in
  let lead := [mkCard "♥" "3" 0; mkCard "♥" "3" 1; mkCard "♥" "4" 0;
               mkCard "♥" "4" 1; mkCard "♥" "6" 0; mkCard "♥" "6" 1;
               mkCard "♥" "7" 0; mkCard "♥" "7" 1; mkCard "♥" "8" 0;
               mkCard "♥" "8" 1] in
  let second := [mkCard "♠" "A" 0; mkCard "♠" "A" 1; mkCard "♠" "K" 0;
                 mkCard "♠" "K" 1; mkCard "♠" "J" 0; mkCard "♠" "J" 1;
                 mkCard "♠" "10" 0; mkCard "♠" "10" 1; mkCard "♠" "9" 0;
                 mkCard "♠" "9" 1] in
  let third := [mkCard "♣" "A" 0; mkCard "♣" "A" 1; mkCard "♣" "K" 0;
                mkCard "♣" "K" 1; mkCard "♣" "J" 0; mkCard "♣" "J" 1;
                mkCard "♣" "10" 0; mkCard "♣" "10" 1; mkCard "♣" "9" 0;
                mkCard "♣" "9" 1] in
  let fourth := [mkCard "♦" "A" 0; mkCard "♦" "A" 1; mkCard "♦" "K" 0;
                 mkCard "♦" "K" 1; mkCard "♦" "J" 0; mkCard "♦" "J" 1;
                 mkCard "♦" "10" 0; mkCard "♦" "10" 1; mkCard "♦" "9" 0;
                 mkCard "♦" "9" 1] in
  exists t1 t2 t3 t4 led largest_first c1 c2 i1 i2 l1 l2,
    trick_play (new_Trick t 0) 0 lead = Some t1 /\
    trick_play t1 1 second = Some t2 /\
    trick_play t2 2 third = Some t3 /\
    trick_play t3 3 fourth = Some t4 /\
    led_combo t4 = Some led /\
    map (fun c : list Card => Py.len c) (components led) = [4; 6] /\
    winner t4 = Some 1 /\
    largest_first
    = Py.sorted_by (fun c : list Card => - Py.len c) (components led) /\
    largest_first = [l1; l2] /\
    _match_components t second largest_first = Some [c1; c2] /\
    _match_components t lead largest_first = Some [i1; i2] /\
    _component_beats t c1 i1 l1 "♥" = Some false.
Proof.
  cbv zeta. do 12 eexists.
  repeat (split; [vm_compute; reflexivity | ]).
  vm_compute. reflexivity.
Qed.

(* ----------------------------------------------------------------- *)
(** ** The fallback follow *)

(** C8 fails on the code: a tractor of three pairs is led and the follower
    holds two separate runs of two pairs in the suit.  The obligation is
    computed as three tractor pairs; [build_valid_follow] takes the first run
    and one pair of the second, which make only two tractor pairs, and
    [is_valid_follow] rejects what it built. *)
Theorem build_valid_follow_rejected :
  let t := mkTrump "♠" "2" in
  let lead := [mkCard "♥" "3" 0; mkCard "♥" "3" 1; mkCard "♥" "4" 0;
               mkCard "♥" "4" 1; mkCard "♥" "5" 0; mkCard "♥" "5" 1] in
  let hand := [mkCard "♥" "7" 0; mkCard "♥" "7" 1; mkCard "♥" "8" 0;
               mkCard "♥" "8" 1; mkCard "♥" "10" 0; mkCard "♥" "10" 1;
               mkCard "♥" "J" 0; mkCard "♥" "J" 1; mkCard "♣" "9" 0;
               mkCard "♦" "9" 0] in
  exists led follow,
    is_valid_lead lead t = (true, "") /\
    new_CardCombo lead t = Some led /\
    build_valid_follow led hand t = Some follow /\
    follow = [mkCard "♥" "7" 0; mkCard "♥" "7" 1; mkCard "♥" "8" 0;
              mkCard "♥" "8" 1; mkCard "♥" "10" 0; mkCard "♥" "10" 1] /\
    is_valid_follow follow led hand t
    = Some (false,
            "You must play 3 tractor pair(s) from ♥ — you have them but didn't play them.").
Proof.
  cbv zeta. do 2 eexists.
  repeat (split; [vm_compute; reflexivity | ]).
  vm_compute. reflexivity.
Qed.
(* ----------------------------------------------------------------- *)
(** ** Ties *)

Lemma equal_strength_sym (t : TrumpSystem) (a b : Card) :
  equal_strength t a b -> equal_strength t b a.
Proof.
  intros [(H1 & H2 & H3 & H4) | (H1 & H2 & H3)]; [left | right]; auto.
Qed.

Lemma beats_tie_one (t : TrumpSystem) (a b : Card) (led_suit : string) :
  playing_card a = true -> playing_card b = true ->
  equal_strength t a b -> beats t a b led_suit = Some false.
Proof.
  intros Ha Hb [(Ta & Tb & Hs & Hr) | (Ta & Tb & Ho)]; unfold beats.
  - unfold effective_suit. rewrite Ta, Tb, Hs, String.eqb_refl. cbn [andb].
    destruct (order_of_some t b Hb) as (v & Hv).
    unfold order_of in Hv. rewrite Tb in Hv. rewrite Hr, Hv.
    f_equal. rewrite Z.gtb_ltb. apply Z.ltb_irrefl.
  - unfold effective_suit. rewrite Ta, Tb, String.eqb_refl. cbn [andb].
    destruct (trump_order_band t b Hb Tb) as (v & Hv & _).
    rewrite Ho, Hv. f_equal. rewrite Z.gtb_ltb. apply Z.ltb_irrefl.
Qed.


(** *** Mapping through the list helpers *)

Lemma len_map {A B} (g : A -> B) (l : list A) : Py.len (map g l) = Py.len l.
Proof. unfold Py.len. now rewrite length_map. Qed.

Lemma take_map {A B} (g : A -> B) (n : Z) (l : list A) :
  Py.take n (map g l) = map g (Py.take n l).
Proof. unfold Py.take. apply firstn_map. Qed.

Lemma filter_map_comm {A B} (g : A -> B) (P : B -> bool) (l : list A) :
  filter P (map g l) = map g (filter (fun x => P (g x)) l).
Proof.
  induction l as [ | x l IH]; cbn; [reflexivity | ].
  destruct (P (g x)); cbn; now rewrite IH.
Qed.

Lemma insert_by_map {A B} (g : A -> B) (key : B -> Z) (x : A) (l : list A) :
  Py.insert_by key (g x) (map g l)
  = map g (Py.insert_by (fun y => key (g y)) x l).
Proof.
  induction l as [ | y l IH]; cbn; [reflexivity | ].
  destruct (key (g y) <=? key (g x)); cbn; [now rewrite IH | reflexivity].
Qed.

Lemma sorted_by_map {A B} (g : A -> B) (key : B -> Z) (l : list A) :
  Py.sorted_by key (map g l) = map g (Py.sorted_by (fun y => key (g y)) l).
Proof.
  unfold Py.sorted_by.
  assert (G : forall acc,
    fold_left (fun acc x => Py.insert_by key x acc) (map g l) (map g acc)
    = map g (fold_left (fun acc x =>
                          Py.insert_by (fun y => key (g y)) x acc) l acc)).
  { induction l as [ | x l IH]; intros acc; cbn; [reflexivity | ].
    rewrite insert_by_map. apply IH. }
  apply (G []).
Qed.

Lemma runs_map {A B} (g : A -> B) (key : B -> Z) (l : list A) :
  runs key (map g l) = map (map g) (runs (fun y => key (g y)) l).
Proof.
  induction l as [ | x l IH]; cbn; [reflexivity | ].
  rewrite IH.
  destruct (runs (fun y => key (g y)) l) as [ | [ | y run] rest]; cbn;
    try reflexivity.
  destruct (key (g y) - key (g x) =? 1); reflexivity.
Qed.

Lemma setdefault_append_map {K V W} (eqb : K -> K -> bool) (g : V -> W)
      (d : list (K * list V)) (k : K) (x : V) :
  Py.setdefault_append eqb (map (fun kv => (fst kv, map g (snd kv))) d)
                       k (g x)
  = map (fun kv => (fst kv, map g (snd kv)))
        (Py.setdefault_append eqb d k x).
Proof.
  induction d as [ | [k' vs] d IH]; cbn.
  - reflexivity.
  - destruct (eqb k' k); cbn.
    + now rewrite map_app.
    + now rewrite IH.
Qed.

(** *** Renaming cards without changing their faces *)

Section Renaming.

Variable f : Card -> Card.
Hypothesis f_suit : forall c, suit (f c) = suit c.
Hypothesis f_rank : forall c, rank (f c) = rank c.
Hypothesis f_inj : forall a b, f a = f b -> a = b.

Lemma f_is_trump t c : is_trump t (f c) = is_trump t c.
Proof. unfold is_trump, is_joker. now rewrite f_suit, f_rank. Qed.

Lemma f_effective_suit t c : effective_suit t (f c) = effective_suit t c.
Proof. unfold effective_suit. now rewrite f_is_trump, f_suit. Qed.

Lemma f_trump_order t c : trump_order t (f c) = trump_order t c.
Proof.
  unfold trump_order, is_big_joker, is_small_joker.
  now rewrite f_suit, f_rank.
Qed.

Lemma f_card_order t c : card_order t (f c) = card_order t c.
Proof.
  unfold card_order. now rewrite f_is_trump, f_trump_order, f_suit, f_rank.
Qed.

Lemma f_order_of t c : order_of t (f c) = order_of t c.
Proof. unfold order_of. now rewrite f_is_trump, f_trump_order, f_rank. Qed.

Lemma f_suit_order_key t c : suit_order_key t (f c) = suit_order_key t c.
Proof.
  unfold suit_order_key. now rewrite f_order_of, f_effective_suit.
Qed.

Lemma f_playing_card c : playing_card (f c) = playing_card c.
Proof. unfold playing_card. now rewrite f_suit, f_rank. Qed.

Lemma f_equal_strength t c : equal_strength t (f c) c.
Proof.
  unfold equal_strength. rewrite f_is_trump, f_suit, f_rank, f_trump_order.
  destruct (is_trump t c); auto.
Qed.

Lemma f_card_eqb a b : card_eqb (f a) (f b) = card_eqb a b.
Proof.
  destruct (card_eqb a b) eqn:E.
  - apply card_eqb_eq in E. subst. apply card_eqb_refl.
  - apply card_eqb_neq. apply card_eqb_neq in E. intros H. apply E.
    now apply f_inj.
Qed.

Lemma f_id_in c used : id_in (f c) (map f used) = id_in c used.
Proof.
  unfold id_in, Py.contains. induction used as [ | u used IH]; cbn.
  - reflexivity.
  - now rewrite f_card_eqb, IH.
Qed.

Lemma f_keyed {K} (key : Card -> option K) (l : list Card) :
  (forall c, key (f c) = key c) ->
  keyed key (map f l) = option_map (rn_keyed f) (keyed key l).
Proof.
  intros Hk. unfold keyed. induction l as [ | c l IH]; cbn.
  - reflexivity.
  - rewrite Hk. destruct (key c); [ | reflexivity].
    rewrite IH. destruct (Py.mapM _ l); reflexivity.
Qed.

Lemma f_setdefault_append {K} (eqb : K -> K -> bool) d k x :
  Py.setdefault_append eqb (rn_dict f d) k (f x)
  = rn_dict f (Py.setdefault_append eqb d k x).
Proof. apply setdefault_append_map. Qed.

Lemma f_group_by_key {K} (eqb : K -> K -> bool) ks :
  group_by_key eqb (rn_keyed f ks) = rn_dict f (group_by_key eqb ks).
Proof.
  unfold group_by_key.
  assert (G : forall acc,
    fold_left (fun g kc => Py.setdefault_append eqb g (fst kc) (snd kc))
              (rn_keyed f ks) (rn_dict f acc)
    = rn_dict f (fold_left (fun g kc =>
                 Py.setdefault_append eqb g (fst kc) (snd kc)) ks acc)).
  { induction ks as [ | [k x] ks IH]; intros acc; cbn.
    - reflexivity.
    - rewrite f_setdefault_append. apply IH. }
  apply (G []).
Qed.

Lemma f_group_by_order t l :
  _group_by_order t (map f l)
  = option_map (rn_dict f) (_group_by_order t l).
Proof.
  unfold _group_by_order. rewrite (f_keyed _ _ (f_order_of t)).
  destruct (keyed (order_of t) l); cbn; [ | reflexivity].
  now rewrite f_group_by_key.
Qed.

Lemma rn_dict_keys {K} (d : list (K * list Card)) :
  map fst (rn_dict f d) = map fst d.
Proof. unfold rn_dict. rewrite map_map. reflexivity. Qed.

Lemma rn_dict_cards {K} (d : list (K * list Card)) :
  flat_map snd (rn_dict f d) = map f (flat_map snd d).
Proof.
  unfold rn_dict. induction d as [ | [k cs] d IH]; cbn; [reflexivity | ].
  now rewrite map_app, IH.
Qed.

Lemma f_pair_orders_of (g : list (Z * list Card)) :
  pair_orders_of (rn_dict f g) = pair_orders_of g.
Proof.
  unfold pair_orders_of, rn_dict. rewrite filter_map_comm, map_map. cbn.
  f_equal. f_equal. apply filter_ext. intros [o cs]. cbn.
  now rewrite len_map.
Qed.

Lemma f_try_tractor t cards :
  _try_tractor t (map f cards) = _try_tractor t cards.
Proof.
  unfold _try_tractor. rewrite len_map, f_group_by_order.
  destruct (_ || _); [reflexivity | ].
  destruct (_group_by_order t cards) as [g | ]; cbn; [ | reflexivity].
  rewrite rn_dict_keys.
  replace (existsb _ (rn_dict f g))
    with (existsb (fun g0 : Z * list Card => negb (Py.len (snd g0) =? 2)) g).
  - reflexivity.
  - unfold rn_dict. induction g as [ | [o cs] g IH]; cbn;
      [reflexivity | ].
    now rewrite len_map, IH.
Qed.

Lemma f_pairs_by_suit (groups : list ((string * Z) * list Card)) :
  pairs_by_suit (rn_dict f groups) = rn_pairs f (pairs_by_suit groups).
Proof.
  unfold pairs_by_suit.
  assert (G : forall acc,
    fold_left
      (fun d g =>
         let '((suit, order), cs) := g in
         if Py.len cs >=? 2
         then Py.setdefault_append String.eqb d suit (order, Py.take 2 cs)
         else d) (rn_dict f groups) (rn_pairs f acc)
    = (rn_pairs f)
        (fold_left
           (fun d g =>
              let '((suit, order), cs) := g in
              if Py.len cs >=? 2
              then Py.setdefault_append String.eqb d suit
                     (order, Py.take 2 cs)
              else d) groups acc)).
  { unfold rn_dict, rn_pairs.
    induction groups as [ | [[s o] cs] groups IH]; intros acc;
      cbn [map fold_left fst snd]; [reflexivity | ].
    rewrite len_map. destruct (Py.len cs >=? 2); [ | apply IH].
    rewrite take_map, <- IH. f_equal.
    exact (setdefault_append_map String.eqb
             (fun oc : Z * list Card => (fst oc, map f (snd oc)))
             acc s (o, Py.take 2 cs)). }
  apply (G []).
Qed.

Lemma f_tractors_of (pl : list (Z * list Card)) :
  tractors_of (map (fun oc : Z * list Card => (fst oc, map f (snd oc))) pl)
  = map (map f) (tractors_of pl).
Proof.
  unfold tractors_of. rewrite sorted_by_map, runs_map. cbn.
  rewrite filter_map_comm, !map_map.
  erewrite filter_ext; [ | intros run; rewrite len_map; reflexivity].
  apply map_ext. intros run.
  induction run as [ | [o cs] run IH]; cbn; [reflexivity | ].
  now rewrite map_app, IH.
Qed.

Lemma f_tractor_components (groups : list ((string * Z) * list Card)) :
  tractor_components (rn_dict f groups)
  = map (map f) (tractor_components groups).
Proof.
  unfold tractor_components. rewrite f_pairs_by_suit. unfold rn_pairs.
  induction (pairs_by_suit groups) as [ | [s pl] d IH];
    cbn [map flat_map fst snd]; [reflexivity | ].
  now rewrite map_app, f_tractors_of, IH.
Qed.

Lemma f_pair_step st (g : (string * Z) * list Card) :
  pair_step (rn_state f st) (fst g, map f (snd g))
  = rn_state f (pair_step st g).
Proof.
  destruct st as [comps used], g as [k cs]. unfold pair_step, rn_state.
  cbn [fst snd]. rewrite len_map.
  destruct (Py.len cs >=? 2); [ | reflexivity].
  rewrite take_map, filter_map_comm, len_map.
  erewrite filter_ext; [ | intros c; rewrite f_id_in; reflexivity].
  destruct (Py.len (filter _ _) =? 2); [ | reflexivity].
  cbn [fst snd]. now rewrite !map_app.
Qed.

Lemma f_pair_pass groups st :
  fold_left pair_step (rn_dict f groups) (rn_state f st)
  = rn_state f (fold_left pair_step groups st).
Proof.
  unfold rn_dict.
  revert st. induction groups as [ | g groups IH]; intros st;
    cbn [map fold_left]; [reflexivity | ].
  rewrite f_pair_step. apply IH.
Qed.

Lemma f_single_step st c :
  single_step (rn_state f st) (f c) = rn_state f (single_step st c).
Proof.
  destruct st as [comps used]. unfold single_step, rn_state.
  cbn [fst snd]. rewrite f_id_in.
  destruct (id_in c used); cbn [negb fst snd]; [reflexivity | ].
  now rewrite !map_app.
Qed.

Lemma f_single_pass l st :
  fold_left single_step (map f l) (rn_state f st)
  = rn_state f (fold_left single_step l st).
Proof.
  revert st. induction l as [ | c l IH]; intros st; cbn [map fold_left];
    [reflexivity | ].
  rewrite f_single_step. apply IH.
Qed.

Lemma f_decompose_groups (groups : list ((string * Z) * list Card)) :
  decompose_groups (rn_dict f groups)
  = map (map f) (decompose_groups groups).
Proof.
  unfold decompose_groups. rewrite f_tractor_components, rn_dict_cards.
  rewrite <- concat_map.
  change (map (map f) (tractor_components groups),
          map f (concat (tractor_components groups)))
    with (rn_state f (tractor_components groups,
                    concat (tractor_components groups))).
  now rewrite f_pair_pass, f_single_pass.
Qed.

Lemma f_decompose t cards :
  _decompose t (map f cards) = option_map (map (map f)) (_decompose t cards).
Proof.
  unfold _decompose. rewrite (f_keyed _ _ (f_suit_order_key t)).
  destruct (keyed (suit_order_key t) cards) as [ks | ]; cbn;
    [ | reflexivity].
  rewrite f_group_by_key, f_decompose_groups.
  now destruct (decompose_groups _).
Qed.

Lemma f_same_rank_or_order t c0 c1 :
  same_rank_or_order t (f c0) (f c1) = same_rank_or_order t c0 c1.
Proof.
  unfold same_rank_or_order.
  now rewrite !f_rank, !f_is_trump, !f_trump_order.
Qed.

Lemma f_detect t cards :
  _detect t (map f cards) = option_map (rn_detect f) (_detect t cards).
Proof.
  unfold _detect. rewrite len_map, map_map.
  erewrite (map_ext (fun x => effective_suit t (f x)));
    [ | intros c; apply f_effective_suit].
  rewrite f_decompose, f_try_tractor.
  destruct (Py.len cards =? 1); [reflexivity | ].
  assert (F :
    (components <- option_map (map (map f)) (_decompose t cards) ;;
     match components with
     | [c] => if Py.len c =? Py.len cards
              then if Py.len cards =? 2 then Some (PAIR, components)
                   else Some (TRACTOR, components)
              else Some (MULTI, components)
     | _ => Some (MULTI, components)
     end)
    = option_map (rn_detect f)
        (components <- _decompose t cards ;;
         match components with
         | [c] => if Py.len c =? Py.len cards
                  then if Py.len cards =? 2 then Some (PAIR, components)
                       else Some (TRACTOR, components)
                  else Some (MULTI, components)
         | _ => Some (MULTI, components)
         end)).
  { destruct (_decompose t cards) as [[ | c [ | c' cs]] | ]; cbn;
      try reflexivity.
    rewrite len_map. destruct (Py.len c =? Py.len cards); [ | reflexivity].
    destruct (Py.len cards =? 2); reflexivity. }
  destruct (Py.len (Py.set_of _ _) =? 1); [ | exact F].
  assert (P : match map f cards with
              | [c0; c1] => same_rank_or_order t c0 c1
              | _ => Some false
              end
              = match cards with
                | [c0; c1] => same_rank_or_order t c0 c1
                | _ => Some false
                end).
  { destruct cards as [ | c0 [ | c1 [ | c2 rest]]]; cbn; try reflexivity.
    apply f_same_rank_or_order. }
  rewrite P.
  destruct (match cards with
            | [c0; c1] => same_rank_or_order t c0 c1
            | _ => Some false
            end) as [[ | ] | ]; try reflexivity.
  destruct (_try_tractor t cards) as [[ | ] | ]; try reflexivity.
  exact F.
Qed.

End Renaming.

(** *** Slots of a play *)

Lemma remove_some (c : Card) (l : list Card) :
  In c l ->
  exists r, Py.remove card_eqb c l = Some r /\ Permutation l (c :: r).
Proof.
  induction l as [ | y l IH]; [intros [] | ]. intros Hin. cbn.
  destruct (card_eqb y c) eqn:E.
  - apply card_eqb_eq in E. subst. eauto.
  - destruct Hin as [-> | Hin]; [rewrite card_eqb_refl in E; discriminate | ].
    destruct (IH Hin) as (r & -> & Hp). eexists. split; [reflexivity | ].
    eapply perm_trans; [apply perm_skip, Hp | apply perm_swap].
Qed.

Lemma remove_all_some (chunk l rest : list Card) :
  Permutation l (chunk ++ rest) ->
  exists r, remove_all chunk l = Some r /\ Permutation r rest.
Proof.
  revert l. induction chunk as [ | c chunk IH]; intros l Hp; cbn.
  - eauto.
  - destruct (remove_some c l) as (r & -> & Hr).
    { apply (Permutation_in c (Permutation_sym Hp)). now left. }
    apply IH. apply Permutation_cons_inv with (a := c).
    eapply perm_trans; [apply Permutation_sym, Hr | exact Hp].
Qed.

Lemma playing_cards_perm (l l' : list Card) :
  Permutation l l' -> playing_cards l -> playing_cards l'.
Proof.
  intros Hp H c Hc. apply H. apply (Permutation_in c (Permutation_sym Hp) Hc).
Qed.

Lemma top_cards_some (t : TrumpSystem) (size : Z) (cards : list Card) :
  playing_cards cards ->
  exists chunk rest,
    top_cards t size cards = Some chunk /\
    Permutation cards (chunk ++ rest).
Proof.
  intros H. unfold top_cards.
  destruct (keyed_some (card_order t) cards) as (ks & Hks).
  { intros c Hc. apply card_order_some. now apply H. }
  rewrite Hks.
  exists (Py.take size (map snd (Py.sorted_by_rev fst ks))),
         (Py.drop size (map snd (Py.sorted_by_rev fst ks))).
  split; [reflexivity | ]. rewrite take_drop.
  rewrite <- (keyed_snd _ _ _ Hks). apply Permutation_map.
  apply sorted_by_rev_perm.
Qed.

Lemma match_slots_some (t : TrumpSystem) (sizes : list Z)
      (cards : list Card) :
  playing_cards cards -> exists r, match_slots t sizes cards = Some r.
Proof.
  revert cards. induction sizes as [ | size sizes IH]; intros cards H;
    cbn [match_slots].
  - eauto.
  - destruct (top_cards_some t size cards H) as (chunk & rest & Ht & Hp).
    unfold top_cards in Ht.
    destruct (keyed (card_order t) cards) as [ks | ]; [ | discriminate].
    injection Ht as Ht. rewrite Ht.
    destruct (remove_all_some chunk cards rest Hp) as (r & -> & Hr).
    destruct (IH r) as (res & ->); [ | eauto].
    eapply playing_cards_perm; [apply Permutation_sym, Hr | ].
    intros c Hc. apply H.
    apply (Permutation_in c (Permutation_sym Hp)). apply in_or_app. now right.
Qed.

Lemma match_slots_head (t : TrumpSystem) (size : Z) (sizes : list Z)
      (cards : list Card) :
  playing_cards cards ->
  exists chunk result,
    top_cards t size cards = Some chunk /\
    match_slots t (size :: sizes) cards = Some (chunk :: result) /\
    incl chunk cards.
Proof.
  intros H.
  destruct (match_slots_some t (size :: sizes) cards H) as (r & Hr).
  destruct (top_cards_some t size cards H) as (chunk & rest & Ht & Hp).
  cbn [match_slots] in Hr. unfold top_cards in Ht.
  destruct (keyed (card_order t) cards) as [ks | ] eqn:Hk; [ | discriminate].
  injection Ht as Ht. rewrite Ht in Hr.
  destruct (remove_all chunk cards) as [rem | ] eqn:Hrem; [ | discriminate].
  destruct (match_slots t sizes rem) as [res | ] eqn:Hres; [ | discriminate].
  exists chunk, res. split; [ | split].
  - unfold top_cards. now rewrite Hk, Ht.
  - cbn [match_slots]. now rewrite Hk, Ht, Hrem, Hres.
  - intros c Hc. apply (Permutation_in c (Permutation_sym Hp)).
    apply in_or_app. now left.
Qed.

Lemma max_by_In {A} (best : Z * A) (l : list (Z * A)) :
  In (max_by best l) (map snd (best :: l)).
Proof.
  revert best. induction l as [ | x l IH]; intros best; cbn.
  - now left.
  - destruct (IH (if fst x >? fst best then x else best)) as [H | H].
    + destruct (fst x >? fst best); rewrite <- H; auto.
    + right. now right.
Qed.

Lemma top_card_some (cb : CardCombo) :
  playing_cards (combo_cards cb) -> combo_cards cb <> [] ->
  exists c, top_card cb = Some c /\ In c (combo_cards cb).
Proof.
  intros H Hne. unfold top_card.
  destruct (keyed_some (card_order (combo_trump cb)) (combo_cards cb))
    as (ks & Hks).
  { intros c Hc. apply card_order_some. now apply H. }
  rewrite Hks. pose proof (keyed_snd _ _ _ Hks) as Hs.
  destruct ks as [ | k ks]; [cbn in Hs; congruence | ].
  eexists. split; [reflexivity | ]. rewrite <- Hs. apply max_by_In.
Qed.

Section RenamedPlay.

Variable f : Card -> Card.
Hypothesis f_suit : forall c, suit (f c) = suit c.
Hypothesis f_rank : forall c, rank (f c) = rank c.
Hypothesis f_inj : forall a b, f a = f b -> a = b.

Lemma f_max_by (best : Z * Card) (l : list (Z * Card)) :
  max_by (fst best, f (snd best)) (rn_keyed f l) = f (max_by best l).
Proof.
  unfold rn_keyed. revert best.
  induction l as [ | x l IH]; intros best; cbn [map max_by fst snd].
  - reflexivity.
  - rewrite <- IH. now destruct (fst x >? fst best).
Qed.

Lemma f_top_card (cb cb' : CardCombo) :
  combo_cards cb' = map f (combo_cards cb) ->
  combo_trump cb' = combo_trump cb ->
  top_card cb' = option_map f (top_card cb).
Proof.
  intros Hc Ht. unfold top_card. rewrite Hc, Ht.
  rewrite (f_keyed f _ _ (f_card_order f f_suit f_rank (combo_trump cb))).
  destruct (keyed _ (combo_cards cb)) as [[ | k ks] | ]; cbn;
    try reflexivity.
  f_equal. apply f_max_by.
Qed.

Lemma f_top_cards (t : TrumpSystem) (size : Z) (cards : list Card) :
  top_cards t size (map f cards) = option_map (map f) (top_cards t size cards).
Proof.
  unfold top_cards.
  rewrite (f_keyed f _ _ (f_card_order f f_suit f_rank t)).
  destruct (keyed (card_order t) cards) as [ks | ]; cbn; [ | reflexivity].
  f_equal. unfold Py.sorted_by_rev, rn_keyed.
  rewrite sorted_by_map, map_map. cbn [fst snd].
  rewrite <- (map_map snd f). apply take_map.
Qed.

Lemma f_playing_cards (l : list Card) :
  playing_cards l -> playing_cards (map f l).
Proof.
  intros H c Hc. apply in_map_iff in Hc. destruct Hc as (c' & <- & Hc').
  rewrite (f_playing_card f f_suit f_rank). now apply H.
Qed.

Lemma f_new_CardCombo (t : TrumpSystem) (cards : list Card) cb :
  new_CardCombo cards t = Some cb ->
  exists cb', new_CardCombo (map f cards) t = Some cb' /\
              combo_cards cb' = map f cards /\ combo_trump cb' = t /\
              combo_type cb' = combo_type cb.
Proof.
  unfold new_CardCombo. rewrite (f_detect f f_suit f_rank f_inj).
  destruct (_detect t cards) as [[ty comps] | ]; [ | discriminate].
  intros [= <-]. cbn. eauto.
Qed.

(** A slot filled with the renamed cards of the other slot is no win. *)
Lemma renamed_component_never_beats (t : TrumpSystem)
      (chunk led : list Card) (led_suit : string) :
  playing_cards chunk ->
  _component_beats t (map f chunk) chunk led led_suit = Some false.
Proof.
  intros H. unfold _component_beats.
  destruct (new_CardCombo_some t chunk H) as (cbi & Hi & Hci & Hti).
  destruct (f_new_CardCombo t chunk cbi Hi) as (cbc & Hc & Hcc & Htc & Hty).
  rewrite Hi, Hc.
  destruct chunk as [ | c chunk]; [reflexivity | ].
  cbn [map first_suit hd_error].
  destruct (negb _); [reflexivity | ].
  assert (Hpc : playing_card c = true) by (apply H; now left).
  assert (Htie : forall x, In x (c :: chunk) ->
                           beats t (f x) x led_suit = Some false).
  { intros x Hx. apply beats_tie_one.
    - rewrite (f_playing_card f f_suit f_rank). now apply H.
    - now apply H.
    - apply (f_equal_strength f f_suit f_rank). }
  assert (Htop : ct <- top_card cbc ;; it <- top_card cbi ;;
                 beats t ct it led_suit = Some false).
  { destruct (top_card_some cbi) as (it & Hit & Hin).
    - now rewrite Hci.
    - rewrite Hci. discriminate.
    - rewrite (f_top_card cbi cbc), Hit by congruence. cbn.
      apply Htie. now rewrite <- Hci. }
  destruct (Py.len led =? 1); [apply Htie; now left | ].
  rewrite Hty.
  destruct (Py.len led =? 2).
  - destruct (negb (ComboType_eqb (combo_type cbi) PAIR));
      [reflexivity | exact Htop].
  - destruct (negb (ComboType_eqb (combo_type cbi) TRACTOR));
      [reflexivity | exact Htop].
Qed.

(** A play made of the renamed cards of another never beats it. *)
Lemma renamed_play_never_beats (t : TrumpSystem) (best : list Card)
      (led_components : list (list Card)) (led_suit : string) :
  playing_cards best -> led_components <> [] ->
  _play_beats t (map f best) best led_components led_suit = Some false.
Proof.
  intros H Hne. unfold _play_beats.
  destruct (_ && _); [reflexivity | ].
  destruct led_components as [ | l0 ls]; [congruence | ].
  unfold _match_components. cbn [map].
  destruct (match_slots_head t (Py.len l0)
              (map (fun c : list Card => Py.len c) ls) best H)
    as (ci & ri & Hti & Hmi & Hini).
  destruct (match_slots_head t (Py.len l0)
              (map (fun c : list Card => Py.len c) ls) (map f best)
              (f_playing_cards best H))
    as (cc & rc & Htc & Hmc & _).
  rewrite f_top_cards, Hti in Htc. injection Htc as <-.
  rewrite Hmi, Hmc. cbn [all_slots_beat].
  rewrite renamed_component_never_beats; [reflexivity | ].
  intros c Hc. apply H. now apply Hini.
Qed.

End RenamedPlay.

Lemma other_copy_inj (a b : Card) : other_copy a = other_copy b -> a = b.
Proof.
  intros H.
  pose proof (f_equal suit H) as Hs. pose proof (f_equal rank H) as Hr.
  pose proof (f_equal deck_id H) as Hk.
  destruct a as [s r k], b as [s' r' k']. unfold other_copy in Hs, Hr, Hk.
  cbn [suit rank deck_id] in Hs, Hr, Hk. subst. f_equal. lia.
Qed.

(** C10: two cards of equal strength in one effective-suit group – the two
    deck copies of a card in particular – do not beat each other, whatever
    was led; and in trick resolution a later play whose cards have the faces
    of the current best's cards, card for card, does not dethrone it: the
    earlier of the two keeps the win. *)
Theorem tie_keeps_the_earlier_play :
  (forall t a b led_suit,
      playing_card a = true -> playing_card b = true ->
      equal_strength t a b ->
      beats t a b led_suit = Some false /\ beats t b a led_suit = Some false)
  /\ (forall t c, equal_strength t c (other_copy c))
  /\ (forall (f : Card -> Card) t led_components led_suit best p rest,
         (forall c, suit (f c) = suit c) ->
         (forall c, rank (f c) = rank c) ->
         (forall a b, f a = f b -> a = b) ->
         playing_cards (snd best) -> led_components <> [] ->
         _play_beats t (map f (snd best)) (snd best) led_components led_suit
         = Some false
         /\ winner_loop t led_components led_suit best
                        ((p, map f (snd best)) :: rest)
            = winner_loop t led_components led_suit best rest).
Proof.
  split; [ | split].
  - intros t a b led_suit Ha Hb He. split.
    + now apply beats_tie_one.
    + apply beats_tie_one; auto. now apply equal_strength_sym.
  - intros t c. apply equal_strength_sym.
    apply (f_equal_strength other_copy); reflexivity.
  - intros f t comps led_suit best p rest Hs Hr Hi Hpc Hne.
    pose proof (renamed_play_never_beats f Hs Hr Hi t (snd best) comps
                  led_suit Hpc Hne) as Hb.
    split; [exact Hb | ].
    now rewrite (winner_loop_step t comps led_suit best p _ rest false Hb).
Qed.

Lemma tie_keeps_the_earlier_play_witness :
  let t := mkTrump "♠" "2" in
  let first := mkCard "♥" "K" 0 in
  let second := mkCard "♥" "K" 1 in
  (beats t first second "♥" = Some false
   /\ beats t second first "♥" = Some false)
  /\ (_play_beats t (map other_copy [first]) [first] [[first]] "♥"
      = Some false
      /\ winner_loop t [[first]] "♥" (0, [first])
                     [(1, map other_copy [first])]
         = winner_loop t [[first]] "♥" (0, [first]) []).
Proof.
  intros t first second.
  destruct tie_keeps_the_earlier_play as (Hbeats & _ & Hplay).
  split.
  - apply (Hbeats t first second "♥"); [reflexivity | reflexivity | ].
    left. repeat split; reflexivity.
  - apply (Hplay other_copy t [[first]] "♥" (0, [first]) 1 []).
    + reflexivity.
    + reflexivity.
    + exact other_copy_inj.
    + intros c [<- | []]. reflexivity.
    + discriminate.
Defined.

(* ----------------------------------------------------------------- *)
(** ** Sorting keys and single-card comparison *)

Lemma suits_index_range (s : string) :
  In s SUITS ->
  exists i, Py.index String.eqb s SUITS = Some i /\ 0 <= i <= 3.
Proof.
  unfold SUITS. cbn. intros [<- | [<- | [<- | [<- | []]]]];
    eexists; (split; [vm_compute; reflexivity | lia]).
Qed.

Lemma suits_index_inj (s1 s2 : string) (i : Z) :
  Py.index String.eqb s1 SUITS = Some i ->
  Py.index String.eqb s2 SUITS = Some i -> s1 = s2.
Proof.
  unfold SUITS. cbn.
  destruct (String.eqb "♣" s1) eqn:A1; destruct (String.eqb "♣" s2) eqn:A2;
    destruct (String.eqb "♦" s1) eqn:B1; destruct (String.eqb "♦" s2) eqn:B2;
    destruct (String.eqb "♥" s1) eqn:C1; destruct (String.eqb "♥" s2) eqn:C2;
    destruct (String.eqb "♠" s1) eqn:D1; destruct (String.eqb "♠" s2) eqn:D2;
    cbn; intros E1 E2; try congruence;
    repeat match goal with
           | H : String.eqb _ _ = true |- _ => apply String.eqb_eq in H
           end; congruence.
Qed.

Lemma plain_card_order (t : TrumpSystem) (c : Card) :
  playing_card c = true -> is_trump t c = false ->
  In (suit c) SUITS /\ In (rank c) RANKS /\
  card_order t c = Some (suit_index (suit c) * 100 + rank_value (rank c))
  /\ 0 <= suit_index (suit c) <= 3 /\ 0 <= rank_value (rank c) <= 12.
Proof.
  intros Hc Ht. unfold card_order. rewrite Ht.
  destruct (playing_card_cases _ Hc) as [(Hs & Hr & _) | [[Hs _] | [Hs _]]].
  - destruct (RANK_VAL_range _ Hr) as (v & Hv & Hrange).
    destruct (suits_index_range _ Hs) as (i & Hi & Hirange).
    unfold suit_index, rank_value. rewrite Hi, Hv. auto.
  - unfold is_trump, is_joker in Ht. rewrite Hs in Ht. discriminate.
  - unfold is_trump, is_joker in Ht. rewrite Hs in Ht. discriminate.
Qed.

Lemma trump_card_order (t : TrumpSystem) (c : Card) :
  playing_card c = true -> is_trump t c = true ->
  exists o, trump_order t c = Some o /\ card_order t c = Some (2000 + o)
            /\ 0 <= o <= 1000.
Proof.
  intros Hc Ht. destruct (trump_order_band t c Hc Ht) as (o & Ho & Hb).
  exists o. unfold card_order. rewrite Ht, Ho. repeat split; auto;
    destruct (band_of t c); lia.
Qed.

(** X1: in the universal sorting key every trump card stands above every
    non-trump card, and two non-trump cards compare by suit (in the order of
    [SUITS]) and then by rank. *)
Theorem card_order_layout (t : TrumpSystem) (a b : Card) :
  playing_card a = true -> playing_card b = true ->
  is_trump t b = false ->
  exists oa ob,
    card_order t a = Some oa /\ card_order t b = Some ob /\
    (is_trump t a = true -> ob < oa) /\
    (is_trump t a = false ->
     (oa < ob <->
      suit_index (suit a) < suit_index (suit b)
      \/ (suit a = suit b /\ rank_value (rank a) < rank_value (rank b)))).
Proof.
  intros Ha Hb Tb.
  destruct (plain_card_order t b Hb Tb) as (Hsb & _ & Hob & Hib & Hrb).
  destruct (is_trump t a) eqn:Ta.
  - destruct (trump_card_order t a Ha Ta) as (o & _ & Hoa & Hrange).
    exists (2000 + o), (suit_index (suit b) * 100 + rank_value (rank b)).
    split; [exact Hoa | ]. split; [exact Hob | ]. split.
    + intros _. lia.
    + discriminate.
  - destruct (plain_card_order t a Ha Ta) as (Hsa & _ & Hoa & Hia & Hra).
    exists (suit_index (suit a) * 100 + rank_value (rank a)),
           (suit_index (suit b) * 100 + rank_value (rank b)).
    split; [exact Hoa | ]. split; [exact Hob | ]. split; [discriminate | ].
    intros _. split.
    + intros Hlt.
      destruct (Z.eq_dec (suit_index (suit a)) (suit_index (suit b)))
        as [E | E]; [right | left; lia].
      split; [ | lia].
      destruct (suits_index_range _ Hsa) as (i & Hi & _).
      destruct (suits_index_range _ Hsb) as (j & Hj & _).
      unfold suit_index in E. rewrite Hi, Hj in E. subst j.
      eapply suits_index_inj; eassumption.
    + intros [H | [H1 H2]]; [lia | ]. rewrite H1. lia.
Qed.

Lemma card_order_layout_witness :
  exists oa ob,
    card_order (mkTrump "♠" "2") (mkCard "♣" "2" 0) = Some oa /\
    card_order (mkTrump "♠" "2") (mkCard "♥" "A" 0) = Some ob /\
    ob < oa.
Proof.
  destruct (card_order_layout (mkTrump "♠" "2") (mkCard "♣" "2" 0)
              (mkCard "♥" "A" 0) eq_refl eq_refl eq_refl)
    as (oa & ob & Ha & Hb & Htr & _).
  exists oa, ob. repeat split; auto.
Defined.

(** *** [sort_hand] *)

Lemma insert_by_sorted {A} (key : A -> Z) (x : A) (l : list A) :
  Sorted (fun a b => key a <= key b) l ->
  Sorted (fun a b => key a <= key b) (Py.insert_by key x l).
Proof.
  induction l as [ | y l IH]; intros Hs; cbn.
  - repeat constructor.
  - destruct (Z.leb_spec (key y) (key x)) as [Hle | Hgt].
    + inversion Hs as [ | ? ? Hs' Hhd]; subst. constructor; [now apply IH | ].
      destruct l as [ | z l]; cbn.
      * constructor. exact Hle.
      * destruct (key z <=? key x); constructor; auto.
        inversion Hhd; subst. assumption.
    + constructor; [assumption | ]. constructor. lia.
Qed.

Lemma sorted_by_sorted {A} (key : A -> Z) (l : list A) :
  Sorted (fun a b => key a <= key b) (Py.sorted_by key l).
Proof.
  unfold Py.sorted_by.
  assert (G : forall acc, Sorted (fun a b => key a <= key b) acc ->
    Sorted (fun a b => key a <= key b)
           (fold_left (fun acc x => Py.insert_by key x acc) l acc)).
  { induction l as [ | x l IH]; intros acc Hacc; cbn; [assumption | ].
    apply IH. now apply insert_by_sorted. }
  apply G. constructor.
Qed.

Lemma Sorted_map {A B} (g : A -> B) (R : A -> A -> Prop)
      (S : B -> B -> Prop) (l : list A) :
  (forall a b, In a l -> In b l -> R a b -> S (g a) (g b)) ->
  Sorted R l -> Sorted S (map g l).
Proof.
  intros H Hs. induction Hs as [ | a l Hs IH Hhd]; cbn; constructor.
  - apply IH. intros x y Hx Hy. apply H; now right.
  - destruct Hhd as [ | b l Hab]; cbn; constructor.
    apply H; cbn; auto.
Qed.

(** X2: [sort_hand] answers on every hand of playing cards; its result holds
    the same cards and runs from the strongest sorting key to the weakest. *)
Theorem sort_hand_sorted_permutation (t : TrumpSystem) (hand : list Card) :
  playing_cards hand ->
  exists sorted,
    sort_hand t hand = Some sorted /\
    Permutation hand sorted /\
    Sorted (sorts_above t) sorted.
Proof.
  intros H. unfold sort_hand.
  destruct (keyed_some (card_order t) hand) as (ks & Hks).
  { intros c Hc. apply card_order_some. now apply H. }
  rewrite Hks. eexists. split; [reflexivity | ]. split.
  - rewrite <- (keyed_snd _ _ _ Hks) at 1.
    apply Permutation_map, sorted_by_rev_perm.
  - pose proof (keyed_fst _ _ _ Hks) as Hfst.
    apply (Sorted_map snd (fun a b : Z * Card => - fst a <= - fst b)).
    + intros a b Ha Hb Hab.
      apply (Permutation_in _ (Permutation_sym (sorted_by_rev_perm fst ks)))
        in Ha, Hb.
      exists (fst a), (fst b). repeat split; auto. lia.
    + apply (sorted_by_sorted (fun x : Z * Card => - fst x)).
Qed.

Lemma sort_hand_sorted_permutation_witness :
  exists sorted,
    sort_hand (mkTrump "♠" "2")
              [mkCard "♥" "5" 0; mkCard "SJ" "SJ" 1; mkCard "♠" "9" 0]
    = Some sorted /\
    Permutation [mkCard "♥" "5" 0; mkCard "SJ" "SJ" 1; mkCard "♠" "9" 0]
                sorted.
Proof.
  destruct (sort_hand_sorted_permutation (mkTrump "♠" "2")
              [mkCard "♥" "5" 0; mkCard "SJ" "SJ" 1; mkCard "♠" "9" 0])
    as (sorted & Hs & Hp & _).
  - intros c Hc. cbn in Hc.
    repeat (destruct Hc as [<- | Hc]; [reflexivity | ]). contradiction.
  - exists sorted. split; assumption.
Defined.


(** *** [beats] *)

Lemma beats_cases (t : TrumpSystem) (a b : Card) (led : string) :
  playing_card a = true -> playing_card b = true ->
  exists oa ob r,
    order_of t a = Some oa /\ order_of t b = Some ob /\
    beats t a b led = Some r /\
    (r = true <->
     (effective_suit t a = effective_suit t b /\ ob < oa)
     \/ (effective_suit t a <> effective_suit t b
         /\ is_trump t a = true /\ is_trump t b = false)
     \/ (effective_suit t a <> effective_suit t b
         /\ is_trump t a = false /\ effective_suit t a = led
         /\ effective_suit t b <> led /\ is_trump t b = false)).
Proof.
  intros Ha Hb.
  destruct (order_of_some t a Ha) as (oa & Hoa).
  destruct (order_of_some t b Hb) as (ob & Hob).
  exists oa, ob. unfold beats.
  destruct (String.eqb_spec (effective_suit t a) (effective_suit t b))
    as [E | E].
  - pose proof (same_suit_same_trump t a b Ha Hb E) as HT.
    pose proof Hoa as Hoa'. pose proof Hob as Hob'.
    unfold order_of in Hoa', Hob'. rewrite HT in Hoa' |- *.
    exists (oa >? ob).
    split; [exact Hoa | ]. split; [exact Hob | ]. split.
    + destruct (is_trump t b); cbn [andb]; rewrite Hoa', Hob'; reflexivity.
    + rewrite Z.gtb_ltb, Z.ltb_lt. split.
      * intros H. left. split; [exact E | exact H].
      * intros [[_ H] | [[H _] | [H _]]]; [exact H | | ];
          exfalso; apply H; exact E.
  - destruct (is_trump t a) eqn:Ta, (is_trump t b) eqn:Tb; cbn [andb negb].
    + exfalso. apply E. unfold effective_suit. now rewrite Ta, Tb.
    + exists true. split; [exact Hoa | ]. split; [exact Hob | ].
      split; [reflexivity | ]. split; [ | reflexivity ].
      intros _. right. left. auto.
    + assert (Eb : effective_suit t b = TRUMP)
        by (unfold effective_suit; now rewrite Tb).
      rewrite Eb, String.eqb_refl, orb_true_r, andb_false_r.
      exists false. split; [exact Hoa | ]. split; [exact Hob | ].
      split; [reflexivity | ]. split; [discriminate | ].
      intros [[H _] | [(_ & H & _) | (_ & _ & _ & _ & H)]];
        [congruence | discriminate | discriminate].
    + assert (Nb : (effective_suit t b =? TRUMP)%string = false).
      { apply String.eqb_neq. unfold effective_suit. rewrite Tb.
        now apply playing_card_suit_not_TRUMP. }
      rewrite Nb, orb_false_r.
      destruct (String.eqb_spec (effective_suit t a) led) as [El | El];
        destruct (String.eqb_spec (effective_suit t b) led) as [Fl | Fl];
        cbn [andb negb].
      * exfalso. apply E. congruence.
      * exists true. split; [exact Hoa | ]. split; [exact Hob | ].
        split; [reflexivity | ]. split; [ | reflexivity ].
        intros _. right. right. auto.
      * exists false. split; [exact Hoa | ]. split; [exact Hob | ].
        split; [reflexivity | ]. split; [discriminate | ].
        intros [[H _] | [(_ & H & _) | (_ & _ & H & _)]];
          [congruence | discriminate | congruence].
      * exists false. split; [exact Hoa | ]. split; [exact Hob | ].
        split; [reflexivity | ]. split; [discriminate | ].
        intros [[H _] | [(_ & H & _) | (_ & _ & H & _)]];
          [congruence | discriminate | congruence].
Qed.

Lemma trump_effective_suit (t : TrumpSystem) (c : Card) :
  playing_card c = true ->
  (effective_suit t c = TRUMP <-> is_trump t c = true).
Proof.
  intros Hc. unfold effective_suit. destruct (is_trump t c); split; auto.
  - intros E. now apply playing_card_suit_not_TRUMP in E.
  - discriminate.
Qed.

Lemma beats_chain (sa sb sc led : string) (ta tb tc : bool)
      (oa ob oc : Z) :
  (sa = TRUMP <-> ta = true) -> (sb = TRUMP <-> tb = true) ->
  (sc = TRUMP <-> tc = true) ->
  ((sa = sb /\ ob < oa)
   \/ (sa <> sb /\ ta = true /\ tb = false)
   \/ (sa <> sb /\ ta = false /\ sa = led /\ sb <> led /\ tb = false)) ->
  ((sb = sc /\ oc < ob)
   \/ (sb <> sc /\ tb = true /\ tc = false)
   \/ (sb <> sc /\ tb = false /\ sb = led /\ sc <> led /\ tc = false)) ->
  (sa = sc /\ oc < oa)
  \/ (sa <> sc /\ ta = true /\ tc = false)
  \/ (sa <> sc /\ ta = false /\ sa = led /\ sc <> led /\ tc = false).
Proof.
  intros [Ea1 Ea2] [Eb1 Eb2] [Ec1 Ec2]
         [[E1 L1] | [(N1 & T1 & U1) | (N1 & T1 & L1 & M1 & U1)]]
         [[E2 L2] | [(N2 & T2 & U2) | (N2 & T2 & L2 & M2 & U2)]].
  - left. split; [congruence | lia].
  - right. left. split; [congruence | ]. split; [ | exact U2].
    apply Ea1. rewrite E1. apply Eb2. exact T2.
  - right. right. split; [congruence | ].
    split; [ | split; [congruence | split; [exact M2 | exact U2]]].
    destruct ta; [ | reflexivity]. exfalso.
    assert (tb = true) by (apply Eb1; rewrite <- E1; apply Ea2; reflexivity).
    congruence.
  - assert (Tc : tc = false).
    { destruct tc; [ | reflexivity]. exfalso.
      assert (tb = true) by (apply Eb1; rewrite E2; apply Ec2; reflexivity).
      congruence. }
    right. left. split; [congruence | ]. split; [exact T1 | exact Tc].
  - congruence.
  - right. left. split; [ | split; [exact T1 | exact U2]].
    intros E. assert (tc = true) by (apply Ec1; rewrite <- E; apply Ea2; exact T1).
    congruence.
  - assert (Tc : tc = false).
    { destruct tc; [ | reflexivity]. exfalso.
      assert (tb = true) by (apply Eb1; rewrite E2; apply Ec2; reflexivity).
      congruence. }
    right. right. split; [congruence | ]. split; [exact T1 | ].
    split; [exact L1 | ]. split; [congruence | exact Tc].
  - congruence.
  - congruence.
Qed.

(** X3: for a fixed led suit, [beats] is a strict order on playing cards: no
    card beats itself, two cards never beat each other, and beating carries
    over a chain of three cards. *)
Theorem beats_strict_order (t : TrumpSystem) (a b c : Card) (led : string) :
  playing_card a = true -> playing_card b = true -> playing_card c = true ->
  beats t a a led = Some false /\
  (beats t a b led = Some true -> beats t b a led = Some false) /\
  (beats t a b led = Some true -> beats t b c led = Some true ->
   beats t a c led = Some true).
Proof.
  intros Ha Hb Hc.
  destruct (beats_cases t a a led Ha Ha)
    as (o1 & o2 & raa & Ho1 & Ho2 & Baa & Saa).
  destruct (beats_cases t a b led Ha Hb)
    as (oa & ob & rab & Hoa & Hob & Bab & Sab).
  destruct (beats_cases t b a led Hb Ha)
    as (ob' & oa' & rba & Hob' & Hoa' & Bba & Sba).
  destruct (beats_cases t b c led Hb Hc)
    as (ob'' & oc & rbc & Hob'' & Hoc & Bbc & Sbc).
  destruct (beats_cases t a c led Ha Hc)
    as (oa'' & oc' & rac & Hoa'' & Hoc' & Bac & Sac).
  assert (o1 = oa) by congruence. assert (o2 = oa) by congruence.
  assert (ob' = ob) by congruence. assert (oa' = oa) by congruence.
  assert (ob'' = ob) by congruence. assert (oa'' = oa) by congruence.
  assert (oc' = oc) by congruence. subst.
  pose proof (trump_effective_suit t a Ha) as Ea.
  pose proof (trump_effective_suit t b Hb) as Eb.
  pose proof (trump_effective_suit t c Hc) as Ec.
  rewrite Baa, Bab, Bba, Bbc, Bac.
  split; [ | split].
  - f_equal. destruct raa; [ | reflexivity].
    destruct Saa as [Saa _].
    destruct (Saa eq_refl) as [[_ H] | [(H & _) | (H & _)]];
      [lia | now elim H | now elim H].
  - intros Hab. f_equal. destruct rba; [ | reflexivity]. exfalso.
    assert (Rab : rab = true) by congruence.
    apply Sab in Rab. destruct Sba as [Sba _]. specialize (Sba eq_refl).
    destruct Rab as [[E1 L1] | [(N1 & T1 & U1) | (N1 & T1 & L1 & M1 & U1)]];
      destruct Sba
        as [[E2 L2] | [(N2 & T2 & U2) | (N2 & T2 & L2 & M2 & U2)]];
      try congruence; try lia.
  - intros Hab Hbc. f_equal.
    assert (Rab : rab = true) by congruence.
    assert (Rbc : rbc = true) by congruence.
    apply Sab in Rab. apply Sbc in Rbc. apply Sac.
    exact (beats_chain _ _ _ led _ _ _ oa ob oc Ea Eb Ec Rab Rbc).
Qed.

Lemma beats_strict_order_witness :
  beats (mkTrump "♠" "2") (mkCard "♥" "A" 0) (mkCard "♥" "A" 0) "♥"
  = Some false.
Proof.
  exact (proj1 (beats_strict_order (mkTrump "♠" "2") (mkCard "♥" "A" 0)
                  (mkCard "♥" "K" 0) (mkCard "♣" "3" 1) "♥"
                  eq_refl eq_refl eq_refl)).
Defined.

(** *** [is_valid_lead] *)

Lemma set_of_In (x : string) (l : list string) :
  In x (Py.set_of String.eqb l) <-> In x l.
Proof.
  induction l as [ | y l IH]; cbn; [tauto | ].
  destruct (Py.contains String.eqb y (Py.set_of String.eqb l)) eqn:C.
  - apply contains_string_In in C. split.
    + intros H. right. now apply IH.
    + intros [<- | H]; [exact C | now apply IH].
  - cbn. rewrite IH. tauto.
Qed.

Lemma set_of_NoDup (l : list string) : NoDup (Py.set_of String.eqb l).
Proof.
  induction l as [ | y l IH]; cbn; [constructor | ].
  destruct (Py.contains String.eqb y (Py.set_of String.eqb l)) eqn:C;
    [assumption | ].
  constructor; [ | assumption].
  intros H. apply contains_string_In in H. congruence.
Qed.

(** X4: a lead is accepted exactly when it is not empty and all its cards
    have one effective suit. *)
Theorem is_valid_lead_iff (cards : list Card) (t : TrumpSystem) :
  fst (is_valid_lead cards t) = true <->
  cards <> [] /\
  forall a b, In a cards -> In b cards ->
              effective_suit t a = effective_suit t b.
Proof.
  unfold is_valid_lead. destruct cards as [ | c0 cards]; cbn [fst].
  - split; [discriminate | intros [H _]; now elim H].
  - remember (c0 :: cards) as l eqn:El.
    assert (H0 : In c0 l) by (subst l; now left).
    assert (Hne : l <> []) by (subst l; discriminate).
    clear El.
    pose proof (fun x => set_of_In x (map (effective_suit t) l)) as Hin.
    pose proof (set_of_NoDup (map (effective_suit t) l)) as Hnd.
    remember (Py.set_of String.eqb (map (effective_suit t) l)) as s eqn:Es.
    clear Es.
    destruct (Z.gtb_spec (Py.len s) 1) as [Hgt | Hle]; cbn [fst].
    + split; [discriminate | ]. intros [_ Hall]. exfalso.
      assert (Hincl : incl s [effective_suit t c0]).
      { intros x Hx. apply Hin in Hx. apply in_map_iff in Hx.
        destruct Hx as (c & <- & Hc). left. apply Hall; [exact H0 | exact Hc]. }
      pose proof (NoDup_incl_length Hnd Hincl) as Hlen.
      change (length [effective_suit t c0]) with 1%nat in Hlen.
      unfold Py.len in Hgt. lia.
    + split; [ | reflexivity]. intros _. split; [exact Hne | ].
      intros a b Hla Hlb.
      assert (Ha : In (effective_suit t a) s)
        by (apply Hin, in_map; assumption).
      assert (Hb : In (effective_suit t b) s)
        by (apply Hin, in_map; assumption).
      unfold Py.len in Hle.
      destruct s as [ | x [ | y s']]; cbn in Ha, Hb, Hle.
      * contradiction.
      * destruct Ha as [<- | []]. destruct Hb as [<- | []]. reflexivity.
      * lia.
Qed.

(* ----------------------------------------------------------------- *)
(** ** The ledger of a round: where the cards are and who has the points *)

#[global] Arguments copies : simpl never.
#[global] Arguments card_points : simpl never.
#[global] Arguments played : simpl never.

Lemma copies_nil (c : Card) : copies c [] = 0%nat.
Proof. reflexivity. Qed.

Lemma copies_app (c : Card) (l1 l2 : list Card) :
  copies c (l1 ++ l2) = (copies c l1 + copies c l2)%nat.
Proof. apply count_occ_app. Qed.

Lemma copies_cons (c x : Card) (l : list Card) :
  copies c (x :: l) = (copies c [x] + copies c l)%nat.
Proof. apply (copies_app c [x] l). Qed.

Lemma copies_perm (c : Card) (l l' : list Card) :
  Permutation l l' -> copies c l = copies c l'.
Proof.
  intros H. unfold copies.
  now apply (proj1 (Permutation_count_occ Card_eq_dec l l')).
Qed.

Lemma copies_remove (c x : Card) (l r : list Card) :
  Py.remove card_eqb x l = Some r ->
  copies c l = (copies c [x] + copies c r)%nat.
Proof.
  revert r. induction l as [ | y l IH]; intros r; cbn [Py.remove].
  - discriminate.
  - destruct (card_eqb y x) eqn:E.
    + apply card_eqb_eq in E. subst y. intros [= <-]. apply copies_cons.
    + destruct (Py.remove card_eqb x l) as [r' | ]; [ | discriminate].
      intros [= <-]. rewrite (copies_cons c y l), (copies_cons c y r').
      rewrite (IH r' eq_refl). lia.
Qed.

Lemma copies_remove_all (c : Card) (chunk l r : list Card) :
  remove_all chunk l = Some r ->
  copies c l = (copies c chunk + copies c r)%nat.
Proof.
  revert l r. induction chunk as [ | x chunk IH]; intros l r;
    cbn [remove_all].
  - intros [= <-]. reflexivity.
  - destruct (Py.remove card_eqb x l) as [l' | ] eqn:Hr; [ | discriminate].
    intros H. rewrite (copies_cons c x chunk).
    rewrite (copies_remove c x l l' Hr), (IH l' r H). lia.
Qed.

Lemma copies_set_nth (c : Card) (hs : list (list Card)) (n : nat)
      (h h' : list Card) :
  nth_error hs n = Some h ->
  (copies c (concat (Py.set_nth hs n h')) + copies c h
   = copies c (concat hs) + copies c h')%nat.
Proof.
  revert n. induction hs as [ | x hs IH]; intros [ | n]; cbn;
    try discriminate.
  - intros [= ->]. rewrite !copies_app. lia.
  - intros H. rewrite !copies_app. specialize (IH n H). lia.
Qed.

Lemma copies_setidx (c : Card) (hs hs' : list (list Card)) (i : Z)
      (h h' : list Card) :
  Py.getidx hs i = Some h -> Py.setidx hs i h' = Some hs' ->
  (copies c (concat hs') + copies c h
   = copies c (concat hs) + copies c h')%nat.
Proof.
  unfold Py.getidx, Py.setidx.
  destruct (Py.norm_index hs i) as [n | ]; [ | discriminate].
  intros Hg [= <-]. now apply copies_set_nth.
Qed.

Lemma sort_hand_perm (t : TrumpSystem) (h h' : list Card) :
  sort_hand t h = Some h' -> Permutation h h'.
Proof.
  unfold sort_hand.
  destruct (keyed (card_order t) h) as [ks | ] eqn:Hk; [ | discriminate].
  intros [= <-]. rewrite <- (keyed_snd _ _ _ Hk) at 1.
  apply Permutation_map, sorted_by_rev_perm.
Qed.

Lemma copies_resort (c : Card) (t : TrumpSystem) (idxs : list Z)
      (hs hs' : list (list Card)) :
  resort_hands t idxs hs = Some hs' ->
  copies c (concat hs') = copies c (concat hs).
Proof.
  revert hs. induction idxs as [ | i idxs IH]; intros hs; cbn.
  - now intros [= <-].
  - destruct (Py.getidx hs i) as [h | ] eqn:Hg; [ | discriminate].
    destruct (sort_hand t h) as [h1 | ] eqn:Hs; [ | discriminate].
    destruct (Py.setidx hs i h1) as [hs1 | ] eqn:Hset; [ | discriminate].
    intros H. rewrite (IH _ H).
    pose proof (copies_setidx c _ _ _ _ _ Hg Hset) as E.
    rewrite (copies_perm c _ _ (sort_hand_perm _ _ _ Hs)) in E. lia.
Qed.

Lemma getidx_drop {A} (l : list A) (i : Z) (x : A) :
  0 <= i -> Py.getidx l i = Some x ->
  Py.drop i l = x :: Py.drop (i + 1) l.
Proof.
  intros Hi. unfold Py.getidx, Py.norm_index, Py.drop.
  destruct ((0 <=? i) && (i <? Py.len l)) eqn:E.
  - replace (Z.to_nat (i + 1)) with (S (Z.to_nat i)) by lia.
    generalize (Z.to_nat i). clear. intros n. revert l.
    induction n as [ | n IH]; intros [ | y l]; cbn; try discriminate.
    + now intros [= ->].
    + apply IH.
  - destruct ((- Py.len l <=? i) && (i <? 0)) eqn:E2; [ | discriminate].
    apply andb_true_iff in E2. destruct E2 as [_ E2]. apply Z.ltb_lt in E2.
    lia.
Qed.

Lemma concat_repeat_nil {A} (k : nat) : concat (repeat (@nil A) k) = [].
Proof. induction k as [ | k IH]; [reflexivity | exact IH]. Qed.

Lemma all_empty_concat (hs : list (list Card)) :
  forallb (fun h : list Card => Py.len h =? 0) hs = true -> concat hs = [].
Proof.
  induction hs as [ | h hs IH]; cbn [forallb concat]; [reflexivity | ].
  rewrite andb_true_iff. intros [H1 H2]. rewrite (IH H2).
  destruct h; [reflexivity | ].
  apply Z.eqb_eq in H1. rewrite len_cons in H1.
  pose proof (len_nonneg h). lia.
Qed.

Lemma card_points_app (l1 l2 : list Card) :
  card_points (l1 ++ l2) = card_points l1 + card_points l2.
Proof. unfold card_points. now rewrite map_app, sum_app. Qed.

Lemma card_points_perm (l l' : list Card) :
  Permutation l l' -> card_points l = card_points l'.
Proof.
  unfold card_points. intros H.
  induction H as [ | x l l' _ IH | x y l | l l' l'' _ IH1 _ IH2]; cbn [map].
  - reflexivity.
  - rewrite !sum_cons, IH. reflexivity.
  - rewrite !sum_cons. lia.
  - congruence.
Qed.

Lemma add_score_sum (s0 s1 team pts : Z) (sc : list Z) :
  add_score [s0; s1] team pts = Some sc ->
  exists a b, sc = [a; b] /\ a + b = s0 + s1 + pts.
Proof.
  unfold add_score, Py.getidx, Py.setidx.
  destruct (Py.norm_index [s0; s1] team) as [[ | [ | n]] | ]; cbn;
    try discriminate.
  - intros [= <-]. do 2 eexists. split; [reflexivity | lia].
  - intros [= <-]. do 2 eexists. split; [reflexivity | lia].
  - destruct n; discriminate.
Qed.

Lemma played_trick_play (tr tr' : Trick) (p : Z) (cards : list Card) :
  trick_play tr p cards = Some tr' -> played tr' = played tr ++ cards.
Proof.
  unfold trick_play. destruct (new_CardCombo _ _); [ | discriminate].
  intros [= <-]. unfold played. cbn [plays].
  rewrite flat_map_app. cbn. now rewrite app_nil_r.
Qed.

Lemma new_GameState_ledger deck n r d st :
  new_GameState deck n r d = Some st -> ledger deck st.
Proof.
  unfold new_GameState. destruct (n =? 0); [discriminate | ].
  intros [= <-]. unfold ledger, whereabouts, cards_in_tricks, stock,
    phase_shape. cbn.
  split; [reflexivity | ]. split.
  { intros c. rewrite concat_repeat_nil. reflexivity. }
  split; [lia | ]. split; [auto | ]. split.
  { exists 0, 0. split; reflexivity. }
  discriminate.
Qed.

Lemma deal_next_card_ledger deck st r st' :
  ledger deck st -> deal_next_card st = Some (r, st') -> ledger deck st'.
Proof.
  intros (Hd & Hc & Hpos & Hs & Hsc & Hend). unfold deal_next_card.
  destruct (_deal_idx st >=? _kitty_start st) eqn:Hdone.
  { intros [= <- <-]. repeat split; assumption. }
  destruct (num_players st =? 0); [discriminate | ].
  destruct (Py.getidx (_deck st) (_deal_idx st)) as [card | ] eqn:Hcard;
    [ | discriminate].
  destruct (Py.getidx (hands st) _) as [h | ] eqn:Hh; [ | discriminate].
  destruct (Py.setidx (hands st) _ (h ++ [card])) as [hs | ] eqn:Hset;
    [ | discriminate].
  assert (Hlt : _deal_idx st < _kitty_start st).
  { destruct (Z.geb_spec (_deal_idx st) (_kitty_start st));
      [discriminate | lia]. }
  unfold ledger, whereabouts, cards_in_tricks, stock, phase_shape in *.
  destruct (phase st) eqn:Hph; try lia.
  destruct Hs as (Hk & Ht & Hct).
  rewrite Hk, Ht in Hc. cbn beta iota in Hc. cbn [flat_map] in Hc.
  rewrite (getidx_drop _ _ _ Hpos Hcard) in Hc.
  cbn [_deal_idx _kitty_start].
  destruct (_deal_idx st + 1 >=? _kitty_start st) eqn:Hlast.
  - unfold _finalize_declaration. cbn.
    destruct (match declaration st with
              | Some (player, cards) => _
              | None => _
              end) as [[player team] tsuit].
    destruct (resort_hands _ _ hs) as [hs2 | ] eqn:Hre; [ | discriminate].
    intros [= <- <-]. cbn.
    assert (Hge : _kitty_start st <= _deal_idx st + 1).
    { destruct (Z.geb_spec (_deal_idx st + 1) (_kitty_start st));
        [lia | discriminate]. }
    assert (Hks : _kitty_start st = _deal_idx st + 1) by lia.
    split; [exact Hd | ]. split.
    { intros c. specialize (Hc c).
      pose proof (copies_setidx c _ _ _ _ _ Hh Hset) as E.
      pose proof (copies_resort c _ _ _ _ Hre) as E2.
      rewrite Ht, Hks. cbn [flat_map].
      rewrite !copies_app, ?copies_nil in *.
      rewrite copies_cons in Hc. lia. }
    split; [lia | ]. split; [lia | ]. split; [ | discriminate].
    exact Hsc.
  - intros [= <- <-]. cbn.
    split; [exact Hd | ]. split.
    { intros c. specialize (Hc c).
      pose proof (copies_setidx c _ _ _ _ _ Hh Hset) as E.
      rewrite Hk, Ht. cbn [flat_map].
      rewrite !copies_app, ?copies_nil in *.
      rewrite copies_cons in Hc. lia. }
    split; [lia | ]. split; [auto | ]. split; [exact Hsc | discriminate].
Qed.

Lemma declare_trump_ledger deck st p cards r st' :
  ledger deck st -> declare_trump st p cards = Some (r, st') ->
  ledger deck st'.
Proof.
  intros Hinv. unfold declare_trump.
  destruct (negb (GamePhase_eqb (phase st) DEALING));
    [intros [= <- <-]; assumption | ].
  destruct (all_in_hand _ _ _) as [held | ]; [ | discriminate].
  destruct (negb held); [intros [= <- <-]; assumption | ].
  destruct (_ =? 0); [intros [= <- <-]; assumption | ].
  destruct (_ <=? _); [intros [= <- <-]; assumption | ].
  destruct (match filter _ cards with [] => _ | c :: _ => _ end)
    as [tsuit t].
  intros [= <- <-]. exact Hinv.
Qed.

Lemma bury_kitty_ledger deck st cards st' :
  ledger deck st -> phase st = KITTY -> bury_kitty st cards = Some st' ->
  ledger deck st'.
Proof.
  intros (Hd & Hc & Hpos & Hs & Hsc & Hend) Hph. unfold bury_kitty.
  destruct (negb (Py.len cards =? KITTY_SIZE)); [discriminate | ].
  destruct (Py.getidx (hands st) _) as [h | ] eqn:Hh; [ | discriminate].
  destruct (remove_all cards (h ++ kitty st)) as [h' | ] eqn:Hr;
    [ | discriminate].
  destruct (Py.setidx (hands st) _ h') as [hs | ] eqn:Hset; [ | discriminate].
  intros [= <-].
  unfold ledger, whereabouts, cards_in_tricks, stock, phase_shape in *.
  rewrite Hph in *. cbn.
  split; [exact Hd | ]. split.
  { intros c. specialize (Hc c).
    pose proof (copies_setidx c _ _ _ _ _ Hh Hset) as E.
    pose proof (copies_remove_all c _ _ _ Hr) as E2.
    rewrite !copies_app, ?copies_nil in *. lia. }
  split; [exact Hpos | ]. split; [exact Hs | ].
  split; [exact Hsc | discriminate].
Qed.

Lemma play_cards_ledger deck st p cards r st' :
  ledger deck st -> play_cards st p cards = Some (r, st') -> ledger deck st'.
Proof.
  intros (Hd & Hc & Hpos & Hs & Hsc & Hend). unfold play_cards.
  destruct (negb (p =? current_player st)); [discriminate | ].
  destruct (GamePhase_eqb (phase st) PLAYING) eqn:Hph; [ | discriminate].
  apply GamePhase_eqb_eq in Hph. cbn [negb].
  destruct (Py.getidx (hands st) p) as [h | ] eqn:Hh; [ | discriminate].
  destruct (remove_all cards h) as [h' | ] eqn:Hr; [ | discriminate].
  destruct (Py.setidx (hands st) p h') as [hs | ] eqn:Hset; [ | discriminate].
  destruct (current_trick st) as [trick0 | ] eqn:Hct; [ | discriminate].
  destruct (trick_play trick0 p cards) as [trick | ] eqn:Htp;
    [ | discriminate].
  apply played_trick_play in Htp.
  destruct Hsc as (s0 & s1 & Hsc & Hsum).
  unfold ledger, whereabouts, cards_in_tricks, stock, phase_shape in *.
  rewrite Hph, Hct in *.
  assert (Hcopies : forall c,
    (copies c (concat hs) + copies c (kitty st)
     + copies c (flat_map played (tricks st)) + copies c (played trick)
     = copies c deck)%nat).
  { intros c. specialize (Hc c).
    pose proof (copies_setidx c _ _ _ _ _ Hh Hset) as E.
    pose proof (copies_remove_all c _ _ _ Hr) as E2.
    rewrite Htp. rewrite !copies_app, ?copies_nil in *. lia. }
  destruct (is_complete trick).
  - destruct (winner trick) as [w | ]; [ | discriminate].
    rewrite Hsc.
    destruct (add_score [s0; s1] _ _) as [sc | ] eqn:Hsc1;
      [ | discriminate].
    destruct (add_score_sum _ _ _ _ _ Hsc1) as (a & b & -> & Hab).
    destruct (forallb _ hs) eqn:Hall.
    + destruct (add_score [a; b] _ _) as [sc' | ] eqn:Hsc2;
        [ | discriminate].
      destruct (add_score_sum _ _ _ _ _ Hsc2) as (a' & b' & -> & Hab').
      intros [= <- <-]. cbn.
      split; [exact Hd | ]. split.
      { intros c. specialize (Hcopies c).
        rewrite flat_map_app. cbn [flat_map].
        rewrite !copies_app, ?copies_nil in *. lia. }
      split; [exact Hpos | ]. split; [exact Hs | ]. split.
      { exists a', b'. split; [reflexivity | ].
        rewrite flat_map_app. cbn [flat_map].
        rewrite !card_points_app. unfold points in Hab.
        fold (played trick) in Hab. fold (card_points (played trick)) in Hab.
        fold (card_points (kitty st)) in Hab'.
        change (card_points []) with 0. lia. }
      intros _. now apply all_empty_concat.
    + intros [= <- <-]. cbn.
      split; [exact Hd | ]. split.
      { intros c. specialize (Hcopies c).
        rewrite flat_map_app. cbn [flat_map].
        rewrite !copies_app, ?copies_nil in *. lia. }
      split; [exact Hpos | ]. split; [exact Hs | ]. split; [ | discriminate].
      exists a, b. split; [reflexivity | ].
      rewrite flat_map_app. cbn [flat_map].
      rewrite !card_points_app. unfold points in Hab.
      fold (played trick) in Hab. fold (card_points (played trick)) in Hab.
      change (card_points []) with 0. lia.
  - destruct (num_players st =? 0); [discriminate | ].
    intros [= <- <-]. cbn.
    split; [exact Hd | ]. split.
    { intros c. specialize (Hcopies c).
      rewrite !copies_app, ?copies_nil in *. lia. }
    split; [exact Hpos | ]. split; [exact Hs | ]. split; [ | discriminate].
    exists s0, s1. split; [exact Hsc | exact Hsum].
Qed.

Lemma step_ledger deck st st' : ledger deck st -> step st st' -> ledger deck st'.
Proof.
  intros Hinv Hstep. destruct Hstep.
  - eapply deal_next_card_ledger; eauto.
  - eapply declare_trump_ledger; eauto.
  - eapply bury_kitty_ledger; eauto.
  - eapply play_cards_ledger; eauto.
Qed.

Lemma reachable_ledger deck n r d st0 st :
  new_GameState deck n r d = Some st0 -> reachable st0 st -> ledger deck st.
Proof.
  intros H0 Hr. induction Hr as [ | st st' _ IH Hstep].
  - eapply new_GameState_ledger; eauto.
  - eapply step_ledger; eauto.
Qed.

Lemma apply_move_step st m st' : apply_move st m = Some st' -> step st st'.
Proof.
  destruct m as [ | p cards | cards | p cards]; cbn [apply_move].
  - destruct (deal_next_card st) as [[r s] | ] eqn:E; [ | discriminate].
    intros [= <-]. eapply step_deal; eauto.
  - destruct (declare_trump st p cards) as [[r s] | ] eqn:E;
      [ | discriminate].
    intros [= <-]. eapply step_declare; eauto.
  - destruct (GamePhase_eqb (phase st) KITTY) eqn:E; [ | discriminate].
    apply GamePhase_eqb_eq in E. intros H. eapply step_bury; eauto.
  - destruct (play_cards st p cards) as [[r s] | ] eqn:E; [ | discriminate].
    intros [= <-]. eapply step_play; eauto.
Qed.

Lemma run_reachable st0 ms st st' :
  reachable st0 st -> run ms st = Some st' -> reachable st0 st'.
Proof.
  revert st. induction ms as [ | m ms IH]; intros st Hr; cbn [run].
  - now intros [= <-].
  - destruct (apply_move st m) as [s | ] eqn:E; [ | discriminate].
    apply IH. eapply reach_step; [exact Hr | ].
    eapply apply_move_step. exact E.
Qed.

Lemma short_round_runs :
  exists st0 st,
    new_GameState short_deck 4 "2" 0 = Some st0 /\
    run short_round st0 = Some st /\
    phase st = SCORING /\ scores st = [40; 0].
Proof.
  eexists. eexists. split; [reflexivity | ].
  split; [vm_compute; reflexivity | ]. split; reflexivity.
Qed.

(** X5: at every moment of a round each card of the deck lies in exactly one
    place: the hands, the kitty, the tricks and the undealt stock together
    hold the deck, card for card. *)
Theorem cards_are_somewhere deck n r d st0 st :
  new_GameState deck n r d = Some st0 -> reachable st0 st ->
  Permutation (whereabouts st) deck /\
  (NoDup deck -> NoDup (whereabouts st)).
Proof.
  intros H0 Hr.
  destruct (reachable_ledger _ _ _ _ _ _ H0 Hr) as (_ & Hc & _).
  assert (P : Permutation (whereabouts st) deck).
  { apply (Permutation_count_occ Card_eq_dec). exact Hc. }
  split; [exact P | ].
  intros Hnd. eapply Permutation_NoDup; [ | exact Hnd].
  now apply Permutation_sym.
Qed.

Lemma cards_are_somewhere_witness :
  exists st0 st,
    new_GameState short_deck 4 "2" 0 = Some st0 /\
    run short_round st0 = Some st /\
    Permutation (whereabouts st) short_deck /\
    (NoDup short_deck -> NoDup (whereabouts st)).
Proof.
  eexists. eexists. split; [reflexivity | ].
  split; [vm_compute; reflexivity | ].
  eapply (cards_are_somewhere short_deck 4 "2" 0).
  - reflexivity.
  - eapply (run_reachable _ short_round);
      [apply reach_start | vm_compute; reflexivity].
Defined.

Lemma double_deck_points : card_points double_deck = 200.
Proof. vm_compute. reflexivity. Qed.

Lemma reachable_scores deck n r d st0 st :
  new_GameState deck n r d = Some st0 -> reachable st0 st ->
  exists s0 s1,
    scores st = [s0; s1] /\
    s0 + s1 + card_points (unscored st) = card_points deck /\
    (phase st = SCORING -> s0 + s1 = card_points deck).
Proof.
  intros H0 Hr.
  destruct (reachable_ledger _ _ _ _ _ _ H0 Hr)
    as (_ & Hc & _ & _ & (s0 & s1 & Hsc & Hsum) & Hend).
  assert (P : Permutation (whereabouts st) deck).
  { apply (Permutation_count_occ Card_eq_dec). exact Hc. }
  apply card_points_perm in P.
  exists s0, s1. split; [exact Hsc | ].
  unfold whereabouts, cards_in_tricks, unscored, stock in *.
  rewrite !card_points_app in *.
  destruct (phase st) eqn:Hph;
    try (split; [ | discriminate];
         change (card_points []) with 0 in *; lia).
  rewrite (Hend eq_refl) in *.
  change (card_points []) with 0 in *.
  split; [lia | intros _; lia].
Qed.

(** X6: the two scores and the points of the cards not yet awarded (hands,
    kitty, current trick, undealt stock) always add up to the points of the
    deck; once the round is in SCORING the two scores alone do. *)
Theorem score_accounting deck n r d st0 st :
  new_GameState deck n r d = Some st0 -> reachable st0 st ->
  exists s0 s1,
    scores st = [s0; s1] /\
    s0 + s1 + card_points (unscored st) = card_points deck /\
    (phase st = SCORING -> s0 + s1 = card_points deck).
Proof. apply reachable_scores. Qed.

Lemma score_accounting_witness :
  exists st0 st,
    new_GameState short_deck 4 "2" 0 = Some st0 /\
    run short_round st0 = Some st /\
    exists s0 s1,
      scores st = [s0; s1] /\
      s0 + s1 + card_points (unscored st) = card_points short_deck /\
      (phase st = SCORING -> s0 + s1 = card_points short_deck).
Proof.
  eexists. eexists. split; [reflexivity | ].
  split; [vm_compute; reflexivity | ].
  eapply (score_accounting short_deck 4 "2" 0).
  - reflexivity.
  - eapply (run_reachable _ short_round);
      [apply reach_start | vm_compute; reflexivity].
Defined.

(** X7: in a round played with the shuffled double deck the two scores and
    the points not yet awarded always add up to 200, so a finished round has
    handed out exactly 200 points. *)
Theorem double_deck_round_hands_out_200 deck n r d st0 st :
  Permutation double_deck deck ->
  new_GameState deck n r d = Some st0 -> reachable st0 st ->
  exists s0 s1,
    scores st = [s0; s1] /\
    s0 + s1 + card_points (unscored st) = 200 /\
    (phase st = SCORING -> s0 + s1 = 200).
Proof.
  intros P H0 Hr. rewrite <- double_deck_points.
  rewrite (card_points_perm _ _ P). eapply reachable_scores; eauto.
Qed.

Lemma double_deck_round_hands_out_200_witness :
  exists st0 st,
    new_GameState double_deck 4 "2" 0 = Some st0 /\
    run [Deal; Deal; Deal] st0 = Some st /\
    exists s0 s1,
      scores st = [s0; s1] /\
      s0 + s1 + card_points (unscored st) = 200 /\
      (phase st = SCORING -> s0 + s1 = 200).
Proof.
  eexists. eexists. split; [reflexivity | ].
  split; [vm_compute; reflexivity | ].
  eapply (double_deck_round_hands_out_200 double_deck 4 "2" 0).
  - apply Permutation_refl.
  - reflexivity.
  - eapply (run_reachable _ [Deal; Deal; Deal]);
      [apply reach_start | vm_compute; reflexivity].
Defined.

Lemma deal_phase st r st' :
  phase_shape st -> deal_next_card st = Some (r, st') ->
  phase st' = phase st
  \/ phase_rank (phase st') = phase_rank (phase st) + 1.
Proof.
  intros Hs Hd. unfold phase_shape in Hs. unfold deal_next_card in Hd.
  destruct (_deal_idx st >=? _kitty_start st) eqn:Hdone.
  { injection Hd as <- <-. now left. }
  assert (Hlt : _deal_idx st < _kitty_start st).
  { destruct (Z.geb_spec (_deal_idx st) (_kitty_start st));
      [discriminate | lia]. }
  destruct (phase st) eqn:Hph; try lia.
  destruct (num_players st =? 0); [discriminate | ].
  destruct (Py.getidx (_deck st) _); [ | discriminate].
  destruct (Py.getidx (hands st) _); [ | discriminate].
  destruct (Py.setidx (hands st) _ _); [ | discriminate].
  cbn [_deal_idx _kitty_start] in Hd.
  destruct (_deal_idx st + 1 >=? _kitty_start st).
  - unfold _finalize_declaration in Hd. cbn in Hd.
    destruct (match declaration st with
              | Some (player, cards) => _
              | None => _
              end) as [[player team] tsuit].
    destruct (resort_hands _ _ _); [ | discriminate].
    injection Hd as <- <-. right. reflexivity.
  - injection Hd as <- <-. left. reflexivity.
Qed.

Lemma declare_phase st p cards r st' :
  declare_trump st p cards = Some (r, st') -> phase st' = phase st.
Proof.
  unfold declare_trump.
  destruct (negb (GamePhase_eqb (phase st) DEALING));
    [now intros [= <- <-] | ].
  destruct (all_in_hand _ _ _) as [held | ]; [ | discriminate].
  destruct (negb held); [now intros [= <- <-] | ].
  destruct (_ =? 0); [now intros [= <- <-] | ].
  destruct (_ <=? _); [now intros [= <- <-] | ].
  destruct (match filter _ cards with [] => _ | c :: _ => _ end)
    as [tsuit t].
  now intros [= <- <-].
Qed.

Lemma play_phase st p cards r st' :
  play_cards st p cards = Some (r, st') ->
  phase st = PLAYING /\ (phase st' = PLAYING \/ phase st' = SCORING).
Proof.
  unfold play_cards.
  destruct (negb (p =? current_player st)); [discriminate | ].
  destruct (GamePhase_eqb (phase st) PLAYING) eqn:Hph; [ | discriminate].
  apply GamePhase_eqb_eq in Hph. cbn [negb].
  destruct (Py.getidx (hands st) p); [ | discriminate].
  destruct (remove_all cards _); [ | discriminate].
  destruct (Py.setidx (hands st) p _) as [hs | ]; [ | discriminate].
  destruct (current_trick st); [ | discriminate].
  destruct (trick_play _ p cards) as [trick | ]; [ | discriminate].
  destruct (is_complete trick).
  - destruct (winner trick) as [w | ]; [ | discriminate].
    destruct (add_score _ _ _) as [sc | ]; [ | discriminate].
    destruct (forallb _ hs).
    + destruct (add_score sc _ _); [ | discriminate].
      intros [= <- <-]. split; [exact Hph | now right].
    + intros [= <- <-]. split; [exact Hph | now left].
  - destruct (num_players st =? 0); [discriminate | ].
    intros [= <- <-]. split; [exact Hph | now left].
Qed.

Lemma bury_phase st cards st' :
  bury_kitty st cards = Some st' -> phase st' = PLAYING.
Proof.
  unfold bury_kitty.
  destruct (negb _); [discriminate | ].
  destruct (Py.getidx (hands st) _); [ | discriminate].
  destruct (remove_all _ _); [ | discriminate].
  destruct (Py.setidx (hands st) _ _); [ | discriminate].
  now intros [= <-].
Qed.

(** X8: in a state of a round (one reached by calls in which [bury_kitty]
    was made in the KITTY phase, as the driver makes it), a completed
    [deal_next_card] or [play_cards] leaves the phase or moves it to the
    next one of DEALING, KITTY, PLAYING, SCORING, and a completed
    [declare_trump] leaves it.  [bury_kitty] has no phase test of its own: a
    completed call sets PLAYING from whatever phase it is made in, which is
    the next phase exactly when the call is made in KITTY. *)
Theorem phase_moves_forward deck n r d st0 st :
  new_GameState deck n r d = Some st0 -> reachable st0 st ->
  (forall res st', deal_next_card st = Some (res, st') ->
     phase st' = phase st
     \/ phase_rank (phase st') = phase_rank (phase st) + 1) /\
  (forall p cards res st', declare_trump st p cards = Some (res, st') ->
     phase st' = phase st) /\
  (forall p cards res st', play_cards st p cards = Some (res, st') ->
     phase st' = phase st
     \/ phase_rank (phase st') = phase_rank (phase st) + 1) /\
  (forall cards st', bury_kitty st cards = Some st' ->
     phase st' = PLAYING
     /\ (phase_rank (phase st') = phase_rank (phase st) + 1
         <-> phase st = KITTY)).
Proof.
  intros H0 Hr.
  destruct (reachable_ledger _ _ _ _ _ _ H0 Hr) as (_ & _ & _ & Hs & _).
  split; [ | split; [ | split]].
  - intros res st' Hd. eapply deal_phase; eauto.
  - intros p cards res st' Hd. eapply declare_phase; eauto.
  - intros p cards res st' Hp.
    destruct (play_phase _ _ _ _ _ Hp) as [Hph [H | H]]; rewrite Hph, H.
    + now left.
    + right. reflexivity.
  - intros cards st' Hb. pose proof (bury_phase _ _ _ Hb) as Hp.
    split; [exact Hp | ]. rewrite Hp.
    destruct (phase st); cbn; split; intros H; try reflexivity;
      try discriminate; lia.
Qed.

Lemma phase_moves_forward_witness :
  exists st0 st st',
    new_GameState short_deck 4 "2" 0 = Some st0 /\
    run [Deal; Deal; Deal] st0 = Some st /\
    deal_next_card st = Some (Some (3, mkCard "♥" "10" 0), st') /\
    (phase st' = phase st
     \/ phase_rank (phase st') = phase_rank (phase st) + 1).
Proof.
  eexists. eexists. eexists. split; [reflexivity | ].
  split; [vm_compute; reflexivity | ].
  split; [vm_compute; reflexivity | ].
  eapply (proj1 (phase_moves_forward short_deck 4 "2" 0 _ _ eq_refl _)).
  vm_compute. reflexivity.
  Unshelve.
  eapply (run_reachable _ [Deal; Deal; Deal]);
    [apply reach_start | vm_compute; reflexivity].
Defined.

(** X9: a round in SCORING is closed to three of the four calls:
    [deal_next_card] returns None and [declare_trump] declines, both leaving
    the state as it is, and [play_cards] raises.  [bury_kitty] is the
    exception: it tests no phase, and a call that returns puts the round
    back in PLAYING. *)
Theorem scoring_is_final deck n r d st0 st :
  new_GameState deck n r d = Some st0 -> reachable st0 st ->
  phase st = SCORING ->
  (forall res st', deal_next_card st = Some (res, st') ->
     res = None /\ st' = st) /\
  (forall p cards res st', declare_trump st p cards = Some (res, st') ->
     fst res = false /\ st' = st) /\
  (forall p cards, play_cards st p cards = None) /\
  (forall cards st', bury_kitty st cards = Some st' -> phase st' = PLAYING).
Proof.
  intros H0 Hr Hph.
  destruct (reachable_ledger _ _ _ _ _ _ H0 Hr) as (_ & _ & _ & Hs & _).
  unfold phase_shape in Hs. rewrite Hph in Hs.
  split; [ | split; [ | split]].
  - intros res st' Hd. unfold deal_next_card in Hd.
    destruct (Z.geb_spec (_deal_idx st) (_kitty_start st)); [ | lia].
    now injection Hd as <- <-.
  - intros p cards res st' Hd. unfold declare_trump in Hd.
    rewrite Hph in Hd. cbn in Hd. now injection Hd as <- <-.
  - intros p cards. unfold play_cards.
    destruct (negb (p =? current_player st)); [reflexivity | ].
    rewrite Hph. reflexivity.
  - intros cards st'. apply bury_phase.
Qed.

Lemma scoring_is_final_witness :
  exists st0 st st',
    new_GameState short_deck 4 "2" 0 = Some st0 /\
    run short_round st0 = Some st /\
    phase st = SCORING /\
    deal_next_card st = Some (None, st) /\
    bury_kitty st (Py.drop 4 short_deck) = Some st' /\
    phase st' = PLAYING /\
    play_cards st 0 [mkCard "♥" "A" 0] = None.
Proof.
  eexists. eexists. eexists. split; [reflexivity | ].
  split; [vm_compute; reflexivity | ].
  split; [reflexivity | ].
  split; [vm_compute; reflexivity | ].
  split; [vm_compute; reflexivity | ].
  split; [reflexivity | ].
  eapply (scoring_is_final short_deck 4 "2" 0).
  - reflexivity.
  - eapply (run_reachable _ short_round);
      [apply reach_start | vm_compute; reflexivity].
  - reflexivity.
Defined.

(* ----------------------------------------------------------------- *)
(** ** Dealing and declaring *)

Lemma getidx_some {A} (l : list A) (i : Z) :
  0 <= i < Py.len l -> exists x, Py.getidx l i = Some x /\ In x l.
Proof.
  intros Hi. unfold Py.getidx, Py.norm_index.
  destruct (Z.leb_spec 0 i); [ | lia].
  destruct (Z.ltb_spec i (Py.len l)); [ | lia]. cbn [andb].
  destruct (nth_error l (Z.to_nat i)) as [x | ] eqn:E.
  - exists x. split; [reflexivity | ]. eapply nth_error_In; eauto.
  - apply nth_error_None in E. unfold Py.len in *. lia.
Qed.

Lemma sort_hand_some (t : TrumpSystem) (h : list Card) :
  playing_cards h ->
  exists h', sort_hand t h = Some h' /\ Py.len h' = Py.len h
             /\ playing_cards h'.
Proof.
  intros H. unfold sort_hand.
  destruct (keyed_some (card_order t) h) as (ks & Hks).
  { intros c Hc. apply card_order_some. now apply H. }
  assert (Hs : sort_hand t h = Some (map snd (Py.sorted_by_rev fst ks)))
    by (unfold sort_hand; now rewrite Hks).
  rewrite Hks. eexists. split; [reflexivity | ]. split.
  - eapply sort_hand_len; eauto.
  - eapply playing_cards_perm; [ | exact H].
    eapply sort_hand_perm; eauto.
Qed.

Lemma run_app (a b : list Move) (st : GameState) :
  run (a ++ b) st = (st' <- run a st ;; run b st').
Proof.
  revert st. induction a as [ | m a IH]; intros st; cbn [run app].
  - reflexivity.
  - destruct (apply_move st m); [apply IH | reflexivity].
Qed.

Lemma mod4 (j m : Z) : 0 <= m < 4 -> (4 * j + m) mod 4 = m.
Proof.
  intros H. replace (4 * j + m) with (m + j * 4) by lia.
  rewrite Z.mod_add by lia. apply Z.mod_small. lia.
Qed.

Lemma new_GameState_dealing deck r d st0 :
  Py.len deck = 108 -> new_GameState deck 4 r d = Some st0 ->
  dealing_inv deck 0 0 st0.
Proof.
  intros Hlen. unfold new_GameState. cbn [Z.eqb]. rewrite Hlen.
  intros [= <-]. unfold dealing_inv. cbn.
  repeat (split; [reflexivity | ]).
  exists [], [], [], []. repeat (split; [reflexivity | ]).
  intros c [].
Qed.

Lemma playing_cards_app (a b : list Card) :
  playing_cards (a ++ b) <-> playing_cards a /\ playing_cards b.
Proof.
  unfold playing_cards. split.
  - intros H. split; intros c Hc; apply H, in_or_app; auto.
  - intros [Ha Hb] c Hc. apply in_app_or in Hc. destruct Hc; auto.
Qed.

(** Evaluate the closed comparisons of a goal. *)
Ltac eval_tests :=
  repeat match goal with
    | |- context [?a <? ?b] =>
        let v := eval vm_compute in (a <? b) in
        match v with
        | true => change (a <? b) with true
        | false => change (a <? b) with false
        end
    | |- context [?a =? ?b] =>
        let v := eval vm_compute in (a =? b) in
        match v with
        | true => change (a =? b) with true
        | false => change (a =? b) with false
        end
    end;
  cbn beta iota.

Ltac eval_tests_in H :=
  repeat match type of H with
    | context [?a <? ?b] =>
        let v := eval vm_compute in (a <? b) in
        match v with
        | true => change (a <? b) with true in H
        | false => change (a <? b) with false in H
        end
    end;
  cbn beta iota in H.

Lemma deal_one deck j m st :
  Py.len deck = 108 -> playing_cards deck ->
  dealing_inv deck j m st -> 0 <= j -> 0 <= m < 4 -> 4 * j + m < 99 ->
  exists r st',
    deal_next_card st = Some (r, st') /\
    dealing_inv deck (if m =? 3 then j + 1 else j)
                (if m =? 3 then 0 else m + 1) st'.
Proof.
  intros Hlen Hdeck (Hn & Hk & Hd & Hi & Hph & h0 & h1 & h2 & h3 & Hh
                     & L0 & L1 & L2 & L3 & Hp) Hj Hm Hlt.
  unfold deal_next_card. rewrite Hk, Hi, Hn, Hd.
  destruct (Z.geb_spec (4 * j + m) 100); [lia | ].
  cbn [Z.eqb]. rewrite (mod4 j m Hm).
  destruct (getidx_some deck (4 * j + m) ltac:(lia)) as (card & Hc & Hin).
  rewrite Hc, Hh. cbn [_deal_idx _kitty_start].
  destruct (Z.geb_spec (4 * j + m + 1) 100); [lia | ].
  assert (Hcard : playing_cards [card]).
  { intros c [<- | []]. now apply Hdeck. }
  apply playing_cards_app in Hp. destruct Hp as [P0 Hp].
  apply playing_cards_app in Hp. destruct Hp as [P1 Hp].
  apply playing_cards_app in Hp. destruct Hp as [P2 P3].
  assert (G0 : forall a b c e : list Card, Py.getidx [a; b; c; e] 0 = Some a)
    by reflexivity.
  assert (G1 : forall a b c e : list Card, Py.getidx [a; b; c; e] 1 = Some b)
    by reflexivity.
  assert (G2 : forall a b c e : list Card, Py.getidx [a; b; c; e] 2 = Some c)
    by reflexivity.
  assert (G3 : forall a b c e : list Card, Py.getidx [a; b; c; e] 3 = Some e)
    by reflexivity.
  assert (S0 : forall a b c e x : list Card,
             Py.setidx [a; b; c; e] 0 x = Some [x; b; c; e]) by reflexivity.
  assert (S1 : forall a b c e x : list Card,
             Py.setidx [a; b; c; e] 1 x = Some [a; x; c; e]) by reflexivity.
  assert (S2 : forall a b c e x : list Card,
             Py.setidx [a; b; c; e] 2 x = Some [a; b; x; e]) by reflexivity.
  assert (S3 : forall a b c e x : list Card,
             Py.setidx [a; b; c; e] 3 x = Some [a; b; c; x]) by reflexivity.
  assert (Hcases : m = 0 \/ m = 1 \/ m = 2 \/ m = 3) by lia.
  destruct Hcases as [-> | [-> | [-> | ->]]];
    rewrite ?G0, ?G1, ?G2, ?G3, ?S0, ?S1, ?S2, ?S3;
    do 2 eexists; (split; [reflexivity | ]);
    unfold dealing_inv;
    cbn [num_players _kitty_start _deck _deal_idx phase hands];
    eval_tests_in L0; eval_tests_in L1; eval_tests_in L2; eval_tests;
    (split; [reflexivity | ]); (split; [reflexivity | ]);
    (split; [reflexivity | ]);
    (split; [lia | ]); (split; [exact Hph | ]);
    do 4 eexists; (split; [reflexivity | ]);
    rewrite ?len_app, ?len_cons; change (Py.len (@nil Card)) with 0;
    eval_tests;
    (split; [lia | ]); (split; [lia | ]); (split; [lia | ]);
    (split; [lia | ]);
    rewrite !playing_cards_app; auto 10.
Qed.

Lemma deal_many deck (k : nat) : forall j m st,
  Py.len deck = 108 -> playing_cards deck ->
  dealing_inv deck j m st -> 0 <= j -> 0 <= m < 4 ->
  4 * j + m + Z.of_nat k <= 99 ->
  exists j' m' st',
    run (repeat Deal k) st = Some st' /\ dealing_inv deck j' m' st'
    /\ 0 <= j' /\ 0 <= m' < 4 /\ 4 * j' + m' = 4 * j + m + Z.of_nat k.
Proof.
  induction k as [ | k IH]; intros j m st Hlen Hdeck Hinv Hj Hm Hle.
  - exists j, m, st. cbn [repeat run].
    split; [reflexivity | ]. split; [exact Hinv | ].
    split; [exact Hj | ]. split; [exact Hm | ]. lia.
  - destruct (deal_one deck j m st Hlen Hdeck Hinv Hj Hm ltac:(lia))
      as (r & st1 & Hd & Hinv1).
    destruct (IH _ _ st1 Hlen Hdeck Hinv1) as (j' & m' & st' & Hrun & Hinv'
                                              & Hj' & Hm' & Hsum).
    + destruct (m =? 3); lia.
    + destruct (Z.eqb_spec m 3); lia.
    + destruct (Z.eqb_spec m 3); lia.
    + exists j', m', st'. cbn [repeat run apply_move]. rewrite Hd.
      split; [exact Hrun | ]. split; [exact Hinv' | ].
      split; [exact Hj' | ]. split; [exact Hm' | ].
      destruct (Z.eqb_spec m 3); lia.
Qed.

Lemma resort_four (t : TrumpSystem) (h0 h1 h2 h3 : list Card) :
  playing_cards h0 -> playing_cards h1 -> playing_cards h2 ->
  playing_cards h3 ->
  exists k0 k1 k2 k3,
    resort_hands t (range 4) [h0; h1; h2; h3] = Some [k0; k1; k2; k3]
    /\ Py.len k0 = Py.len h0 /\ Py.len k1 = Py.len h1
    /\ Py.len k2 = Py.len h2 /\ Py.len k3 = Py.len h3.
Proof.
  intros P0 P1 P2 P3.
  destruct (sort_hand_some t h0 P0) as (k0 & E0 & L0 & _).
  destruct (sort_hand_some t h1 P1) as (k1 & E1 & L1 & _).
  destruct (sort_hand_some t h2 P2) as (k2 & E2 & L2 & _).
  destruct (sort_hand_some t h3 P3) as (k3 & E3 & L3 & _).
  exists k0, k1, k2, k3.
  change (range 4) with [0; 1; 2; 3]. cbn [resort_hands].
  change (Py.getidx [h0; h1; h2; h3] 0) with (Some h0). cbn beta iota.
  rewrite E0.
  change (Py.setidx [h0; h1; h2; h3] 0 k0) with (Some [k0; h1; h2; h3]).
  cbn beta iota.
  change (Py.getidx [k0; h1; h2; h3] 1) with (Some h1). cbn beta iota.
  rewrite E1.
  change (Py.setidx [k0; h1; h2; h3] 1 k1) with (Some [k0; k1; h2; h3]).
  cbn beta iota.
  change (Py.getidx [k0; k1; h2; h3] 2) with (Some h2). cbn beta iota.
  rewrite E2.
  change (Py.setidx [k0; k1; h2; h3] 2 k2) with (Some [k0; k1; k2; h3]).
  cbn beta iota.
  change (Py.getidx [k0; k1; k2; h3] 3) with (Some h3). cbn beta iota.
  rewrite E3.
  change (Py.setidx [k0; k1; k2; h3] 3 k3) with (Some [k0; k1; k2; k3]).
  cbn beta iota.
  split; [reflexivity | ]. auto.
Qed.

Lemma finalize_four st h0 h1 h2 h3 :
  num_players st = 4 -> hands st = [h0; h1; h2; h3] ->
  playing_cards h0 -> playing_cards h1 -> playing_cards h2 ->
  playing_cards h3 ->
  exists st' k0 k1 k2 k3,
    _finalize_declaration st = Some st'
    /\ hands st' = [k0; k1; k2; k3]
    /\ Py.len k0 = Py.len h0 /\ Py.len k1 = Py.len h1
    /\ Py.len k2 = Py.len h2 /\ Py.len k3 = Py.len h3
    /\ kitty st' = kitty st /\ _deal_idx st' = _deal_idx st
    /\ _kitty_start st' = _kitty_start st
    /\ (declaration st = None ->
        declaring_player st' = 0 /\ declaring_team st' = 0
        /\ gs_trump st' = mkTrump "♠" (gs_trump_rank st)).
Proof.
  intros Hn Hh P0 P1 P2 P3. unfold _finalize_declaration.
  rewrite Hn, Hh.
  destruct (declaration st) as [[player cards] | ].
  - destruct (resort_four
                (mkTrump
                   match filter (fun c => negb (is_joker c)) cards with
                   | [] => gs_trump_suit st
                   | c :: _ => suit c
                   end (gs_trump_rank st)) h0 h1 h2 h3 P0 P1 P2 P3)
      as (k0 & k1 & k2 & k3 & E & L0 & L1 & L2 & L3).
    rewrite E. eexists. exists k0, k1, k2, k3.
    split; [reflexivity | ]. cbn. do 8 (split; [assumption || reflexivity | ]).
    discriminate.
  - destruct (resort_four (mkTrump "♠" (gs_trump_rank st)) h0 h1 h2 h3
                P0 P1 P2 P3)
      as (k0 & k1 & k2 & k3 & E & L0 & L1 & L2 & L3).
    rewrite E. eexists. exists k0, k1, k2, k3.
    split; [reflexivity | ]. cbn. do 8 (split; [assumption || reflexivity | ]).
    intros _. auto.
Qed.

Lemma deal_last deck st :
  Py.len deck = 108 -> playing_cards deck ->
  dealing_inv deck 24 3 st ->
  exists r st',
    deal_next_card st = Some (r, st') /\
    is_dealing_done st' = true /\ phase st' = KITTY /\
    kitty st' = Py.drop 100 deck /\
    map (fun h : list Card => Py.len h) (hands st') = [25; 25; 25; 25] /\
    (declaration st = None ->
     declaring_player st' = 0 /\ declaring_team st' = 0
     /\ gs_trump st' = mkTrump "♠" (gs_trump_rank st)).
Proof.
  intros Hlen Hdeck (Hn & Hk & Hd & Hi & Hph & h0 & h1 & h2 & h3 & Hh
                     & L0 & L1 & L2 & L3 & Hp).
  apply playing_cards_app in Hp. destruct Hp as [P0 Hp].
  apply playing_cards_app in Hp. destruct Hp as [P1 Hp].
  apply playing_cards_app in Hp. destruct Hp as [P2 P3].
  destruct (getidx_some deck 99 ltac:(lia)) as (card & Hc & Hin).
  assert (P3' : playing_cards (h3 ++ [card])).
  { apply playing_cards_app. split; [exact P3 | ].
    intros c [<- | []]. now apply Hdeck. }
  unfold deal_next_card. rewrite Hk, Hi, Hn, Hd.
  change (4 * 24 + 3) with 99.
  change (99 >=? 100) with false. change (4 =? 0) with false. cbn beta iota.
  change (99 mod 4) with 3.
  rewrite Hc, Hh.
  change (Py.getidx [h0; h1; h2; h3] 3) with (Some h3). cbn beta iota.
  change (Py.setidx [h0; h1; h2; h3] 3 (h3 ++ [card]))
    with (Some [h0; h1; h2; h3 ++ [card]]).
  cbn beta iota zeta. cbn [_deal_idx _kitty_start].
  change (99 + 1 >=? 100) with true. cbn beta iota.
  match goal with
  | |- context [_finalize_declaration ?x] =>
      destruct (finalize_four x h0 h1 h2 (h3 ++ [card]) eq_refl eq_refl
                  P0 P1 P2 P3')
        as (st3 & k0 & k1 & k2 & k3 & E & Hh3 & K0 & K1 & K2 & K3
            & Hkit & Hidx & Hks & Hdecl);
      rewrite E
  end.
  cbn [kitty _deal_idx _kitty_start declaration gs_trump_rank] in *.
  do 2 eexists. split; [reflexivity | ].
  unfold is_dealing_done.
  cbn [kitty _deal_idx _kitty_start phase hands declaring_player
       declaring_team gs_trump].
  rewrite Hidx, Hks, Hkit, Hh3. cbn [map].
  rewrite K0, K1, K2, K3, len_app, len_cons, len_nil.
  eval_tests_in L0. eval_tests_in L1. eval_tests_in L2.
  split; [reflexivity | ]. split; [reflexivity | ].
  split; [reflexivity | ]. split; [ | exact Hdecl].
  repeat f_equal; lia.
Qed.


Lemma deal_next_card_declaration st r st' :
  deal_next_card st = Some (r, st') -> declaration st' = declaration st.
Proof.
  unfold deal_next_card.
  destruct (_deal_idx st >=? _kitty_start st); [now intros [= <- <-] | ].
  destruct (num_players st =? 0); [discriminate | ].
  destruct (Py.getidx (_deck st) _); [ | discriminate].
  destruct (Py.getidx (hands st) _); [ | discriminate].
  destruct (Py.setidx (hands st) _ _); [ | discriminate].
  cbn [_deal_idx _kitty_start].
  destruct (_deal_idx st + 1 >=? _kitty_start st).
  - unfold _finalize_declaration. cbn.
    destruct (match declaration st with
              | Some (player, cards) => _
              | None => _
              end) as [[player team] tsuit].
    destruct (resort_hands _ _ _); [ | discriminate].
    now intros [= <- <-].
  - now intros [= <- <-].
Qed.

Lemma deals_keep_declaration (k : nat) : forall st st',
  run (repeat Deal k) st = Some st' -> declaration st' = declaration st.
Proof.
  induction k as [ | k IH]; intros st st'; cbn [repeat run apply_move].
  - now intros [= <-].
  - destruct (deal_next_card st) as [[r s] | ] eqn:E; [ | discriminate].
    intros H. rewrite (IH _ _ H). eapply deal_next_card_declaration; eauto.
Qed.

(** X10: dealing the 108 cards to four players: each of the first 99 calls
    of [deal_next_card] leaves the round in DEALING; the 100th ends the
    dealing with 25 cards in every hand, the last 8 cards of the deck as the
    kitty and the phase KITTY; with no declaration made, player 0 of team 0
    is the declarer and the trump suit is ♠, whatever team the constructor
    was given; a further call deals nothing. *)
Theorem dealing_completes deck r d st0 :
  Py.len deck = 108 -> playing_cards deck ->
  new_GameState deck 4 r d = Some st0 ->
  (forall k, (k < 100)%nat ->
     exists st, run (repeat Deal k) st0 = Some st
                /\ is_dealing_done st = false /\ phase st = DEALING)
  /\ exists st,
       run (repeat Deal 100) st0 = Some st
       /\ is_dealing_done st = true /\ phase st = KITTY
       /\ kitty st = Py.drop 100 deck
       /\ map (fun h : list Card => Py.len h) (hands st) = [25; 25; 25; 25]
       /\ declaring_player st = 0 /\ declaring_team st = 0
       /\ gs_trump st = mkTrump "♠" r
       /\ deal_next_card st = Some (None, st).
Proof.
  intros Hlen Hdeck H0.
  pose proof (new_GameState_dealing deck r d st0 Hlen H0) as Hinv.
  assert (Hdecl0 : declaration st0 = None /\ gs_trump_rank st0 = r).
  { unfold new_GameState in H0. cbn [Z.eqb] in H0.
    injection H0 as <-. split; reflexivity. }
  destruct Hdecl0 as [Hdecl0 Hrank0].
  split.
  - intros k Hk.
    destruct (deal_many deck k 0 0 st0 Hlen Hdeck Hinv ltac:(lia) ltac:(lia)
                ltac:(lia))
      as (j' & m' & st & Hrun & Hinv' & Hj' & Hm' & Hsum).
    exists st. split; [exact Hrun | ].
    destruct Hinv' as (_ & Hks & _ & Hi & Hph & _).
    unfold is_dealing_done. rewrite Hks, Hi.
    split; [ | exact Hph].
    destruct (Z.geb_spec (4 * j' + m') 100); [lia | reflexivity].
  - destruct (deal_many deck 99 0 0 st0 Hlen Hdeck Hinv ltac:(lia) ltac:(lia)
                ltac:(lia))
      as (j' & m' & st & Hrun & Hinv' & Hj' & Hm' & Hsum).
    assert (j' = 24 /\ m' = 3) as [-> ->] by lia.
    destruct (deal_last deck st Hlen Hdeck Hinv')
      as (r' & st' & Hd & Hdone & Hph & Hkit & Hlens & Hdef).
    pose proof (deals_keep_declaration 99 _ _ Hrun) as Hdecl.
    rewrite Hdecl0 in Hdecl.
    destruct (Hdef Hdecl) as (Hp & Ht & Htr).
    exists st'.
    change (repeat Deal 100) with (repeat Deal 99 ++ [Deal]).
    rewrite run_app, Hrun. cbn [run apply_move]. rewrite Hd.
    split; [reflexivity | ]. split; [exact Hdone | ]. split; [exact Hph | ].
    split; [exact Hkit | ]. split; [exact Hlens | ].
    split; [exact Hp | ]. split; [exact Ht | ]. split.
    + rewrite Htr. f_equal. rewrite <- Hrank0.
      clear - Hrun. revert st0 st Hrun.
      generalize 99%nat. intros k. induction k as [ | k IH];
        intros st0 st; cbn [repeat run apply_move].
      * now intros [= <-].
      * destruct (deal_next_card st0) as [[r0 s] | ] eqn:E;
          [ | discriminate].
        intros H. rewrite (IH _ _ H).
        clear - E. unfold deal_next_card in E.
        destruct (_deal_idx st0 >=? _kitty_start st0);
          [now injection E as <- <- | ].
        destruct (num_players st0 =? 0); [discriminate | ].
        destruct (Py.getidx (_deck st0) _); [ | discriminate].
        destruct (Py.getidx (hands st0) _); [ | discriminate].
        destruct (Py.setidx (hands st0) _ _); [ | discriminate].
        cbn [_deal_idx _kitty_start] in E.
        destruct (_deal_idx st0 + 1 >=? _kitty_start st0).
        -- unfold _finalize_declaration in E. cbn in E.
           destruct (match declaration st0 with
                     | Some (player, cards) => _
                     | None => _
                     end) as [[player team] tsuit].
           destruct (resort_hands _ _ _); [ | discriminate].
           now injection E as <- <-.
        -- now injection E as <- <-.
    + unfold deal_next_card. unfold is_dealing_done in Hdone.
      rewrite Hdone. reflexivity.
Qed.

Lemma dealing_completes_witness :
  exists st0 st,
    new_GameState double_deck 4 "2" 1 = Some st0 /\
    run (repeat Deal 100) st0 = Some st /\
    phase st = KITTY /\ declaring_team st = 0.
Proof.
  destruct (new_GameState double_deck 4 "2" 1) as [st0 | ] eqn:E0;
    [ | vm_compute in E0; discriminate E0].
  destruct (dealing_completes double_deck "2" 1 st0)
    as (_ & st & Hrun & _ & Hph & _ & _ & _ & Ht & _).
  - reflexivity.
  - intros c Hc.
    exact (proj1 (forallb_forall _ _) double_deck_playing_cards c Hc).
  - exact E0.
  - exists st0, st. split; [reflexivity | ].
    split; [exact Hrun | ]. split; assumption.
Defined.

(** *** The effect of a declaration *)

Lemma bid_cards_are_trump_rank (cards : list Card) (r : string) :
  0 < _bid_strength cards r ->
  forall c, In c cards -> is_joker c = true \/ rank c = r.
Proof.
  unfold _bid_strength, is_big_joker, is_small_joker, is_joker.
  destruct cards as [ | c0 [ | c1 [ | c2 rest]]]; try lia.
  - destruct (String.eqb_spec (suit c0) BIG_JOKER) as [B0 | B0].
    { intros _ c [<- | []]. left. rewrite B0. apply orb_true_r. }
    destruct (String.eqb_spec (suit c0) SMALL_JOKER) as [S0 | S0].
    { intros _ c [<- | []]. left. rewrite S0. reflexivity. }
    destruct (String.eqb_spec (rank c0) r) as [R0 | R0]; [ | lia].
    intros _ c [<- | []]. now right.
  - destruct (String.eqb_spec (suit c0) BIG_JOKER) as [B0 | B0];
      destruct (String.eqb_spec (suit c1) BIG_JOKER) as [B1 | B1];
      cbn [andb orb];
      try (intros _ c [<- | [<- | []]]; left;
           rewrite ?B0, ?B1; apply orb_true_r);
      destruct (String.eqb_spec (suit c0) SMALL_JOKER) as [S0 | S0];
      destruct (String.eqb_spec (suit c1) SMALL_JOKER) as [S1 | S1];
      cbn [andb orb];
      try (intros _ c [<- | [<- | []]]; left; rewrite ?S0, ?S1;
           reflexivity);
      destruct (String.eqb_spec (rank c0) r) as [R0 | R0];
      destruct (String.eqb_spec (rank c1) r) as [R1 | R1];
      cbn [andb orb]; try lia;
      destruct (suit c0 =? suit c1)%string; try lia;
      intros _ c [<- | [<- | []]]; now right.
Qed.

Lemma rejected_bid_keeps_state st p cards msg st' :
  declare_trump st p cards = Some ((false, msg), st') -> st' = st.
Proof.
  unfold declare_trump.
  destruct (negb (GamePhase_eqb (phase st) DEALING));
    [now intros [= _ <-] | ].
  destruct (all_in_hand _ _ _) as [held | ]; [ | discriminate].
  destruct (negb held); [now intros [= _ <-] | ].
  destruct (_ =? 0); [now intros [= _ <-] | ].
  destruct (_ <=? _); [now intros [= _ <-] | ].
  destruct (match filter _ cards with [] => _ | c :: _ => _ end)
    as [tsuit t].
  discriminate.
Qed.

(** X11: a rejected declaration leaves the state as it was.  An accepted one
    records the bidder and the cards, raises the declaration strength to the
    strength of the bid (at most 6, so nothing overrides a pair of big
    jokers), makes every declared card a trump of the new trump system, and
    touches neither the hands nor the phase. *)
Theorem declare_trump_effect st p cards ok msg st' :
  declare_trump st p cards = Some ((ok, msg), st') ->
  (ok = false -> st' = st) /\
  (ok = true ->
   declaration st' = Some (p, cards) /\
   declaration_strength st' = _bid_strength cards (gs_trump_rank st) /\
   declaration_strength st < declaration_strength st' <= 6 /\
   (forall c, In c cards -> is_trump (gs_trump st') c = true) /\
   hands st' = hands st /\ phase st' = DEALING) /\
  (6 <= declaration_strength st -> ok = false).
Proof.
  intros H.
  assert (Hrej : ok = false -> st' = st).
  { intros ->. eapply rejected_bid_keeps_state; eauto. }
  split; [exact Hrej | ].
  unfold declare_trump in H.
  destruct (GamePhase_eqb (phase st) DEALING) eqn:Hph; cbn [negb] in H;
    [ | injection H as <- _ _; split; [discriminate | reflexivity]].
  apply GamePhase_eqb_eq in Hph.
  destruct (all_in_hand _ _ _) as [held | ]; [ | discriminate].
  destruct (negb held);
    [injection H as <- _ _; split; [discriminate | reflexivity] | ].
  destruct (Z.eqb_spec (_bid_strength cards (gs_trump_rank st)) 0)
    as [E0 | E0];
    [injection H as <- _ _; split; [discriminate | reflexivity] | ].
  destruct (Z.leb_spec (_bid_strength cards (gs_trump_rank st))
                       (declaration_strength st)) as [Hle | Hgt];
    [injection H as <- _ _; split; [discriminate | reflexivity] | ].
  pose proof (_bid_strength_nonneg cards (gs_trump_rank st)) as Hb.
  pose proof (bid_cards_are_trump_rank cards (gs_trump_rank st)
                ltac:(lia)) as Hcards.
  destruct (filter (fun c => negb (is_joker c)) cards) as [ | c0 rest]
    eqn:Hf; injection H as <- _ <-.
  - split; [ | intros; lia]. intros _.
    cbn [declaration declaration_strength gs_trump hands phase].
    split; [reflexivity | ]. split; [reflexivity | ]. split; [lia | ].
    split; [ | split; [reflexivity | exact Hph]].
    intros c Hc. unfold is_trump.
    destruct (is_joker c) eqn:Hj; [reflexivity | ].
    assert (Hin : In c (filter (fun c => negb (is_joker c)) cards)).
    { apply filter_In. split; [exact Hc | ]. now rewrite Hj. }
    rewrite Hf in Hin. contradiction.
  - split; [ | intros; lia]. intros _.
    cbn [declaration declaration_strength gs_trump hands phase].
    split; [reflexivity | ]. split; [reflexivity | ]. split; [lia | ].
    split; [ | split; [reflexivity | exact Hph]].
    intros c Hc. unfold is_trump. cbn [trump_rank trump_suit].
    destruct (is_joker c) eqn:Hj; [reflexivity | ].
    destruct (Hcards c Hc) as [Hj' | Hr]; [congruence | ].
    rewrite Hr, String.eqb_refl. reflexivity.
Qed.

Lemma declare_trump_effect_witness :
  exists st0 st st',
    new_GameState double_deck 4 "2" 0 = Some st0 /\
    run [Deal] st0 = Some st /\
    declare_trump st 0 [mkCard "♣" "2" 0]
    = Some ((true, "Declaration accepted!"), st') /\
    declaration st' = Some (0, [mkCard "♣" "2" 0]) /\
    declaration_strength st < declaration_strength st' <= 6.
Proof.
  eexists. eexists. eexists. split; [reflexivity | ].
  split; [vm_compute; reflexivity | ].
  split; [vm_compute; reflexivity | ].
  match goal with
  | |- declaration ?s' = _ /\ declaration_strength ?s < _ <= _ =>
      destruct (declare_trump_effect s 0 [mkCard "♣" "2" 0] true
                  "Declaration accepted!" s' ltac:(vm_compute; reflexivity))
        as (_ & H & _);
      destruct (H eq_refl) as (Hd & _ & Hs & _)
  end.
  split; [exact Hd | exact Hs].
Defined.

(* ----------------------------------------------------------------- *)
(** ** The shapes of combinations *)

Lemma len_take {A} (n : Z) (l : list A) :
  0 <= n <= Py.len l -> Py.len (Py.take n l) = n.
Proof.
  intros H. unfold Py.take, Py.len in *. rewrite length_firstn. lia.
Qed.

Lemma setdefault_append_all {K V} (eqb : K -> K -> bool) (Q : V -> Prop)
      (d : list (K * list V)) (k : K) (x : V) :
  (forall e, In e d -> Forall Q (snd e)) -> Q x ->
  forall e, In e (Py.setdefault_append eqb d k x) -> Forall Q (snd e).
Proof.
  intros Hd Hx. induction d as [ | [k' vs] d IH]; cbn.
  - intros e [<- | []]. cbn. constructor; [exact Hx | constructor].
  - destruct (eqb k' k).
    + intros e [<- | He].
      * cbn. apply Forall_app. split.
        -- apply (Hd (k', vs)). now left.
        -- constructor; [exact Hx | constructor].
      * apply Hd. now right.
    + intros e [<- | He].
      * apply (Hd (k', vs)). now left.
      * apply IH; [ | exact He]. intros e' He'. apply Hd. now right.
Qed.

Lemma pairs_by_suit_two (groups : list ((string * Z) * list Card)) :
  forall sp, In sp (pairs_by_suit groups) ->
  Forall (fun oc : Z * list Card => Py.len (snd oc) = 2) (snd sp).
Proof.
  unfold pairs_by_suit.
  assert (G : forall acc,
    (forall sp, In sp acc ->
       Forall (fun oc : Z * list Card => Py.len (snd oc) = 2) (snd sp)) ->
    forall sp,
      In sp (fold_left
               (fun d g =>
                  let '((suit, order), cs) := g in
                  if Py.len cs >=? 2
                  then Py.setdefault_append String.eqb d suit
                         (order, Py.take 2 cs)
                  else d) groups acc) ->
      Forall (fun oc : Z * list Card => Py.len (snd oc) = 2) (snd sp)).
  { induction groups as [ | [[s o] cs] groups IH]; intros acc Hacc; cbn.
    - exact Hacc.
    - apply IH. destruct (Z.geb_spec (Py.len cs) 2) as [Hge | Hlt].
      + apply setdefault_append_all; [exact Hacc | ].
        cbn. apply len_take. lia.
      + exact Hacc. }
  apply G. intros sp [].
Qed.

Lemma len_flat_pairs (run : list (Z * list Card)) :
  Forall (fun oc : Z * list Card => Py.len (snd oc) = 2) run ->
  Py.len (flat_map snd run) = 2 * Py.len run.
Proof.
  induction 1 as [ | oc run H _ IH]; cbn [flat_map].
  - reflexivity.
  - rewrite len_app, len_cons, IH, H. lia.
Qed.

Lemma tractors_of_sizes (pl : list (Z * list Card)) :
  Forall (fun oc : Z * list Card => Py.len (snd oc) = 2) pl ->
  forall c, In c (tractors_of pl) -> 4 <= Py.len c /\ Py.len c mod 2 = 0.
Proof.
  intros Hpl c Hc. unfold tractors_of in Hc.
  apply in_map_iff in Hc. destruct Hc as (run & <- & Hrun).
  apply filter_In in Hrun. destruct Hrun as [Hin Hlen].
  apply Z.geb_le in Hlen.
  assert (Hall : Forall (fun oc : Z * list Card => Py.len (snd oc) = 2) run).
  { apply Forall_forall. intros oc Hoc.
    apply (runs_incl _ _ _ Hin) in Hoc.
    apply (Permutation_in _ (Permutation_sym (sorted_by_perm fst pl))) in Hoc.
    revert oc Hoc. now apply Forall_forall. }
  rewrite (len_flat_pairs run Hall). split; [lia | ].
  rewrite Z.mul_comm. apply Z.mod_mul. lia.
Qed.

Lemma tractor_components_sizes (groups : list ((string * Z) * list Card)) :
  forall c, In c (tractor_components groups) -> component_size (Py.len c).
Proof.
  intros c Hc. unfold tractor_components in Hc.
  apply in_flat_map in Hc. destruct Hc as (sp & Hsp & Hc).
  right. right.
  eapply tractors_of_sizes; [ | exact Hc].
  eapply pairs_by_suit_two. exact Hsp.
Qed.

Lemma pair_step_sizes st g :
  (forall c, In c (fst st) -> component_size (Py.len c)) ->
  (snd st <> [] -> fst st <> []) ->
  (forall c, In c (fst (pair_step st g)) -> component_size (Py.len c))
  /\ (snd (pair_step st g) <> [] -> fst (pair_step st g) <> []).
Proof.
  destruct st as [comps used]. unfold pair_step. cbn [fst snd].
  intros H1 H2.
  destruct (Py.len (snd g) >=? 2); [ | auto].
  destruct (Z.eqb_spec (Py.len (filter (fun c => negb (id_in c used))
                                       (Py.take 2 (snd g)))) 2) as [E | E];
    [ | auto].
  cbn [fst snd]. split.
  - intros c Hc. apply in_app_or in Hc. destruct Hc as [Hc | [<- | []]].
    + now apply H1.
    + right. left. exact E.
  - intros _ Hnil. now apply app_eq_nil in Hnil.
Qed.

Lemma single_step_sizes st c0 :
  (forall c, In c (fst st) -> component_size (Py.len c)) ->
  (snd st <> [] -> fst st <> []) ->
  (forall c, In c (fst (single_step st c0)) -> component_size (Py.len c))
  /\ (snd (single_step st c0) <> [] -> fst (single_step st c0) <> [])
  /\ fst (single_step st c0) <> [].
Proof.
  destruct st as [comps used]. unfold single_step. cbn [fst snd].
  intros H1 H2.
  destruct (id_in c0 used) eqn:E; cbn [negb fst snd].
  - split; [exact H1 | ]. split; [exact H2 | ].
    apply H2. apply id_in_In in E. intros ->. contradiction.
  - split; [ | split].
    + intros c Hc. apply in_app_or in Hc. destruct Hc as [Hc | [<- | []]].
      * now apply H1.
      * left. reflexivity.
    + intros _ Hnil. now apply app_eq_nil in Hnil.
    + intros Hnil. now apply app_eq_nil in Hnil.
Qed.

Lemma decompose_groups_sizes (groups : list ((string * Z) * list Card)) :
  (forall c, In c (decompose_groups groups) -> component_size (Py.len c))
  /\ (flat_map snd groups <> [] -> decompose_groups groups <> []).
Proof.
  unfold decompose_groups.
  set (st1 := (tractor_components groups,
               concat (tractor_components groups))).
  assert (I1 : (forall c, In c (fst st1) -> component_size (Py.len c))
               /\ (snd st1 <> [] -> fst st1 <> [])).
  { unfold st1. cbn [fst snd].
    split; [apply tractor_components_sizes | ].
    intros H E. apply H. now rewrite E. }
  assert (I2 : forall gs st,
    (forall c, In c (fst st) -> component_size (Py.len c))
    /\ (snd st <> [] -> fst st <> []) ->
    (forall c, In c (fst (fold_left pair_step gs st)) ->
               component_size (Py.len c))
    /\ (snd (fold_left pair_step gs st) <> [] ->
        fst (fold_left pair_step gs st) <> [])).
  { induction gs as [ | g gs IH]; intros st Hst; cbn [fold_left].
    - exact Hst.
    - apply IH. destruct Hst. now apply pair_step_sizes. }
  assert (I3 : forall l st,
    (forall c, In c (fst st) -> component_size (Py.len c))
    /\ (snd st <> [] -> fst st <> []) ->
    (forall c, In c (fst (fold_left single_step l st)) ->
               component_size (Py.len c))
    /\ (snd (fold_left single_step l st) <> [] ->
        fst (fold_left single_step l st) <> [])
    /\ (l <> [] -> fst (fold_left single_step l st) <> [])).
  { induction l as [ | c0 l IH]; intros st Hst; cbn [fold_left].
    - destruct Hst as [Ha Hb]. split; [exact Ha | ]. split; [exact Hb | ].
      intros Hnn. now elim Hnn.
    - destruct Hst as [H1 H2].
      destruct (single_step_sizes st c0 H1 H2) as (S1 & S2 & S3).
      destruct (IH (single_step st c0) (conj S1 S2)) as (J1 & J2 & J3).
      split; [exact J1 | ]. split; [exact J2 | ]. intros _.
      destruct l as [ | c1 l']; [exact S3 | ]. apply J3. discriminate. }
  destruct (I3 (flat_map snd groups) _ (I2 groups st1 I1)) as (J1 & _ & J3).
  split; assumption.
Qed.

Lemma _decompose_sizes (t : TrumpSystem) (cards : list Card) comps :
  _decompose t cards = Some comps -> cards <> [] ->
  forall c, In c comps -> component_size (Py.len c).
Proof.
  unfold _decompose.
  destruct (keyed (suit_order_key t) cards) as [ks | ] eqn:Hk;
    [ | discriminate].
  intros [= <-] Hne.
  destruct (decompose_groups_sizes (group_by_key suit_order_eqb ks))
    as [H1 H2].
  assert (Hg : flat_map snd (group_by_key suit_order_eqb ks) <> []).
  { intros E. pose proof (group_by_key_cards suit_order_eqb ks) as P.
    rewrite E, (keyed_snd _ _ _ Hk) in P.
    apply Permutation_nil in P. contradiction. }
  specialize (H2 Hg).
  destruct (decompose_groups (group_by_key suit_order_eqb ks)) as [ | c0 cs];
    [now elim H2 | exact H1].
Qed.

Lemma ComboType_cases (ty : ComboType) :
  ty = SINGLE \/ ty = PAIR \/ ty = TRACTOR \/ ty = MULTI.
Proof. destruct ty; auto. Qed.

Lemma _detect_fallthrough (t : TrumpSystem) (cards : list Card) ty comps :
  Py.len cards <> 1 -> cards <> [] ->
  (components <- _decompose t cards ;;
   match components with
   | [c] => if Py.len c =? Py.len cards
            then if Py.len cards =? 2 then Some (PAIR, components)
                 else Some (TRACTOR, components)
            else Some (MULTI, components)
   | _ => Some (MULTI, components)
   end) = Some (ty, comps) ->
  ty <> SINGLE /\
  (ty = PAIR -> Py.len cards = 2) /\
  (ty = TRACTOR -> 4 <= Py.len cards /\ Py.len cards mod 2 = 0) /\
  (ty <> MULTI -> exists c, comps = [c] /\ Py.len c = Py.len cards) /\
  (forall c, In c comps -> component_size (Py.len c)).
Proof.
  intros H1 Hne.
  destruct (_decompose t cards) as [cs | ] eqn:Hd; [ | discriminate].
  pose proof (_decompose_sizes t cards cs Hd Hne) as Hsz.
  destruct cs as [ | c [ | c' cs']].
  - intros [= <- <-]. repeat split; try discriminate; auto.
    intros H. now elim H.
  - destruct (Z.eqb_spec (Py.len c) (Py.len cards)) as [E | E].
    + destruct (Z.eqb_spec (Py.len cards) 2) as [E2 | E2].
      * intros [= <- <-]. split; [discriminate | ]. split; [auto | ].
        split; [discriminate | ]. split; [eauto | exact Hsz].
      * intros [= <- <-]. split; [discriminate | ].
        split; [discriminate | ]. split; [ | split; [eauto | exact Hsz]].
        intros _. destruct (Hsz c (or_introl eq_refl)) as [H | [H | H]];
          [congruence | congruence | now rewrite <- E].
    + intros [= <- <-]. repeat split; try discriminate; auto.
      intros H. now elim H.
  - intros [= <- <-]. repeat split; try discriminate; auto.
    intros H. now elim H.
Qed.

Lemma _detect_shapes (t : TrumpSystem) (cards : list Card) ty comps :
  _detect t cards = Some (ty, comps) ->
  (ty = SINGLE <-> Py.len cards = 1) /\
  (ty = PAIR -> Py.len cards = 2) /\
  (ty = TRACTOR -> cards <> [] ->
   4 <= Py.len cards /\ Py.len cards mod 2 = 0) /\
  (ty <> MULTI -> exists c, comps = [c] /\ Py.len c = Py.len cards) /\
  (cards <> [] -> forall c, In c comps -> component_size (Py.len c)) /\
  (cards = [] -> ty = TRACTOR /\ comps = [[]]).
Proof.
  destruct cards as [ | c0 cards'].
  { cbn. intros [= <- <-]. split; [split; discriminate | ].
    split; [discriminate | ]. split; [intros _ H; now elim H | ].
    split; [intros _; eauto | ]. split; [intros H; now elim H | auto]. }
  remember (c0 :: cards') as cards eqn:Ec.
  assert (Hne : cards <> []) by (subst; discriminate). clear Ec.
  unfold _detect.
  destruct (Z.eqb_spec (Py.len cards) 1) as [E1 | E1].
  { intros [= <- <-]. split; [tauto | ]. split; [discriminate | ].
    split; [discriminate | ]. split; [eauto | ]. split; [ | congruence].
    intros _ c [<- | []]. now left. }
  assert (Fall : forall r,
    r = Some (ty, comps) ->
    r = (components <- _decompose t cards ;;
         match components with
         | [c] => if Py.len c =? Py.len cards
                  then if Py.len cards =? 2 then Some (PAIR, components)
                       else Some (TRACTOR, components)
                  else Some (MULTI, components)
         | _ => Some (MULTI, components)
         end) ->
    (ty = SINGLE <-> Py.len cards = 1) /\
    (ty = PAIR -> Py.len cards = 2) /\
    (ty = TRACTOR -> cards <> [] ->
     4 <= Py.len cards /\ Py.len cards mod 2 = 0) /\
    (ty <> MULTI -> exists c, comps = [c] /\ Py.len c = Py.len cards) /\
    (cards <> [] -> forall c, In c comps -> component_size (Py.len c)) /\
    (cards = [] -> ty = TRACTOR /\ comps = [[]])).
  { intros r Hr Hf. rewrite Hf in Hr.
    destruct (_detect_fallthrough t cards ty comps E1 Hne Hr)
      as (F1 & F2 & F3 & F4 & F5).
    split; [split; [intros; contradiction | intros; contradiction] | ].
    split; [exact F2 | ]. split; [intros H _; now apply F3 | ].
    split; [exact F4 | ]. split; [intros _; exact F5 | congruence]. }
  destruct (Py.len (Py.set_of String.eqb (map (effective_suit t) cards))
            =? 1); [ | intros H; eapply Fall; [exact H | reflexivity]].
  destruct (match cards with
            | [c1; c2] => same_rank_or_order t c1 c2
            | _ => Some false
            end) as [is_pair | ] eqn:Hp; [ | discriminate].
  destruct is_pair.
  - intros [= <- <-].
    assert (L2 : Py.len cards = 2).
    { destruct cards as [ | c1 [ | c2 [ | c3 rest]]]; try discriminate.
      reflexivity. }
    split; [split; [discriminate | intros; contradiction] | ].
    split; [auto | ]. split; [discriminate | ]. split; [eauto | ].
    split; [ | congruence]. intros _ c [<- | []]. right. now left.
  - destruct (_try_tractor t cards) as [tractor | ] eqn:Ht; [ | discriminate].
    destruct tractor; [ | intros H; eapply Fall; [exact H | reflexivity]].
    intros [= <- <-].
    assert (L4 : 4 <= Py.len cards /\ Py.len cards mod 2 = 0).
    { unfold _try_tractor in Ht.
      destruct (Z.ltb_spec (Py.len cards) 4) as [H4 | H4];
        [discriminate | ].
      destruct (Z.eqb_spec (Py.len cards mod 2) 0) as [H2 | H2];
        [ | discriminate].
      split; assumption. }
    split; [split; [discriminate | intros; contradiction] | ].
    split; [discriminate | ]. split; [auto | ]. split; [eauto | ].
    split; [ | congruence]. intros _ c [<- | []]. right. right. exact L4.
Qed.

(** X12: what the type of a combination says about its cards.  A SINGLE is
    exactly one card and a PAIR two cards; a TRACTOR of at least one card
    has an even number of cards, four or more; every type but MULTI has one
    component, holding all the cards; and every component of a non-empty
    combination is a single, a pair or an even group of four or more cards.
    The empty selection is typed TRACTOR, with one empty component. *)
Theorem detect_shapes (t : TrumpSystem) (cards : list Card) ty comps :
  _detect t cards = Some (ty, comps) ->
  (ty = SINGLE <-> Py.len cards = 1) /\
  (ty = PAIR -> Py.len cards = 2) /\
  (ty = TRACTOR -> cards <> [] ->
   4 <= Py.len cards /\ Py.len cards mod 2 = 0) /\
  (ty <> MULTI -> exists c, comps = [c] /\ Py.len c = Py.len cards) /\
  (cards <> [] -> forall c, In c comps -> component_size (Py.len c)) /\
  (cards = [] -> ty = TRACTOR /\ comps = [[]]).
Proof. apply _detect_shapes. Qed.

Lemma detect_shapes_witness :
  4 <= Py.len [mkCard "♥" "3" 0; mkCard "♥" "3" 1;
               mkCard "♥" "4" 0; mkCard "♥" "4" 1]
  /\ Py.len [mkCard "♥" "3" 0; mkCard "♥" "3" 1;
             mkCard "♥" "4" 0; mkCard "♥" "4" 1] mod 2 = 0.
Proof.
  refine (proj1 (proj2 (proj2
            (detect_shapes (mkTrump "♠" "2")
               [mkCard "♥" "3" 0; mkCard "♥" "3" 1;
                mkCard "♥" "4" 0; mkCard "♥" "4" 1]
               TRACTOR
               [[mkCard "♥" "3" 0; mkCard "♥" "3" 1;
                 mkCard "♥" "4" 0; mkCard "♥" "4" 1]] _))) eq_refl _).
  - vm_compute. reflexivity.
  - discriminate.
Defined.

(* ----------------------------------------------------------------- *)
(** ** Following suit *)

Lemma sum_perm (l l' : list Z) : Permutation l l' -> Py.sum l = Py.sum l'.
Proof.
  intros H.
  induction H as [ | x l l' _ IH | x y l | l l' l'' _ IH1 _ IH2].
  - reflexivity.
  - rewrite !sum_cons, IH. reflexivity.
  - rewrite !sum_cons. lia.
  - congruence.
Qed.

Lemma demand_fold (comps : list (list Card)) : forall a b c,
  (forall x, In x comps -> component_size (Py.len x)) ->
  forall a' b' c',
    fold_left demand_step comps (a, b, c) = (a', b', c') ->
    2 * a' + 2 * b' + c'
    = 2 * a + 2 * b + c
      + Py.sum (map (fun x : list Card => Py.len x) comps).
Proof.
  induction comps as [ | x comps IH]; intros a b c Hall a' b' c';
    cbn [fold_left map].
  - intros [= <- <- <-]. change (Py.sum []) with 0. lia.
  - rewrite sum_cons.
    assert (Hx : component_size (Py.len x)) by (apply Hall; now left).
    assert (Hrest : forall y, In y comps -> component_size (Py.len y))
      by (intros y Hy; apply Hall; now right).
    unfold demand_step at 2.
    destruct (Z.geb_spec (Py.len x) 4) as [H4 | H4].
    + intros H. rewrite (IH _ _ _ Hrest _ _ _ H).
      destruct Hx as [Hx | [Hx | [_ Hx]]]; try lia.
      pose proof (Z.div_mod (Py.len x) 2 ltac:(lia)). lia.
    + destruct (Z.eqb_spec (Py.len x) 2) as [H2 | H2].
      * intros H. rewrite (IH _ _ _ Hrest _ _ _ H). lia.
      * intros H. rewrite (IH _ _ _ Hrest _ _ _ H).
        destruct Hx as [Hx | [Hx | [Hx _]]]; lia.
Qed.

Lemma new_CardCombo_fields (cards : list Card) (t : TrumpSystem) cb :
  new_CardCombo cards t = Some cb ->
  combo_cards cb = cards /\ combo_trump cb = t /\
  _detect t cards = Some (combo_type cb, components cb).
Proof.
  unfold new_CardCombo.
  destruct (_detect t cards) as [[ty comps] | ]; [ | discriminate].
  intros [= <-]. split; [ | split]; reflexivity.
Qed.

Lemma req_total_is_min (t : TrumpSystem) (c0 : Card) (rest : list Card)
      (led : CardCombo) (hand : list Card) (req : FollowReq) :
  NoDup (c0 :: rest) ->
  new_CardCombo (c0 :: rest) t = Some led ->
  required_follow_structure led hand t = Some req ->
  req_total req
  = Z.min (Py.len (filter (in_led_suit t (effective_suit t c0)) hand))
          (Py.len (c0 :: rest)).
Proof.
  intros Hnd Hled.
  destruct (new_CardCombo_fields _ _ _ Hled) as (Hcards & Htr & Hdet).
  assert (Hsum : Py.sum (map (fun x : list Card => Py.len x)
                             (components led)) = Py.len (c0 :: rest)).
  { rewrite sum_len_concat. unfold Py.len. f_equal.
    apply Permutation_length. eapply _detect_partition; eauto. }
  assert (Hsz : forall x, In x (components led) ->
                          component_size (Py.len x)).
  { destruct (_detect_shapes _ _ _ _ Hdet) as (_ & _ & _ & _ & H & _).
    apply H. discriminate. }
  unfold required_follow_structure, combo_effective_suit.
  rewrite Hcards, Htr. cbn beta zeta iota.
  set (n_in := Py.len (filter (in_led_suit t (effective_suit t c0)) hand)).
  destruct (Z.eqb_spec n_in 0) as [E0 | E0].
  { intros Hr. injection Hr as Hr. subst req. cbn [req_total]. rewrite E0.
    pose proof (len_nonneg (c0 :: rest)). lia. }
  destruct (_group_by_order t _) as [g | ]; [ | discriminate].
  destruct (fold_left demand_step _ (0, 0, 0)) as [[dtp dp] ds] eqn:Hf.
  intros Hr. injection Hr as Hr. subst req. cbn [req_total].
  pose proof (demand_fold _ 0 0 0
                (fun x Hx => Hsz x (Permutation_in x
                   (Permutation_sym (sorted_by_perm _ (components led))) Hx))
                _ _ _ Hf) as Hd.
  rewrite <- (sum_perm _ _
                (Permutation_map (fun x : list Card => Py.len x)
                   (sorted_by_perm (fun c : list Card => - Py.len c)
                                   (components led)))) in Hd.
  rewrite Hsum in Hd. lia.
Qed.

(** X13: following suit.  Whatever [is_valid_follow] accepts in answer to a
    lead of pairwise different cards has as many cards as the lead, and as
    many cards of the led suit as the lead has cards, or all the led-suit
    cards of the hand if these are fewer. *)
Theorem follow_suit_rule (t : TrumpSystem) (c0 : Card) (rest : list Card)
        (led : CardCombo) (hand cards : list Card) (msg : string) :
  NoDup (c0 :: rest) ->
  new_CardCombo (c0 :: rest) t = Some led ->
  is_valid_follow cards led hand t = Some (true, msg) ->
  Py.len cards = Py.len (c0 :: rest) /\
  Z.min (Py.len (filter (in_led_suit t (effective_suit t c0)) hand))
        (Py.len (c0 :: rest))
  <= Py.len (filter (in_led_suit t (effective_suit t c0)) cards).
Proof.
  intros Hnd Hled.
  destruct (new_CardCombo_fields _ _ _ Hled) as (Hcards & Htr & Hdet).
  unfold is_valid_follow. rewrite Hcards.
  destruct (Z.eqb_spec (Py.len cards) (Py.len (c0 :: rest))) as [El | El];
    cbn [negb]; [ | discriminate].
  unfold combo_effective_suit. rewrite Hcards, Htr.
  destruct (required_follow_structure led hand t) as [req | ] eqn:Hreq;
    [ | discriminate].
  rewrite <- (req_total_is_min t c0 rest led hand req Hnd Hled Hreq).
  destruct (Z.ltb_spec
              (Py.len (filter (in_led_suit t (effective_suit t c0)) cards))
              (req_total req)) as [Hlt | Hge]; [discriminate | ].
  intros _. split; [exact El | exact Hge].
Qed.

Lemma follow_suit_rule_witness :
  Py.len [mkCard "♥" "3" 0; mkCard "♣" "4" 0]
  = Py.len [mkCard "♥" "K" 0; mkCard "♥" "K" 1] /\
  Z.min (Py.len (filter (in_led_suit (mkTrump "♠" "2")
                           (effective_suit (mkTrump "♠" "2")
                                           (mkCard "♥" "K" 0)))
                        [mkCard "♥" "3" 0; mkCard "♣" "4" 0;
                         mkCard "♣" "9" 1]))
        (Py.len [mkCard "♥" "K" 0; mkCard "♥" "K" 1])
  <= Py.len (filter (in_led_suit (mkTrump "♠" "2")
                       (effective_suit (mkTrump "♠" "2")
                                       (mkCard "♥" "K" 0)))
                    [mkCard "♥" "3" 0; mkCard "♣" "4" 0]).
Proof.
  eapply (follow_suit_rule (mkTrump "♠" "2") (mkCard "♥" "K" 0)
            [mkCard "♥" "K" 1] _
            [mkCard "♥" "3" 0; mkCard "♣" "4" 0; mkCard "♣" "9" 1]
            [mkCard "♥" "3" 0; mkCard "♣" "4" 0] "").
  - constructor; [ | constructor; [intros [] | constructor]].
    intros [H | []]. discriminate H.
  - lazy. reflexivity.
  - vm_compute. reflexivity.
Defined.

(** X14: a follower who holds no card of the led suit may play any cards, as
    long as they are as many as the lead. *)
Theorem void_follower_is_free (t : TrumpSystem) (c0 : Card)
        (rest : list Card) (led : CardCombo) (hand cards : list Card) :
  new_CardCombo (c0 :: rest) t = Some led ->
  filter (in_led_suit t (effective_suit t c0)) hand = [] ->
  Py.len cards = Py.len (c0 :: rest) ->
  is_valid_follow cards led hand t = Some (true, "").
Proof.
  intros Hled Hvoid Hlen.
  destruct (new_CardCombo_fields _ _ _ Hled) as (Hcards & Htr & _).
  unfold is_valid_follow, required_follow_structure, combo_effective_suit.
  rewrite Hcards, Htr, Hlen, Z.eqb_refl. cbn [negb]. cbn beta zeta iota.
  rewrite Hvoid.
  change (Py.len (@nil Card) =? 0) with true. cbn beta iota.
  cbn [req_total].
  destruct (Z.ltb_spec
              (Py.len (filter (in_led_suit t (effective_suit t c0)) cards)) 0)
    as [Hlt | Hge].
  - pose proof (len_nonneg
                  (filter (in_led_suit t (effective_suit t c0)) cards)). lia.
  - change (0 >? 0) with false. rewrite andb_false_r. reflexivity.
Qed.

Lemma void_follower_is_free_witness :
  is_valid_follow [mkCard "♣" "4" 0; mkCard "♦" "9" 1]
    (mkCombo [mkCard "♥" "K" 0; mkCard "♥" "K" 1] (mkTrump "♠" "2") PAIR
             [[mkCard "♥" "K" 0; mkCard "♥" "K" 1]])
    [mkCard "♣" "4" 0; mkCard "♦" "9" 1; mkCard "♠" "5" 0]
    (mkTrump "♠" "2") = Some (true, "").
Proof.
  apply (void_follower_is_free (mkTrump "♠" "2") (mkCard "♥" "K" 0)
           [mkCard "♥" "K" 1]).
  - vm_compute. reflexivity.
  - vm_compute. reflexivity.
  - vm_compute. reflexivity.
Defined.

(* ----------------------------------------------------------------- *)
(** ** Who wins a trick *)

(** X15: the winner of a trick is one of its four players: the first one,
    or a later one whose play holds a card of the led suit or a trump.  If
    every later play is made of cards that are neither, the first player
    wins. *)
Theorem winner_is_on_suit (tr : Trick) (w : Z) :
  winner tr = Some w ->
  exists led led_suit first rest,
    led_combo tr = Some led /\ combo_effective_suit led = Some led_suit /\
    plays tr = first :: rest /\ Py.len (plays tr) = 4 /\
    (w = fst first \/
     exists cards c,
       In (w, cards) rest /\ In c cards /\
       (effective_suit (trick_trump tr) c = led_suit
        \/ effective_suit (trick_trump tr) c = TRUMP)) /\
    ((forall p cards c,
         In (p, cards) rest -> In c cards ->
         effective_suit (trick_trump tr) c <> led_suit
         /\ effective_suit (trick_trump tr) c <> TRUMP) ->
     w = fst first).
Proof.
  unfold winner, is_complete.
  destruct (Z.eqb_spec (Py.len (plays tr)) 4) as [H4 | H4]; cbn [negb];
    [ | discriminate].
  destruct (led_combo tr) as [led | ] eqn:Hl; [ | discriminate].
  destruct (combo_effective_suit led) as [led_suit | ] eqn:Hs;
    [ | discriminate].
  destruct (plays tr) as [ | first rest] eqn:Hp; [discriminate | ].
  intros Hw. exists led, led_suit, first, rest.
  split; [reflexivity | ]. split; [exact Hs | ].
  split; [reflexivity | ]. split; [exact H4 | ].
  apply winner_loop_from in Hw.
  split.
  - destruct Hw as [Hw | (p & cards & c & Hin & -> & Hc & Hs')];
      [now left | right; eauto].
  - intros Hoff.
    destruct Hw as [Hw | (p & cards & c & Hin & -> & Hc & Hs')];
      [exact Hw | ].
    destruct (Hoff _ _ _ Hin Hc) as [N1 N2]. destruct Hs'; contradiction.
Qed.

Lemma winner_is_on_suit_witness :
  exists st0 st tr w,
    new_GameState short_deck 4 "2" 0 = Some st0 /\
    run short_round st0 = Some st /\
    tricks st = [tr] /\ winner tr = Some w /\ w = 0.
Proof.
  eexists. eexists. eexists. exists 0.
  split; [reflexivity | ]. split; [vm_compute; reflexivity | ].
  split; [reflexivity | ].
  match goal with
  | |- winner ?tr = _ /\ _ =>
      assert (Hw : winner tr = Some 0) by (vm_compute; reflexivity);
      destruct (winner_is_on_suit tr 0 Hw)
        as (led & s & first & rest & _ & _ & _ & _ & _ & _)
  end.
  split; [exact Hw | reflexivity].
Defined.

(** *** Tricks of single cards *)

Lemma order_of_bounds (t : TrumpSystem) (c : Card) :
  playing_card c = true ->
  exists o, order_of t c = Some o /\ 0 <= o <= 1000
            /\ (is_trump t c = false -> o <= 12).
Proof.
  intros Hc. unfold order_of. destruct (is_trump t c) eqn:Ht.
  - destruct (trump_card_order t c Hc Ht) as (o & Ho & _ & Hb).
    exists o. split; [exact Ho | ]. split; [exact Hb | discriminate].
  - destruct (plain_card_order t c Hc Ht) as (_ & Hr & _).
    destruct (RANK_VAL_range _ Hr) as (v & Hv & Hb).
    exists v. split; [exact Hv | ]. split; [lia | intros _; lia].
Qed.

Lemma beats_weight (t : TrumpSystem) (x b : Card) (s : string) :
  playing_card x = true -> playing_card b = true ->
  on_suit t s b = true ->
  beats t x b s = Some (trick_weight t s b <? trick_weight t s x).
Proof.
  intros Hx Hb Hon.
  destruct (beats_cases t x b s Hx Hb) as (ox & ob & r & Hox & Hob & -> & Hr).
  destruct (order_of_bounds t x Hx) as (ox' & Hox' & Bx & Px).
  destruct (order_of_bounds t b Hb) as (ob' & Hob' & Bb & Pb).
  assert (ox' = ox) by congruence. assert (ob' = ob) by congruence.
  subst ox' ob'.
  pose proof (trump_effective_suit t x Hx) as [Ex1 Ex2].
  pose proof (trump_effective_suit t b Hb) as [Eb1 Eb2].
  unfold trick_weight. rewrite Hon, Hox, Hob.
  unfold on_suit in *.
  f_equal.
  destruct (is_trump t b) eqn:Tb.
  - specialize (Eb2 eq_refl).
    destruct (is_trump t x) eqn:Tx.
    + specialize (Ex2 eq_refl).
      rewrite Ex2, String.eqb_refl, orb_true_r.
      destruct (Z.ltb_spec (2000 + ob) (2000 + ox)) as [L | L].
      * apply Hr. left. split; [congruence | lia].
      * destruct r; [ | reflexivity]. exfalso.
        destruct (proj1 Hr eq_refl) as [[_ H] | [(_ & _ & H) | (_ & H & _)]];
          [lia | discriminate | discriminate].
    + assert (W : (if (effective_suit t x =? s)%string
                      || (effective_suit t x =? TRUMP)%string
                   then 1000 + ox else -1) < 2000 + ob).
      { destruct ((effective_suit t x =? s)%string
                  || (effective_suit t x =? TRUMP)%string);
          [specialize (Px eq_refl) | ]; lia. }
      destruct (Z.ltb_spec (2000 + ob)
                  (if (effective_suit t x =? s)%string
                      || (effective_suit t x =? TRUMP)%string
                   then 1000 + ox else -1)) as [L | L]; [lia | ].
      destruct r; [ | reflexivity]. exfalso.
      destruct (proj1 Hr eq_refl)
        as [[H _] | [(_ & H & _) | (_ & _ & _ & _ & H)]];
        [ | discriminate | discriminate].
      rewrite Eb2 in H. specialize (Ex1 H). discriminate.
  - assert (Nb : effective_suit t b <> TRUMP)
      by (intros E; specialize (Eb1 E); discriminate).
    assert (Sb : effective_suit t b = s).
    { apply orb_true_iff in Hon. destruct Hon as [H | H].
      - now apply String.eqb_eq in H.
      - apply String.eqb_eq in H. contradiction. }
    specialize (Pb eq_refl).
    destruct (is_trump t x) eqn:Tx.
    + specialize (Ex2 eq_refl).
      rewrite Ex2, String.eqb_refl, orb_true_r.
      destruct (Z.ltb_spec (1000 + ob) (2000 + ox)) as [L | L]; [ | lia].
      apply Hr. right. left. split; [congruence | auto].
    + assert (Nx : effective_suit t x <> TRUMP)
        by (intros E; specialize (Ex1 E); discriminate).
      apply String.eqb_neq in Nx. rewrite Nx, orb_false_r.
      destruct (String.eqb_spec (effective_suit t x) s) as [Sx | Sx].
      * destruct (Z.ltb_spec (1000 + ob) (1000 + ox)) as [L | L].
        -- apply Hr. left. split; [congruence | lia].
        -- destruct r; [ | reflexivity]. exfalso.
           destruct (proj1 Hr eq_refl)
             as [[_ H] | [(_ & H & _) | (H & _)]];
             [lia | discriminate | congruence].
      * destruct (Z.ltb_spec (1000 + ob) (-1)) as [L | L]; [lia | ].
        destruct r; [ | reflexivity]. exfalso.
        destruct (proj1 Hr eq_refl)
          as [[H _] | [(_ & H & _) | (_ & _ & H & _)]];
          [congruence | discriminate | contradiction].
Qed.

Lemma weight_on_suit (t : TrumpSystem) (s : string) (c : Card) :
  playing_card c = true ->
  (on_suit t s c = true -> 1000 <= trick_weight t s c)
  /\ (on_suit t s c = false -> trick_weight t s c = -1).
Proof.
  intros Hc. unfold trick_weight.
  destruct (order_of_bounds t c Hc) as (o & Ho & Bo & _). rewrite Ho.
  destruct (on_suit t s c); split; try discriminate; intros _.
  - destruct (is_trump t c); lia.
  - reflexivity.
Qed.

Lemma match_one (t : TrumpSystem) (c l : Card) :
  playing_card c = true -> _match_components t [c] [[l]] = Some [[c]].
Proof.
  intros Hc. unfold _match_components. cbn [map].
  change (Py.len [l]) with 1. cbn [match_slots].
  destruct (card_order_some t c Hc) as (o & Ho).
  unfold keyed. cbn [Py.mapM]. rewrite Ho. cbn beta iota.
  change (Py.take 1 (map snd (Py.sorted_by_rev fst [(o, c)]))) with [c].
  cbn [remove_all Py.remove]. rewrite card_eqb_refl. reflexivity.
Qed.

Lemma play_beats_single (t : TrumpSystem) (c b l : Card) (s : string) :
  playing_card c = true -> playing_card b = true ->
  on_suit t s b = true ->
  _play_beats t [c] [b] [[l]] s
  = Some (trick_weight t s b <? trick_weight t s c).
Proof.
  intros Hc Hb Hon. unfold _play_beats. cbn [map].
  assert (Hquick : negb (Py.contains String.eqb s [effective_suit t c])
                   && negb (Py.contains String.eqb TRUMP
                              [effective_suit t c])
                   = negb (on_suit t s c)).
  { unfold Py.contains, on_suit. cbn [existsb].
    rewrite !orb_false_r. now rewrite negb_orb. }
  rewrite Hquick.
  destruct (weight_on_suit t s c Hc) as [W1 W2].
  destruct (weight_on_suit t s b Hb) as [V1 _]. specialize (V1 Hon).
  destruct (on_suit t s c) eqn:Hoc; cbn [negb].
  - rewrite (match_one t c l Hc), (match_one t b l Hb).
    cbn [all_slots_beat]. unfold _component_beats.
    change (Py.len [l]) with 1.
    assert (D : forall x, new_CardCombo [x] t
                          = Some (mkCombo [x] t SINGLE [[x]])) by reflexivity.
    rewrite !D. cbn [first_suit hd_error].
    fold (on_suit t s c). rewrite Hoc. cbn [negb Z.eqb Pos.eqb].
    rewrite (beats_weight t c b s Hc Hb Hon).
    destruct (trick_weight t s b <? trick_weight t s c); reflexivity.
  - specialize (W2 eq_refl). rewrite W2.
    destruct (Z.ltb_spec (trick_weight t s b) (-1)); [lia | reflexivity].
Qed.

Lemma winner_loop_singles (t : TrumpSystem) (l : Card) (s : string)
      (rest : list (Z * Card)) :
  forall (bp : Z) (bc : Card) (seen : list (Z * Card)),
    (forall pc, In pc rest -> playing_card (snd pc) = true) ->
    playing_card bc = true -> on_suit t s bc = true ->
    In (bp, bc) seen ->
    (forall pc, In pc seen ->
                trick_weight t s (snd pc) <= trick_weight t s bc) ->
    exists w cw,
      winner_loop t [[l]] s (bp, [bc]) (map one_card rest) = Some w
      /\ In (w, cw) (seen ++ rest)
      /\ playing_card cw = true /\ on_suit t s cw = true
      /\ (forall pc, In pc (seen ++ rest) ->
                     trick_weight t s (snd pc) <= trick_weight t s cw).
Proof.
  induction rest as [ | [p c] rest IH]; intros bp bc seen Hrest Hbc Hon Hin
                                                Hmax.
  - exists bp, bc. cbn. rewrite app_nil_r. auto.
  - cbn [map one_card fst snd winner_loop].
    assert (Hc : playing_card c = true)
      by (apply (Hrest (p, c)); now left).
    rewrite (play_beats_single t c bc l s Hc Hbc Hon).
    destruct (Z.ltb_spec (trick_weight t s bc) (trick_weight t s c))
      as [Hlt | Hge].
    + assert (Honc : on_suit t s c = true).
      { destruct (weight_on_suit t s c Hc) as [_ W2].
        destruct (weight_on_suit t s bc Hbc) as [V1 _].
        specialize (V1 Hon).
        destruct (on_suit t s c); [reflexivity | ].
        specialize (W2 eq_refl). lia. }
      destruct (IH p c (seen ++ [(p, c)])) as (w & cw & Hw & Hi & H1 & H2 & H3).
      * intros pc Hpc. apply Hrest. now right.
      * exact Hc.
      * exact Honc.
      * apply in_or_app. right. now left.
      * intros pc Hpc. apply in_app_or in Hpc.
        destruct Hpc as [Hpc | [<- | []]]; [ | cbn; lia].
        specialize (Hmax pc Hpc). lia.
      * exists w, cw. rewrite <- app_assoc in Hi, H3. auto.
    + destruct (IH bp bc (seen ++ [(p, c)]))
        as (w & cw & Hw & Hi & H1 & H2 & H3).
      * intros pc Hpc. apply Hrest. now right.
      * exact Hbc.
      * exact Hon.
      * apply in_or_app. now left.
      * intros pc Hpc. apply in_app_or in Hpc.
        destruct Hpc as [Hpc | [<- | []]]; [now apply Hmax | cbn; lia].
      * exists w, cw. rewrite <- app_assoc in Hi, H3. auto.
Qed.

(** X16: in a trick of four single cards the winner holds a card that no card
    of the trick beats. *)
Theorem single_card_trick_winner (t : TrumpSystem) (ld : Z)
        (p0 p1 p2 p3 : Z) (c0 c1 c2 c3 : Card) (led : CardCombo) :
  playing_card c0 = true -> playing_card c1 = true ->
  playing_card c2 = true -> playing_card c3 = true ->
  new_CardCombo [c0] t = Some led ->
  let tr := mkTrick t ld [(p0, [c0]); (p1, [c1]); (p2, [c2]); (p3, [c3])]
                    (Some led) in
  exists w cw,
    winner tr = Some w /\ In (w, [cw]) (plays tr) /\
    forall p c, In (p, [c]) (plays tr) ->
                beats t c cw (effective_suit t c0) = Some false.
Proof.
  intros H0 H1 H2 H3 Hled tr.
  injection Hled as <-.
  set (s := effective_suit t c0).
  assert (Hon0 : on_suit t s c0 = true).
  { unfold on_suit, s. now rewrite String.eqb_refl. }
  destruct (winner_loop_singles t c0 s [(p1, c1); (p2, c2); (p3, c3)]
              p0 c0 [(p0, c0)])
    as (w & cw & Hw & Hi & Hcw & Hocw & Hmax).
  - intros pc [<- | [<- | [<- | []]]]; assumption.
  - exact H0.
  - exact Hon0.
  - now left.
  - intros pc [<- | []]. cbn. lia.
  - exists w, cw. split; [exact Hw | ]. split.
    + cbn in Hi. cbn [plays tr].
      destruct Hi as [E | [E | [E | [E | []]]]]; injection E as <- <-;
        cbn; auto.
    + intros p c Hin.
      assert (Hc : playing_card c = true /\ In (p, c)
                     [(p0, c0); (p1, c1); (p2, c2); (p3, c3)]).
      { cbn in Hin.
        destruct Hin as [E | [E | [E | [E | []]]]]; injection E as <- <-;
          (split; [assumption | cbn; auto]). }
      destruct Hc as [Hc Hin'].
      rewrite (beats_weight t c cw s Hc Hcw Hocw).
      specialize (Hmax (p, c) Hin'). cbn [snd] in Hmax.
      destruct (Z.ltb_spec (trick_weight t s cw) (trick_weight t s c));
        [lia | reflexivity].
Qed.

Lemma single_card_trick_winner_witness :
  exists w cw,
    winner (mkTrick (mkTrump "♠" "2") 0
              [(0, [mkCard "♥" "K" 0]); (1, [mkCard "♥" "A" 0]);
               (2, [mkCard "♠" "3" 0]); (3, [mkCard "♣" "A" 1])]
              (Some (mkCombo [mkCard "♥" "K" 0] (mkTrump "♠" "2") SINGLE
                             [[mkCard "♥" "K" 0]]))) = Some w
    /\ In (w, [cw])
          [(0, [mkCard "♥" "K" 0]); (1, [mkCard "♥" "A" 0]);
           (2, [mkCard "♠" "3" 0]); (3, [mkCard "♣" "A" 1])]
    /\ forall p c,
         In (p, [c])
            [(0, [mkCard "♥" "K" 0]); (1, [mkCard "♥" "A" 0]);
             (2, [mkCard "♠" "3" 0]); (3, [mkCard "♣" "A" 1])] ->
         beats (mkTrump "♠" "2") c cw
               (effective_suit (mkTrump "♠" "2") (mkCard "♥" "K" 0))
         = Some false.
Proof.
  apply (single_card_trick_winner (mkTrump "♠" "2") 0 0 1 2 3
           (mkCard "♥" "K" 0) (mkCard "♥" "A" 0) (mkCard "♠" "3" 0)
           (mkCard "♣" "A" 1)); reflexivity.
Defined.

(* ----------------------------------------------------------------- *)
(** ** Matching a play against the led template *)

Lemma remove_all_perm (chunk l r : list Card) :
  remove_all chunk l = Some r -> Permutation l (chunk ++ r).
Proof.
  intros H. apply (Permutation_count_occ Card_eq_dec). intros c.
  fold (copies c l). fold (copies c (chunk ++ r)).
  rewrite copies_app. now apply copies_remove_all.
Qed.

Lemma len_take_min {A} (n : Z) (l : list A) :
  0 <= n -> Py.len (Py.take n l) = Z.min n (Py.len l).
Proof.
  intros H. unfold Py.take, Py.len. rewrite length_firstn. lia.
Qed.

Lemma match_slots_partition (t : TrumpSystem) (sizes : list Z) :
  forall cards,
    (forall s, In s sizes -> 0 <= s) -> playing_cards cards ->
    exists slots leftover,
      match_slots t sizes cards = Some slots
      /\ length slots = length sizes
      /\ Permutation cards (concat slots ++ leftover)
      /\ (Py.sum sizes <= Py.len cards ->
          map (fun s : list Card => Py.len s) slots = sizes
          /\ Py.len leftover = Py.len cards - Py.sum sizes).
Proof.
  induction sizes as [ | size sizes IH]; intros cards Hpos Hc;
    cbn [match_slots].
  - exists [], cards. split; [reflexivity | ]. split; [reflexivity | ].
    split; [apply Permutation_refl | ]. intros _.
    split; [reflexivity | ]. change (Py.sum []) with 0. lia.
  - destruct (keyed_some (card_order t) cards) as (ks & Hks).
    { intros c Hin. apply card_order_some. now apply Hc. }
    rewrite Hks.
    set (sorted := map snd (Py.sorted_by_rev fst ks)).
    assert (Hsorted : Permutation cards sorted).
    { unfold sorted. rewrite <- (keyed_snd _ _ _ Hks) at 1.
      apply Permutation_map, sorted_by_rev_perm. }
    assert (Hsplit : Permutation cards
                       (Py.take size sorted ++ Py.drop size sorted)).
    { now rewrite take_drop. }
    destruct (remove_all_some _ _ _ Hsplit) as (rem & Hrem & Hp).
    rewrite Hrem.
    assert (Hsize : 0 <= size) by (apply Hpos; now left).
    pose proof (remove_all_perm _ _ _ Hrem) as Hfull.
    destruct (IH rem) as (slots & leftover & Hm & Hlen & Hperm & Hex).
    { intros s Hs. apply Hpos. now right. }
    { intros c Hin. apply Hc.
      apply (Permutation_in c (Permutation_sym Hfull)).
      apply in_or_app. now right. }
    rewrite Hm. exists (Py.take size sorted :: slots), leftover.
    split; [reflexivity | ]. split; [cbn; now rewrite Hlen | ].
    split.
    + cbn [concat]. rewrite <- app_assoc.
      eapply perm_trans; [exact Hfull | ].
      now apply Permutation_app_head.
    + rewrite sum_cons. intros Hle.
      pose proof (Permutation_length Hfull) as Hl.
      rewrite length_app in Hl.
      pose proof (len_take_min size sorted Hsize) as Ht.
      pose proof (Permutation_length Hsorted) as Hs.
      assert (Hsum : 0 <= Py.sum sizes).
      { clear - Hpos. induction sizes as [ | s sizes IH].
        - change (Py.sum []) with 0. lia.
        - rewrite sum_cons.
          assert (0 <= s) by (apply Hpos; right; now left).
          assert (0 <= Py.sum sizes).
          { apply IH. intros x [Hx | Hx]; apply Hpos;
              [now left | right; now right]. }
          lia. }
      unfold Py.len in *.
      destruct Hex as [Hmap Hleft]; [lia | ].
      cbn [map]. split; [f_equal; [lia | exact Hmap] | lia].
Qed.

(** X17: [_match_components] answers on every play of playing cards, with one
    slot for each component of the template; the slots and the cards left
    over hold exactly the cards of the play, card for card.  When the play
    has at least as many cards as the template, every slot has the size of
    its component, and when it has exactly as many, no card is left over. *)
Theorem match_components_partition (t : TrumpSystem) (cards : list Card)
        (template : list (list Card)) :
  playing_cards cards ->
  exists slots leftover,
    _match_components t cards template = Some slots
    /\ length slots = length template
    /\ Permutation cards (concat slots ++ leftover)
    /\ (Py.sum (map (fun c : list Card => Py.len c) template)
        <= Py.len cards ->
        map (fun s : list Card => Py.len s) slots
        = map (fun c : list Card => Py.len c) template)
    /\ (Py.sum (map (fun c : list Card => Py.len c) template)
        = Py.len cards -> leftover = []).
Proof.
  intros Hc. unfold _match_components.
  destruct (match_slots_partition t
              (map (fun c : list Card => Py.len c) template) cards)
    as (slots & leftover & Hm & Hlen & Hperm & Hex).
  - intros s Hs. apply in_map_iff in Hs. destruct Hs as (c & <- & _).
    apply len_nonneg.
  - exact Hc.
  - exists slots, leftover. split; [exact Hm | ].
    split; [now rewrite Hlen, length_map | ]. split; [exact Hperm | ].
    split.
    + intros Hle. now destruct (Hex Hle).
    + intros Heq. destruct (Hex ltac:(lia)) as [_ Hl].
      destruct leftover as [ | x leftover]; [reflexivity | ].
      rewrite len_cons in Hl. pose proof (len_nonneg leftover). lia.
Qed.

Lemma match_components_partition_witness :
  exists slots leftover,
    _match_components (mkTrump "♠" "2")
      [mkCard "♥" "3" 0; mkCard "♠" "A" 0; mkCard "♥" "K" 1]
      [[mkCard "♣" "5" 0; mkCard "♣" "5" 1]; [mkCard "♣" "9" 0]]
    = Some slots
    /\ length slots = 2%nat
    /\ Permutation [mkCard "♥" "3" 0; mkCard "♠" "A" 0; mkCard "♥" "K" 1]
                   (concat slots ++ leftover).
Proof.
  destruct (match_components_partition (mkTrump "♠" "2")
              [mkCard "♥" "3" 0; mkCard "♠" "A" 0; mkCard "♥" "K" 1]
              [[mkCard "♣" "5" 0; mkCard "♣" "5" 1]; [mkCard "♣" "9" 0]])
    as (slots & leftover & H1 & H2 & H3 & _).
  - intros c [<- | [<- | [<- | []]]]; reflexivity.
  - exists slots, leftover. auto.
Defined.

(* ----------------------------------------------------------------- *)
(** ** What a completed call changes *)

Lemma nth_error_set_nth {A} (l : list A) (n : nat) (x : A) :
  (n < length l)%nat -> nth_error (Py.set_nth l n x) n = Some x.
Proof.
  revert n. induction l as [ | y l IH]; intros [ | n] H; cbn in *;
    try lia.
  - reflexivity.
  - apply IH. lia.
Qed.

Lemma length_set_nth {A} (l : list A) (n : nat) (x : A) :
  length (Py.set_nth l n x) = length l.
Proof.
  revert n. induction l as [ | y l IH]; intros [ | n]; cbn; auto.
Qed.

Lemma getidx_setidx {A} (l l' : list A) (i : Z) (x : A) :
  Py.setidx l i x = Some l' -> Py.getidx l' i = Some x.
Proof.
  unfold Py.setidx, Py.getidx.
  destruct (Py.norm_index l i) as [n | ] eqn:Hn; [ | discriminate].
  intros [= <-].
  assert (Hnorm : Py.norm_index (Py.set_nth l n x) i = Some n).
  { unfold Py.norm_index, Py.len in *. now rewrite length_set_nth. }
  rewrite Hnorm. apply nth_error_set_nth.
  unfold Py.norm_index, Py.len in Hn.
  destruct ((0 <=? i) && (i <? Z.of_nat (length l))) eqn:E.
  - apply andb_true_iff in E. destruct E as [E1 E2].
    apply Z.leb_le in E1. apply Z.ltb_lt in E2.
    injection Hn as <-. lia.
  - destruct ((- Z.of_nat (length l) <=? i) && (i <? 0)) eqn:E2;
      [ | discriminate].
    apply andb_true_iff in E2. destruct E2 as [E1 E2].
    apply Z.leb_le in E1. apply Z.ltb_lt in E2.
    injection Hn as <-. lia.
Qed.

(** X18: [play_cards] returns only for the player to move, in the PLAYING
    phase, and only for cards this player holds: the old hand is the new hand
    plus the cards played.  While the trick is open the turn passes to the
    next seat; when the trick is complete and cards remain, the winner
    leads. *)
Theorem play_cards_guards st p cards r st' :
  play_cards st p cards = Some (r, st') ->
  p = current_player st /\ phase st = PLAYING /\
  (exists h h',
      Py.getidx (hands st) p = Some h /\ Py.getidx (hands st') p = Some h'
      /\ Permutation h (cards ++ h')) /\
  (r = None ->
   phase st' = PLAYING
   /\ current_player st' = (p + 1) mod num_players st
   /\ tricks st' = tricks st /\ scores st' = scores st) /\
  (forall w, r = Some w ->
     (exists tr, tricks st' = tricks st ++ [tr] /\ winner tr = Some w
                 /\ Py.len (plays tr) = 4)
     /\ (phase st' = PLAYING -> current_player st' = w)).
Proof.
  unfold play_cards.
  destruct (Z.eqb_spec p (current_player st)) as [Hp | Hp]; cbn [negb];
    [ | discriminate].
  destruct (GamePhase_eqb (phase st) PLAYING) eqn:Hph; [ | discriminate].
  apply GamePhase_eqb_eq in Hph. cbn [negb].
  destruct (Py.getidx (hands st) p) as [h | ] eqn:Hh; [ | discriminate].
  destruct (remove_all cards h) as [h' | ] eqn:Hr; [ | discriminate].
  destruct (Py.setidx (hands st) p h') as [hs | ] eqn:Hset; [ | discriminate].
  destruct (current_trick st) as [trick0 | ] eqn:Hct; [ | discriminate].
  destruct (trick_play trick0 p cards) as [trick | ] eqn:Htp;
    [ | discriminate].
  pose proof (getidx_setidx _ _ _ _ Hset) as Hg.
  pose proof (remove_all_perm _ _ _ Hr) as Hperm.
  destruct (is_complete trick) eqn:Hcomp.
  - destruct (winner trick) as [w | ] eqn:Hw; [ | discriminate].
    destruct (add_score _ _ _) as [sc | ]; [ | discriminate].
    assert (H4 : Py.len (plays trick) = 4).
    { unfold is_complete in Hcomp. now apply Z.eqb_eq in Hcomp. }
    destruct (forallb _ hs).
    + destruct (add_score sc _ _) as [sc' | ]; [ | discriminate].
      intros [= <- <-]. cbn.
      split; [exact Hp | ]. split; [exact Hph | ].
      split; [exists h, h'; auto | ]. split; [discriminate | ].
      intros w' [= <-]. split; [eauto | discriminate].
    + intros [= <- <-]. cbn.
      split; [exact Hp | ]. split; [exact Hph | ].
      split; [exists h, h'; auto | ]. split; [discriminate | ].
      intros w' [= <-]. split; [eauto | reflexivity].
  - destruct (num_players st =? 0); [discriminate | ].
    intros [= <- <-]. cbn.
    split; [exact Hp | ]. split; [exact Hph | ].
    split; [exists h, h'; auto | ]. split; [auto | discriminate].
Qed.

Lemma play_cards_guards_witness :
  exists st0 st st',
    new_GameState short_deck 4 "2" 0 = Some st0 /\
    run [Deal; Deal; Deal; Deal; Bury (Py.drop 4 short_deck)] st0 = Some st /\
    play_cards st 0 [mkCard "♥" "A" 0] = Some (None, st') /\
    current_player st' = (0 + 1) mod num_players st.
Proof.
  eexists. eexists. eexists. split; [reflexivity | ].
  split; [vm_compute; reflexivity | ].
  split; [vm_compute; reflexivity | ].
  match goal with
  | |- current_player ?s' = (0 + 1) mod num_players ?s =>
      destruct (play_cards_guards s 0 [mkCard "♥" "A" 0] None s'
                  ltac:(vm_compute; reflexivity))
        as (_ & _ & _ & H & _);
      destruct (H eq_refl) as (_ & Hc & _)
  end.
  exact Hc.
Defined.

(** X19: [bury_kitty] returns only for eight cards taken from the declarer's
    hand and the kitty together: hand and kitty before are the new hand plus
    the buried cards.  The buried cards become the kitty, the round moves to
    PLAYING and the declarer leads a fresh trick. *)
Theorem bury_kitty_effect st cards st' :
  bury_kitty st cards = Some st' ->
  Py.len cards = 8 /\ kitty st' = cards /\ phase st' = PLAYING /\
  current_player st' = declaring_player st /\
  current_trick st' = Some (new_Trick (gs_trump st) (declaring_player st)) /\
  exists h h',
    Py.getidx (hands st) (declaring_player st) = Some h /\
    Py.getidx (hands st') (declaring_player st) = Some h' /\
    Permutation (h ++ kitty st) (cards ++ h').
Proof.
  unfold bury_kitty.
  destruct (Z.eqb_spec (Py.len cards) KITTY_SIZE) as [H8 | H8]; cbn [negb];
    [ | discriminate].
  destruct (Py.getidx (hands st) _) as [h | ] eqn:Hh; [ | discriminate].
  destruct (remove_all cards (h ++ kitty st)) as [h' | ] eqn:Hr;
    [ | discriminate].
  destruct (Py.setidx (hands st) _ h') as [hs | ] eqn:Hset; [ | discriminate].
  intros [= <-]. cbn.
  split; [exact H8 | ]. split; [reflexivity | ]. split; [reflexivity | ].
  split; [reflexivity | ]. split; [reflexivity | ].
  exists h, h'. split; [reflexivity | ].
  split; [eapply getidx_setidx; eauto | now apply remove_all_perm].
Qed.

Lemma bury_kitty_effect_witness :
  exists st0 st st',
    new_GameState short_deck 4 "2" 0 = Some st0 /\
    run [Deal; Deal; Deal; Deal] st0 = Some st /\
    bury_kitty st (Py.drop 4 short_deck) = Some st' /\
    kitty st' = Py.drop 4 short_deck /\ phase st' = PLAYING.
Proof.
  eexists. eexists. eexists. split; [reflexivity | ].
  split; [vm_compute; reflexivity | ].
  split; [vm_compute; reflexivity | ].
  match goal with
  | |- kitty ?s' = _ /\ _ =>
      destruct (bury_kitty_effect
                  (mkGame 4 "2" None 0 0 0 "♠" (mkTrump "♠" "2") ["2"; "2"]
                     [[mkCard "♥" "A" 0]; [mkCard "♥" "K" 0];
                      [mkCard "♥" "5" 0]; [mkCard "♥" "10" 0]]
                     (Py.drop 4 short_deck) KITTY 0 [] None [0; 0] []
                     short_deck 4 1 4)
                  (Py.drop 4 short_deck) s'
                  ltac:(vm_compute; reflexivity))
        as (_ & Hk & Hp & _)
  end.
  split; [exact Hk | exact Hp].
Defined.

(* ----------------------------------------------------------------- *)
(** ** Answering a single card *)

Lemma sorted_nonempty {A} (key : A -> Z) (l : list A) :
  l <> [] -> exists x rest, Py.sorted_by key l = x :: rest /\ In x l.
Proof.
  intros Hne. pose proof (sorted_by_perm key l) as P.
  destruct (Py.sorted_by key l) as [ | x rest] eqn:E.
  - apply Permutation_sym, Permutation_nil in P. contradiction.
  - exists x, rest. split; [reflexivity | ].
    apply (Permutation_in x (Permutation_sym P)). now left.
Qed.

Lemma filter_all {A} (f : A -> bool) (l : list A) :
  (forall x, In x l -> f x = true) -> filter f l = l.
Proof.
  induction l as [ | x l IH]; intros H; cbn; [reflexivity | ].
  rewrite (H x (or_introl eq_refl)). f_equal. apply IH.
  intros y Hy. apply H. now right.
Qed.

Lemma single_lead_requirement (t : TrumpSystem) (l : Card)
      (hand : list Card) :
  playing_cards hand ->
  exists req,
    required_follow_structure (mkCombo [l] t SINGLE [[l]]) hand t = Some req
    /\ req_tractors req = 0 /\ req_pair_cards req = 0
    /\ (filter (in_led_suit t (effective_suit t l)) hand = [] ->
        req_singles req = 0 /\ req_total req = 0)
    /\ (filter (in_led_suit t (effective_suit t l)) hand <> [] ->
        req_singles req = 1 /\ req_total req = 1
        /\ exists a b, req_avail_tractor_pairs req = Some a
                       /\ req_avail_free_pairs req = Some b).
Proof.
  intros Hh. unfold required_follow_structure, combo_effective_suit.
  cbn [combo_cards combo_trump components]. cbn beta iota zeta.
  set (his := filter (in_led_suit t (effective_suit t l)) hand).
  destruct his as [ | c0 his'] eqn:Ehis.
  - change (Py.len (@nil Card) =? 0) with true. cbn beta iota.
    eexists. split; [reflexivity | ]. cbn.
    split; [reflexivity | ]. split; [reflexivity | ].
    split; [auto | ]. intros H. now elim H.
  - assert (Hn : 1 <= Py.len (c0 :: his')).
    { rewrite len_cons. pose proof (len_nonneg his'). lia. }
    destruct (Z.eqb_spec (Py.len (c0 :: his')) 0) as [E | _]; [lia | ].
    destruct (_group_by_order_some t (c0 :: his')) as (g & Hg).
    { intros c Hc. apply Hh. rewrite <- Ehis in Hc.
      unfold his in Hc. now apply filter_In in Hc. }
    rewrite Hg.
    change (fold_left demand_step
              (Py.sorted_by (fun c : list Card => - Py.len c) [[l]])
              (0, 0, 0)) with (0, 0, 1).
    cbn beta iota.
    pose proof (tractor_pair_count_nonneg (pair_orders_of g)) as Htp.
    pose proof (free_pair_count_nonneg (pair_orders_of g)) as Hfp.
    eexists. split; [reflexivity | ].
    cbn [req_tractors req_pair_cards req_singles req_total
         req_avail_tractor_pairs req_avail_free_pairs].
    change (Py.len [l]) with 1.
    split; [lia | ]. split; [lia | ]. split; [discriminate | ].
    intros _. split; [lia | ]. split; [lia | eauto].
Qed.

(** X20: answering a single card.  For a lead of one card and a non-empty
    hand of playing cards, [build_valid_follow] returns one card of the hand,
    of the led suit whenever the hand has one, and [is_valid_follow] accepts
    it. *)
Theorem build_valid_follow_single (t : TrumpSystem) (l : Card)
        (hand : list Card) (led : CardCombo) :
  playing_cards hand -> hand <> [] ->
  new_CardCombo [l] t = Some led ->
  exists c,
    build_valid_follow led hand t = Some [c] /\ In c hand /\
    (filter (in_led_suit t (effective_suit t l)) hand <> [] ->
     in_led_suit t (effective_suit t l) c = true) /\
    is_valid_follow [c] led hand t = Some (true, "").
Proof.
  intros Hh Hne Hled. injection Hled as <-.
  destruct (single_lead_requirement t l hand Hh)
    as (req & Hreq & Rt & Rp & Rvoid & Rsuit).
  unfold build_valid_follow, is_valid_follow, combo_effective_suit.
  cbn [combo_cards combo_trump]. rewrite Hreq. cbn beta iota zeta.
  rewrite Rt, Rp. change (0 / 2) with 0. change (0 >? 0) with false.
  cbn beta iota. cbn [fst snd].
  change (Py.len [l]) with 1.
  set (s := effective_suit t l) in *.
  destruct (filter (in_led_suit t s) hand) as [ | h0 his'] eqn:Ehis.
  - (* void in the led suit *)
    destruct (Rvoid eq_refl) as [Rs Rtot]. rewrite Rs, Rtot.
    change (0 >? 0) with false. cbn beta iota. cbn [fst].
    change (1 - Py.len (@nil Card) >? 0) with true. cbn beta iota.
    rewrite (filter_all _ hand) by reflexivity.
    destruct (keyed_some (card_order t) hand) as (ks & Hks).
    { intros c Hc. apply card_order_some. now apply Hh. }
    rewrite Hks.
    assert (Hksne : ks <> []).
    { intros E. rewrite E in Hks. apply keyed_snd in Hks. cbn in Hks.
      congruence. }
    destruct (sorted_nonempty fst ks Hksne) as ([o c] & rest & Hs & Hin).
    rewrite Hs. cbn [map snd app].
    change (Py.take (1 - Py.len (@nil Card)) (c :: map snd rest)) with [c].
    change (Py.take 1 [c]) with [c].
    assert (Hc : In c hand).
    { rewrite <- (keyed_snd _ _ _ Hks). apply in_map_iff.
      exists (o, c). auto. }
    exists c. split; [reflexivity | ]. split; [exact Hc | ].
    split; [intros H; now elim H | ].
    change (Py.len [c] =? 1) with true. cbn [negb].
    assert (Hoff : in_led_suit t s c = false).
    { destruct (in_led_suit t s c) eqn:E; [ | reflexivity].
      assert (Hf : In c (filter (in_led_suit t s) hand))
        by (apply filter_In; auto).
      rewrite Ehis in Hf. contradiction. }
    cbn [filter]. rewrite Hoff. reflexivity.
  - (* a card of the led suit is held *)
    destruct (Rsuit ltac:(discriminate)) as (Rs & Rtot & a & b & Ra & Rb).
    rewrite Rs, Rtot, Ra, Rb.
    change (1 >? 0) with true. cbn beta iota. cbn [fst snd].
    assert (Hhis : forall c, In c (h0 :: his') ->
                             In c hand /\ in_led_suit t s c = true).
    { intros c Hc. rewrite <- Ehis in Hc. now apply filter_In in Hc. }
    destruct (keyed_some (order_of t) (h0 :: his')) as (ks & Hks).
    { intros c Hc. apply order_of_some. apply Hh. now apply Hhis. }
    rewrite Hks.
    assert (Hksne : ks <> []).
    { intros E. rewrite E in Hks. apply keyed_snd in Hks. cbn in Hks.
      congruence. }
    destruct (sorted_nonempty fst ks Hksne) as ([o c] & rest & Hs & Hin).
    rewrite Hs. cbn [map snd].
    change (Py.take 1 (c :: map snd rest)) with [c].
    assert (Hc : In c (h0 :: his')).
    { rewrite <- (keyed_snd _ _ _ Hks). apply in_map_iff.
      exists (o, c). auto. }
    destruct (remove_some c (h0 :: his') Hc) as (r & Hr & _).
    cbn [take_cards]. rewrite Hr. cbn [app fst].
    change (1 - Py.len [c] >? 0) with false. cbn beta iota.
    change (Py.take 1 [c]) with [c].
    destruct (Hhis c Hc) as [Hch Hcs].
    exists c. split; [reflexivity | ]. split; [exact Hch | ].
    split; [intros _; exact Hcs | ].
    change (Py.len [c] =? 1) with true. cbn [negb].
    cbn [filter]. rewrite Hcs.
    change (Py.len [c] <? 1) with false.
    change ((Py.len [c] >=? 1) && (1 >? 0)) with true. cbn beta iota.
    destruct (order_of_some t c (Hh c Hch)) as (oc & Hoc).
    unfold _group_by_order, keyed. cbn [Py.mapM]. rewrite Hoc.
    cbn beta iota. reflexivity.
Qed.

Lemma build_valid_follow_single_witness :
  exists c,
    build_valid_follow
      (mkCombo [mkCard "♥" "K" 0] (mkTrump "♠" "2") SINGLE
               [[mkCard "♥" "K" 0]])
      [mkCard "♣" "4" 0; mkCard "♥" "9" 1; mkCard "♥" "3" 0]
      (mkTrump "♠" "2") = Some [c]
    /\ In c [mkCard "♣" "4" 0; mkCard "♥" "9" 1; mkCard "♥" "3" 0].
Proof.
  destruct (build_valid_follow_single (mkTrump "♠" "2") (mkCard "♥" "K" 0)
              [mkCard "♣" "4" 0; mkCard "♥" "9" 1; mkCard "♥" "3" 0]
              (mkCombo [mkCard "♥" "K" 0] (mkTrump "♠" "2") SINGLE
                       [[mkCard "♥" "K" 0]]))
    as (c & H1 & H2 & _).
  - intros c [<- | [<- | [<- | []]]]; reflexivity.
  - discriminate.
  - reflexivity.
  - exists c. split; assumption.
Defined.
